(** * A shallow embedding of [domino_game.py]

    The four-player partnership domino engine: tiles, hands, legal moves,
    the turn step, the bonus check, team scoring and the round / game
    set-up.  Python objects that are shared and mutated ([Player]
    instances, referenced from [Game.players] and [Game.winner]) live in a
    store indexed by object identity; lists that are mutated in place are
    threaded through explicitly, so that a mutation made before an
    exception is still visible afterwards. *)

From Stdlib Require Import String Ascii DecimalString.
From Stdlib Require Import List ZArith Bool Arith Lia Permutation.
Import ListNotations.

Set Implicit Arguments.

(** ** Python values and list primitives *)

(** The exceptions the engine can run into. *)
Inductive exn : Type :=
| IndexError
| ValueError
| TypeError
| ZeroDivisionError.

(** The result of a call: a returned value or a raised exception. *)
Inductive outcome (A : Type) : Type :=
| Return (a : A)
| Raise (e : exn).

Arguments Return {A} a.
Arguments Raise {A} e.

Module PyList.
Section Ops.
Variable A : Type.
Variable eqb : A -> A -> bool.

(** [l.remove(x)]: drops the first element equal to [x]; [None] stands
    for the [ValueError] of an absent element. *)
Fixpoint remove (x : A) (l : list A) : option (list A) :=
  match l with
  | [] => None
  | y :: l' =>
      if eqb y x then Some l'
      else match remove x l' with
           | Some r => Some (y :: r)
           | None => None
           end
  end.

(** [l.count(x)] *)
Fixpoint count (x : A) (l : list A) : nat :=
  match l with
  | [] => 0
  | y :: l' => if eqb y x then S (count x l') else count x l'
  end.

(** [l.index(x)]: position of the first element equal to [x]; [None]
    stands for the [ValueError] of an absent element. *)
Fixpoint index (x : A) (l : list A) : option nat :=
  match l with
  | [] => None
  | y :: l' =>
      if eqb y x then Some 0
      else match index x l' with
           | Some i => Some (S i)
           | None => None
           end
  end.

(** [l[start::step]] for [step = S step']: skip [start] elements, keep
    one, skip [step'], keep one, ... *)
Fixpoint stride (step' : nat) (skip : nat) (l : list A) : list A :=
  match l with
  | [] => []
  | x :: l' =>
      match skip with
      | 0 => x :: stride step' step' l'
      | S k => stride step' k l'
      end
  end.

Definition slice (start step : nat) (l : list A) : list A :=
  stride (pred step) start l.

(** [l[-n:]] *)
Definition last_n (n : nat) (l : list A) : list A :=
  skipn (length l - n) l.
End Ops.
End PyList.

(** ** Tiles, actions and turn records *)

Definition Domino : Type := (Z * Z)%type.

Definition Domino_eqb (d e : Domino) : bool :=
  (fst d =? fst e)%Z && (snd d =? snd e)%Z.

(** [d[::-1]] *)
Definition reversed (d : Domino) : Domino := (snd d, fst d).

(** [Action = namedtuple("Action", "insert_end, domino, flip")] *)
Record Action : Type := mkAction {
  insert_end : bool;
  domino : Domino;
  flip : bool
}.

(** [TurnDataPoint = namedtuple(..., "player_name, did_play, domino_played")];
    [domino_played] is [None] for a pass. *)
Record TurnDataPoint : Type := mkTurnDataPoint {
  player_name : string;
  did_play : bool;
  domino_played : option Domino
}.

(** An [ActionChooser]: [choose_action(TurnData(played_dominos, legal_moves))]. *)
Definition ActionChooser : Type := list Domino -> list Action -> Action.

(** ** class Player *)

Record Player : Type := mkPlayer {
  _name : string;
  _dominos : list Domino;
  _action_chooser : ActionChooser;
  score : Z
}.

Definition set_dominos (self : Player) (ds : list Domino) : Player :=
  mkPlayer (_name self) ds (_action_chooser self) (score self).

Definition add_score (self : Player) (points : Z) : Player :=
  mkPlayer (_name self) (_dominos self) (_action_chooser self)
           (score self + points)%Z.

Module PlayerM.

(** [Player.__init__] *)
Definition init (name : string) (action_chooser : ActionChooser) : Player :=
  mkPlayer name [] action_chooser 0%Z.

Definition reset (self : Player) : Player := set_dominos self [].

Definition give_dominos (self : Player) (dominos : list Domino) : Player :=
  set_dominos self dominos.

Definition is_hand_empty (self : Player) : bool :=
  (length (_dominos self) =? 0)%nat.

Definition has_double_six (self : Player) : bool :=
  (PyList.count Domino_eqb (6, 6)%Z (_dominos self) =? 1)%nat.

(** [play_double_six]: the board list is extended in place before the
    removal from the hand is attempted, so the extended board is
    returned next to the outcome. *)
Definition play_double_six (self : Player) (played_dominos : list Domino)
  : outcome (list Domino) * (Player * list Domino) :=
  let played_dominos := played_dominos ++ [(6, 6)%Z] in
  match PyList.remove Domino_eqb (6, 6)%Z (_dominos self) with
  | None => (Raise ValueError, (self, played_dominos))
  | Some ds => (Return played_dominos, (set_dominos self ds, played_dominos))
  end.

Definition get_legal_moves (self : Player) (played_dominos : list Domino)
  : list Action :=
  match played_dominos with
  | [] => map (fun d => mkAction true d false) (_dominos self)
  | first :: _ =>
      let head := fst first in
      let tail := snd (last played_dominos first) in
      fold_left
        (fun actions d =>
           let actions :=
             if (fst d =? tail)%Z then actions ++ [mkAction true d false]
             else actions in
           let actions :=
             if (snd d =? tail)%Z then actions ++ [mkAction true d true]
             else actions in
           let actions :=
             if (fst d =? head)%Z then actions ++ [mkAction false d true]
             else actions in
           let actions :=
             if (snd d =? head)%Z then actions ++ [mkAction false d false]
             else actions in
           actions)
        (_dominos self) []
  end.

(** [take_turn]: returns [(did_play, played_dominos, domino)].  The second
    component of the result is the state left behind: the player and the
    board list, both as mutated up to the return or the exception. *)
Definition take_turn (self : Player) (played_dominos : list Domino)
  : outcome (bool * list Domino * option Domino) * (Player * list Domino) :=
  let moves := get_legal_moves self played_dominos in
  if (length moves =? 0)%nat
  then (Return (false, played_dominos, None), (self, played_dominos))
  else
    let move := _action_chooser self played_dominos moves in
    let domino' := if flip move then reversed (domino move) else domino move in
    let played_dominos :=
      if insert_end move then played_dominos ++ [domino']
      else domino' :: played_dominos in
    match PyList.remove Domino_eqb (domino move) (_dominos self) with
    | None => (Raise ValueError, (self, played_dominos))
    | Some ds =>
        (Return (true, played_dominos, Some domino'),
         (set_dominos self ds, played_dominos))
    end.

(** [sum(map(sum, self._dominos))] *)
Definition get_points (self : Player) : Z :=
  fold_left Z.add (map (fun d => (fst d + snd d)%Z) (_dominos self)) 0%Z.

End PlayerM.

(** ** class Game *)

(** Identity of a [Player] object.  [Game.players] and [Game.winner] hold
    references; [self.players.index(self.winner)] compares identities
    ([Player] defines no [__eq__]). *)
Definition ref : Type := nat.

(** The [Player] objects, by identity. *)
Definition Store : Type := ref -> Player.

Definition upd (h : Store) (r : ref) (p : Player) : Store :=
  fun r' => if (r' =? r)%nat then p else h r'.

(** The attributes of a [Game] instance that the engine reads and writes
    ([round_score], [game_num], [round_num] and the display wrapper play no
    part in the rules).  [next_ref] is the identity the next [Player(...)]
    call gets. *)
Record Game : Type := mkGame {
  store : Store;
  next_ref : ref;
  num_players : nat;
  players : list ref;
  winner : ref;
  played_dominos : list Domino;
  round_history : list TurnDataPoint;
  first_game_round_step : bool;
  next_player_index : nat
}.

Definition with_store (h : Store) (g : Game) : Game :=
  mkGame h (next_ref g) (num_players g) (players g) (winner g)
         (played_dominos g) (round_history g) (first_game_round_step g)
         (next_player_index g).

Definition with_next_ref (r : ref) (g : Game) : Game :=
  mkGame (store g) r (num_players g) (players g) (winner g)
         (played_dominos g) (round_history g) (first_game_round_step g)
         (next_player_index g).

Definition with_players (ps : list ref) (g : Game) : Game :=
  mkGame (store g) (next_ref g) (num_players g) ps (winner g)
         (played_dominos g) (round_history g) (first_game_round_step g)
         (next_player_index g).

Definition with_winner (w : ref) (g : Game) : Game :=
  mkGame (store g) (next_ref g) (num_players g) (players g) w
         (played_dominos g) (round_history g) (first_game_round_step g)
         (next_player_index g).

Definition with_played_dominos (b : list Domino) (g : Game) : Game :=
  mkGame (store g) (next_ref g) (num_players g) (players g) (winner g)
         b (round_history g) (first_game_round_step g)
         (next_player_index g).

Definition with_round_history (h : list TurnDataPoint) (g : Game) : Game :=
  mkGame (store g) (next_ref g) (num_players g) (players g) (winner g)
         (played_dominos g) h (first_game_round_step g)
         (next_player_index g).

Definition with_first_game_round_step (b : bool) (g : Game) : Game :=
  mkGame (store g) (next_ref g) (num_players g) (players g) (winner g)
         (played_dominos g) (round_history g) b
         (next_player_index g).

Definition with_next_player_index (i : nat) (g : Game) : Game :=
  mkGame (store g) (next_ref g) (num_players g) (players g) (winner g)
         (played_dominos g) (round_history g) (first_game_round_step g)
         i.

(** A method of [Game]: reads and writes the instance, returns or raises.
    The state is kept on both exits. *)
Definition M (A : Type) : Type := Game -> outcome A * Game.

Definition ret {A : Type} (a : A) : M A := fun g => (Return a, g).

Definition raise {A : Type} (e : exn) : M A := fun g => (Raise e, g).

Definition bind {A B : Type} (m : M A) (k : A -> M B) : M B :=
  fun g =>
    match m g with
    | (Return a, g') => k a g'
    | (Raise e, g') => (Raise e, g')
    end.

Definition gets {A : Type} (f : Game -> A) : M A := fun g => (Return (f g), g).

Definition modify (f : Game -> Game) : M unit := fun g => (Return tt, f g).

Declare Scope game_scope.
Delimit Scope game_scope with game.
Notation "x <- c1 ;; c2" := (bind c1 (fun x => c2))
  (at level 100, c1 at next level, right associativity) : game_scope.
Notation "c1 ;; c2" := (bind c1 (fun _ => c2))
  (at level 100, right associativity) : game_scope.
Open Scope game_scope.

(** [for x in l: body(x)] *)
Fixpoint for_each {A : Type} (l : list A) (body : A -> M unit) : M unit :=
  match l with
  | [] => ret tt
  | x :: l' => body x ;; for_each l' body
  end.

(** [self.players[i]] *)
Definition players_at (i : nat) : M ref :=
  fun g =>
    match nth_error (players g) i with
    | Some p => (Return p, g)
    | None => (Raise IndexError, g)
    end.

(** Update of one [Player] object in place. *)
Definition update_player (p : ref) (f : Player -> Player) : M unit :=
  modify (fun g => with_store (upd (store g) p (f (store g p))) g).

Module GameM.

Definition DOMINOS : list Domino :=
  [(0, 0); (0, 1); (0, 2); (0, 3); (0, 4); (0, 5); (0, 6); (1, 1);
   (1, 2); (1, 3); (1, 4); (1, 5); (1, 6); (2, 2); (2, 3); (2, 4);
   (2, 5); (2, 6); (3, 3); (3, 4); (3, 5); (3, 6); (4, 4); (4, 5);
   (4, 6); (5, 5); (5, 6); (6, 6)]%Z.

(** [Game.__init__]: [num_players = 4]; the other attributes are set by
    [new_game] and [new_round]. *)
Definition init (h : Store) (fresh : ref) : Game :=
  mkGame h fresh 4 [] 0 [] [] false 0.

Definition _reset : M unit :=
  modify (with_played_dominos []) ;;
  modify (with_round_history []) ;;
  ps <- gets players ;;
  for_each ps (fun p => update_player p PlayerM.reset).

(** [Player(name, chooser)]: a new object. *)
Definition new_Player (name : string) (chooser : ActionChooser) : M ref :=
  fun g =>
    let r := next_ref g in
    (Return r,
     with_next_ref (S r) (with_store (upd (store g) r (PlayerM.init name chooser)) g)).

(** [f'P{i+1}'] *)
Definition default_name (i : nat) : string :=
  String "P" (NilEmpty.string_of_uint (Nat.to_uint (i + 1))).

(** [[Player(f'P{i+1}', ActionChooser_Random()) for i in range(n)]],
    from index [i] on. *)
Fixpoint default_players (random_chooser : ActionChooser) (i n : nat)
  : M (list ref) :=
  match n with
  | 0 => ret []
  | S n' =>
      p <- new_Player (default_name i) random_chooser ;;
      ps <- default_players random_chooser (S i) n' ;;
      ret (p :: ps)
  end.

(** [new_game(_players, shuffle_players)].  The two sources of
    randomness are arguments: the choice function of
    [ActionChooser_Random] and the permutation applied by
    [random.shuffle]. *)
Definition new_game (random_chooser : ActionChooser)
           (shuffle : list ref -> list ref)
           (_players : option (list ref)) (shuffle_players : bool) : M unit :=
  _players <- match _players with
              | None =>
                  n <- gets num_players ;;
                  default_players random_chooser 0 n
              | Some l => ret l
              end ;;
  let _players := if shuffle_players then shuffle _players else _players in
  modify (with_players _players) ;;
  _reset ;;
  p0 <- players_at 0 ;;
  modify (with_winner p0) ;;
  modify (with_first_game_round_step true).

(** [for i in range(len(self.players)):
       self.players[i].give_dominos(pool[i::4])] *)
Definition deal (pool : list Domino) : M unit :=
  n <- gets (fun g => length (players g)) ;;
  for_each (seq 0 n)
    (fun i =>
       p <- players_at i ;;
       update_player p (fun pl => PlayerM.give_dominos pl (PyList.slice i 4 pool))).

(** [for p in self.players: if p.has_double_six(): self.winner = p; break] *)
Fixpoint find_double_six (ps : list ref) : M unit :=
  match ps with
  | [] => ret tt
  | p :: ps' =>
      six <- gets (fun g => PlayerM.has_double_six (store g p)) ;;
      if six then modify (with_winner p) else find_double_six ps'
  end.

(** [self.players.index(self.winner)] *)
Definition winner_index : M nat :=
  fun g =>
    match PyList.index Nat.eqb (winner g) (players g) with
    | Some i => (Return i, g)
    | None => (Raise ValueError, g)
    end.

(** [new_round]; [shuffle] is the permutation applied by
    [random.shuffle(pool)]. *)
Definition new_round (shuffle : list Domino -> list Domino) : M unit :=
  _reset ;;
  let pool := shuffle DOMINOS in
  deal pool ;;
  first <- gets first_game_round_step ;;
  (if first then ps <- gets players ;; find_double_six ps else ret tt) ;;
  i <- winner_index ;;
  modify (with_next_player_index i).

Definition get_player_by_name (name : string) : M ref :=
  fun g =>
    match filter (fun p => String.eqb (_name (store g p)) name) (players g) with
    | p :: _ => (Return p, g)
    | [] => (Raise IndexError, g)
    end.

Definition get_next_player_index : M nat :=
  fun g =>
    match length (players g) with
    | 0 => (Raise ZeroDivisionError, g)
    | n => (Return ((next_player_index g + 1) mod n), g)
    end.

(** [give_points_to_team(player, points)].  The index is taken of
    [self.winner]; the argument [player] is not read. *)
Definition give_points_to_team (player : ref) (points : Z) : M unit :=
  player_index <- winner_index ;;
  ps <- gets players ;;
  let team :=
    if (player_index =? 0)%nat || (player_index =? 2)%nat
    then PyList.slice 0 2 ps
    else PyList.slice 1 2 ps in
  for_each team (fun p => update_player p (fun pl => add_score pl points)).

Definition update_score : M unit :=
  total_points <- gets (fun g =>
    fold_left Z.add (map (fun p => PlayerM.get_points (store g p)) (players g)) 0%Z) ;;
  w <- gets winner ;;
  give_points_to_team w total_points.

Definition is_locked : M bool :=
  played <- gets played_dominos ;;
  match played with
  | [] => raise IndexError
  | first :: _ =>
      let head := fst first in
      let tail := snd (last played first) in
      if negb (head =? tail)%Z then ret false
      else
        let count :=
          fold_left
            (fun count d =>
               let count := if (fst d =? head)%Z then count + 1 else count in
               let count := if (snd d =? head)%Z then count + 1 else count in
               count)
            played 0 in
        if (count =? 8)%nat then ret true else ret false
  end.

(** [self.played_dominos.remove(x)]: shortens the board in place and
    evaluates to [None], here the [None] of [option (list Domino)].  A
    [None] argument (the [domino_played] of a pass) equals no tile. *)
Definition played_dominos_remove (x : option Domino)
  : M (option (list Domino)) :=
  fun g =>
    match x with
    | None => (Raise ValueError, g)
    | Some d =>
        match PyList.remove Domino_eqb d (played_dominos g) with
        | None => (Raise ValueError, g)
        | Some b => (Return None, with_played_dominos b g)
        end
    end.

(** [v[0][0]] and [v[-1][1]] of a value that is [None] or a list. *)
Definition first_left (v : option (list Domino)) : M Z :=
  match v with
  | None => raise TypeError
  | Some [] => raise IndexError
  | Some (d :: _) => ret (fst d)
  end.

Definition last_right (v : option (list Domino)) : M Z :=
  match v with
  | None => raise TypeError
  | Some [] => raise IndexError
  | Some (d :: l) => ret (snd (last l d))
  end.

(** [d[0]], [d[1]] of a value that is [None] or a tile. *)
Definition component (i : bool) (d : option Domino) : M Z :=
  match d with
  | None => raise TypeError
  | Some t => ret (if i then snd t else fst t)
  end.

(** [check_for_bonus_points]: every early [return] is the [then] branch of
    a test whose [else] branch holds the lines that follow it.  The head
    of [rev history] is [self.round_history[-1]]; the two [IndexError]
    branches stand for subscripts the length tests have already made
    safe. *)
Definition check_for_bonus_points : M unit :=
  let bonus_points := 25%Z in
  history <- gets round_history ;;
  if (length history <? 2)%nat then ret tt
  else
    match rev history with
    | [] => raise IndexError
    | last_move :: _ =>
        if did_play last_move then ret tt
        else
          last_player <- get_player_by_name (player_name last_move) ;;
          if (length history =? 2)%nat
          then give_points_to_team last_player bonus_points
          else if (length history <? 4)%nat then ret tt
          else
            match PyList.last_n 4 history with
            | [t0; t1; t2; t3] =>
                if did_play t0 && negb (did_play t1) && negb (did_play t2)
                   && negb (did_play t3)
                then
                  player <- get_player_by_name (player_name t0) ;;
                  give_points_to_team player bonus_points
                else
                  empty <- gets (fun g => PlayerM.is_hand_empty (store g last_player)) ;;
                  if negb empty then ret tt
                  else
                    let last_domino := domino_played last_move in
                    dominos_played_wout_last <- played_dominos_remove last_domino ;;
                    head <- first_left dominos_played_wout_last ;;
                    tail <- last_right dominos_played_wout_last ;;
                    l0 <- component false last_domino ;;
                    l1 <- component true last_domino ;;
                    if ((l0 =? head)%Z && (l1 =? tail)%Z)
                       || ((l1 =? head)%Z && (l0 =? tail)%Z)
                    then give_points_to_team last_player bonus_points
                    else ret tt
            | _ => raise IndexError
            end
    end.

(** The call of a [Player] method on the object [p] with the board list:
    the object and the list are written back on both exits. *)
Definition call_on_player {A : Type} (p : ref)
           (method : Player -> list Domino -> outcome A * (Player * list Domino))
  : M A :=
  fun g =>
    let '(o, (pl, board)) := method (store g p) (played_dominos g) in
    (o, with_played_dominos board (with_store (upd (store g) p pl) g)).

Definition step : M bool :=
  i <- gets next_player_index ;;
  next_player <- players_at i ;;
  first <- gets first_game_round_step ;;
  turn <- (if first
           then
             _ <- call_on_player next_player PlayerM.play_double_six ;;
             modify (with_first_game_round_step false) ;;
             ret (true, Some (6, 6)%Z)
           else
             r <- call_on_player next_player PlayerM.take_turn ;;
             ret (fst (fst r), snd r)) ;;
  let did_play := fst turn in
  let domino_played := snd turn in
  name <- gets (fun g => _name (store g next_player)) ;;
  modify (fun g => with_round_history
                     (round_history g ++ [mkTurnDataPoint name did_play domino_played]) g) ;;
  check_for_bonus_points ;;
  empty <- gets (fun g => PlayerM.is_hand_empty (store g next_player)) ;;
  if empty then modify (with_winner next_player) ;; ret false
  else
    locked <- is_locked ;;
    if locked
    then
      let p_current := next_player in
      j <- get_next_player_index ;;
      p_next <- players_at j ;;
      cur_points <- gets (fun g => PlayerM.get_points (store g p_current)) ;;
      next_points <- gets (fun g => PlayerM.get_points (store g p_next)) ;;
      modify (with_winner (if (cur_points <? next_points)%Z then p_current else p_next)) ;;
      ret false
    else
      j <- get_next_player_index ;;
      modify (with_next_player_index j) ;;
      ret true.

End GameM.

(** ** The action choosers *)

Module Chooser.

(** [l[i]] with Python's negative subscripts. *)
Definition subscript {A : Type} (l : list A) (i : Z) : outcome A :=
  let n := Z.of_nat (length l) in
  let j := if (i <? 0)%Z then (n + i)%Z else i in
  if (j <? 0)%Z || (n <=? j)%Z then Raise IndexError
  else match nth_error l (Z.to_nat j) with
       | Some x => Return x
       | None => Raise IndexError
       end.

(** [ActionChooser_Random.choose_action]: [shuffle] is the permutation
    applied by [random.shuffle(moves)]; [moves[0]] of an empty list
    raises. *)
Definition random_choose_action (shuffle : list Action -> list Action)
           (played_dominos : list Domino) (legal_moves : list Action)
  : outcome Action :=
  let moves := shuffle legal_moves in
  subscript moves 0.

(** [ActionChooser_Player.choose_action]: [index] is the integer read by
    [int(input(...))]; the answer is [data.legal_moves[index - 1]]. *)
Definition player_choose_action (index : Z)
           (played_dominos : list Domino) (legal_moves : list Action)
  : outcome Action :=
  subscript legal_moves (index - 1).

(** The chooser a [Player] holds, for a [choose_action] that returns on
    every non-empty offer ([take_turn] asks on no other). *)
Definition as_chooser
           (choose_action : list Domino -> list Action -> outcome Action)
  : ActionChooser :=
  fun played_dominos legal_moves =>
    match choose_action played_dominos legal_moves with
    | Return move => move
    | Raise _ => hd (mkAction true (0, 0)%Z false) legal_moves
    end.

End Chooser.

(** ** The round loop *)

Module Loop.

(** [while self.step(): display_game(...)], cut after [fuel] steps; the
    result tells whether the loop has ended.  [display_game] is handed a
    copy of the state made by [to_game_data]; it prints (or does nothing)
    and writes nothing of the game, so it is left out.  (The terminal
    display reads [players[0]] to [players[3]], which a table of four
    has.) *)
Fixpoint while_step (fuel : nat) : M bool :=
  match fuel with
  | 0 => ret false
  | S fuel' =>
      continue <- GameM.step ;;
      if continue then while_step fuel' else ret true
  end.

(** [play_round]; the result tells whether the round was played to its
    end within [fuel] steps (and then settled). *)
Definition play_round (shuffle : list Domino -> list Domino) (fuel : nat) : M bool :=
  GameM.new_round shuffle ;;
  ended <- while_step fuel ;;
  if ended then GameM.update_score ;; ret true else ret false.

(** [while self.winner.score < self.round_score: self.play_round()].
    [round_score] is the attribute [__init__] sets and nothing writes
    again; each round draws the next of [shuffles]; the result tells
    whether the loop has ended before the shuffles, or the steps of a
    round, ran out. *)
Fixpoint while_below (round_score : Z)
         (shuffles : list (list Domino -> list Domino)) (fuel : nat)
  : M bool :=
  w <- gets winner ;;
  s <- gets (fun g => score (store g w)) ;;
  if (s <? round_score)%Z
  then
    match shuffles with
    | [] => ret false
    | shuffle :: rest =>
        ended <- play_round shuffle fuel ;;
        if ended then while_below round_score rest fuel else ret false
    end
  else ret true.

(** [play_game]. *)
Definition play_game (random_chooser : ActionChooser)
           (shuffle_seats : list ref -> list ref)
           (round_score : Z)
           (shuffles : list (list Domino -> list Domino)) (fuel : nat)
           (_players : option (list ref)) (shuffle_players : bool) : M bool :=
  GameM.new_game random_chooser shuffle_seats _players shuffle_players ;;
  while_below round_score shuffles fuel.

End Loop.

(** * Vocabulary of the properties *)

(** ** Moves, seats and teams *)

(** The Actions one tile contributes on a board with ends [head] and
    [tail], in the order of the four tests. *)
Definition tile_moves (head tail : Z) (d : Domino) : list Action :=
  (if (fst d =? tail)%Z then [mkAction true d false] else [])
  ++ (if (snd d =? tail)%Z then [mkAction true d true] else [])
  ++ (if (fst d =? head)%Z then [mkAction false d true] else [])
  ++ (if (snd d =? head)%Z then [mkAction false d false] else []).

(** Number of the four tests a tile passes. *)
Definition matches (head tail : Z) (d : Domino) : nat :=
  Nat.b2n (fst d =? tail)%Z + Nat.b2n (snd d =? tail)%Z
  + Nat.b2n (fst d =? head)%Z + Nat.b2n (snd d =? head)%Z.

(** How often the value [v] shows on the left and right sides of the
    placed tiles. *)
Definition occurrences (v : Z) (played : list Domino) : nat :=
  count_occ Z.eq_dec (flat_map (fun d => [fst d; snd d]) played) v.

(** The table the rules are written for: four seats held by four distinct
    [Player] objects. *)
Definition four_seats (g : Game) : Prop :=
  length (players g) = 4 /\ NoDup (players g).

(** Score of the player at seat [s]. *)
Definition score_at (g : Game) (s : nat) : Z :=
  match nth_error (players g) s with
  | Some p => score (store g p)
  | None => 0%Z
  end.

(** The hand held at seat [s]. *)
Definition hand_at (g : Game) (s : nat) : list Domino :=
  match nth_error (players g) s with
  | Some p => _dominos (store g p)
  | None => []
  end.

(** Seats 0 and 2 hold equal scores, and so do seats 1 and 3. *)
Definition teams_equal (g : Game) : Prop :=
  score_at g 0 = score_at g 2 /\ score_at g 1 = score_at g 3.

(** ** Relations between the state found and the state left *)

(** Whatever the exit of [m], the state left behind is related by [R] to
    the one found. *)
Definition preserves (R : Game -> Game -> Prop) {A : Type} (m : M A) : Prop :=
  forall g, R g (snd (m g)).

(** [g'] is [g] up to the scores of the seated players. *)
Definition only_scores_differ (g g' : Game) : Prop :=
  players g' = players g
  /\ winner g' = winner g
  /\ played_dominos g' = played_dominos g
  /\ round_history g' = round_history g
  /\ first_game_round_step g' = first_game_round_step g
  /\ next_player_index g' = next_player_index g
  /\ (forall r, _name (store g' r) = _name (store g r)
                /\ _dominos (store g' r) = _dominos (store g r))
  /\ (forall r, ~ In r (players g) -> score (store g' r) = score (store g r)).

(** [g'] has the players, names, hands, winner, turn index, history and
    first-round flag of [g]; the board and the scores may differ. *)
Definition same_hands (g g' : Game) : Prop :=
  players g' = players g
  /\ winner g' = winner g
  /\ round_history g' = round_history g
  /\ first_game_round_step g' = first_game_round_step g
  /\ next_player_index g' = next_player_index g
  /\ forall r, _name (store g' r) = _name (store g r)
               /\ _dominos (store g' r) = _dominos (store g r).

(** [g'] has the players, the [Player] objects and the board of [g]. *)
Definition same_table (g g' : Game) : Prop :=
  players g' = players g
  /\ store g' = store g
  /\ played_dominos g' = played_dominos g
  /\ round_history g' = round_history g.

(** [g'] has the seats of [g] and every object has kept its score. *)
Definition scores_kept (g g' : Game) : Prop :=
  players g' = players g
  /\ forall r, score (store g' r) = score (store g r).

(** At a table of four, [g'] has the seats of [g], the even seats have all
    gained one amount and the odd seats have all gained one amount. *)
Definition team_awards (g g' : Game) : Prop :=
  four_seats g ->
  players g' = players g
  /\ exists n0 n1,
       forall s, s < 4 ->
         score_at g' s = (score_at g s + (if Nat.even s then n0 else n1))%Z.

(** ** The parts of [step] and [new_round] *)

(** Lines 172-179 of [step]: the turn itself. *)
Definition take_the_turn (next_player : ref) : M (bool * option Domino) :=
  first <- gets first_game_round_step ;;
  if first
  then
    _ <- GameM.call_on_player next_player PlayerM.play_double_six ;;
    modify (with_first_game_round_step false) ;;
    ret (true, Some (6, 6)%Z)
  else
    r <- GameM.call_on_player next_player PlayerM.take_turn ;;
    ret (fst (fst r), snd r).

(** Line 180: the turn goes into the history. *)
Definition record_turn (next_player : ref) (turn : bool * option Domino) : M unit :=
  name <- gets (fun g => _name (store g next_player)) ;;
  modify (fun g => with_round_history
                     (round_history g ++ [mkTurnDataPoint name (fst turn) (snd turn)]) g).

(** Lines 184-194: how the turn ends. *)
Definition end_of_turn (next_player : ref) : M bool :=
  empty <- gets (fun g => PlayerM.is_hand_empty (store g next_player)) ;;
  if empty then modify (with_winner next_player) ;; ret false
  else
    locked <- GameM.is_locked ;;
    if locked
    then
      j <- GameM.get_next_player_index ;;
      p_next <- players_at j ;;
      cur_points <- gets (fun g => PlayerM.get_points (store g next_player)) ;;
      next_points <- gets (fun g => PlayerM.get_points (store g p_next)) ;;
      modify (with_winner (if (cur_points <? next_points)%Z then next_player else p_next)) ;;
      ret false
    else
      j <- GameM.get_next_player_index ;;
      modify (with_next_player_index j) ;;
      ret true.

(** The state in which the bonus check runs: the turn of [p] is recorded. *)
Definition turn_recorded (p : ref) (turn : bool * option Domino) (g1 : Game) : Game :=
  with_round_history
    (round_history g1 ++ [mkTurnDataPoint (_name (store g1 p)) (fst turn) (snd turn)]) g1.

(** The three ways through a step. *)
Inductive step_path (g : Game) (p : ref) : Prop :=
| turn_raises (e : exn) (g1 : Game) :
    take_the_turn p g = (Raise e, g1) ->
    GameM.step g = (Raise e, g1) ->
    step_path g p
| check_raises (turn : bool * option Domino) (g1 : Game) (e : exn) (g3 : Game) :
    take_the_turn p g = (Return turn, g1) ->
    GameM.check_for_bonus_points (turn_recorded p turn g1) = (Raise e, g3) ->
    GameM.step g = (Raise e, g3) ->
    step_path g p
| turn_ends (turn : bool * option Domino) (g1 g3 : Game) :
    take_the_turn p g = (Return turn, g1) ->
    GameM.check_for_bonus_points (turn_recorded p turn g1) = (Return tt, g3) ->
    GameM.step g = end_of_turn p g3 ->
    step_path g p.

(** Lines 161-166 of [new_round]: who moves first. *)
Definition first_mover : M unit :=
  first <- gets first_game_round_step ;;
  (if first then ps <- gets players ;; GameM.find_double_six ps else ret tt) ;;
  i <- GameM.winner_index ;;
  modify (with_next_player_index i).

(** A store in which no object has been made yet. *)
Definition nobody : Store :=
  fun _ => PlayerM.init "" (fun _ moves => hd (mkAction true (0, 0)%Z false) moves).

(** [is_locked] reads the board and nothing else. *)
Definition locked_outcome (played : list Domino) : outcome bool :=
  fst (GameM.is_locked (with_played_dominos played (GameM.init nobody 0))).

(** ** Checkers *)

(** A checker for "no tile twice". *)
Fixpoint no_repeat (l : list Domino) : bool :=
  match l with
  | [] => true
  | d :: l' => negb (existsb (Domino_eqb d) l') && no_repeat l'
  end.

(** ** Players, tables and rounds to evaluate on *)

Module Fixture.

(** A chooser that takes the first offered move. *)
Definition first_move : ActionChooser :=
  fun _ moves => hd (mkAction true (0, 0)%Z false) moves.

(** A chooser that answers [a] whatever is offered. *)
Definition always (a : Action) : ActionChooser := fun _ _ => a.

Definition played (name : string) (d : Domino) : TurnDataPoint :=
  mkTurnDataPoint name true (Some d).

Definition passed (name : string) : TurnDataPoint :=
  mkTurnDataPoint name false None.

Definition scores_of (g : Game) : list Z :=
  map (fun p => score (store g p)) (players g).

Definition hands_of (g : Game) : list (list Domino) :=
  map (fun p => _dominos (store g p)) (players g).

End Fixture.

Module Rounds.

(** [Game()], [new_game()] with the default players, [new_round()] with
    the pool shuffled into [pool].  Every random choice of a player falls
    on the first legal move. *)
Definition dealt (pool : list Domino) : M unit :=
  GameM.new_game Fixture.first_move (fun l => l) None false ;;
  GameM.new_round (fun _ => pool).

(** The loop of [play_round], cut after [n] steps. *)
Fixpoint steps (n : nat) : M bool :=
  match n with
  | 0 => ret true
  | S n' => continue <- GameM.step ;; if continue then steps n' else ret false
  end.

Definition after (pool : list Domino) (n : nat) : Game :=
  snd ((dealt pool ;; steps n) (GameM.init nobody 0)).

(** A shuffle after which P3 opens with (6,6), P4 holds no six, and the
    22nd turn locks the board on fives with P4 and P1 both holding 10
    pips. *)
Definition locking_pool : list Domino :=
  [(0, 6); (5, 6); (3, 6); (0, 2); (0, 5); (2, 5); (1, 1); (3, 5);
   (4, 5); (0, 4); (6, 6); (4, 4); (3, 3); (2, 2); (1, 6); (1, 3);
   (2, 3); (2, 6); (0, 1); (1, 2); (1, 5); (0, 0); (0, 3); (2, 4);
   (1, 4); (3, 4); (4, 6); (5, 5)]%Z.

(** A shuffle after which P1 opens with (6,6) and P4 goes out on the
    28th turn with (3,2), the board then showing 2 at the head and 3 at
    the tail. *)
Definition closing_pool : list Domino :=
  [(6, 6); (5, 6); (0, 4); (3, 5); (1, 5); (3, 3); (0, 5); (1, 4);
   (1, 1); (2, 5); (3, 6); (2, 4); (4, 5); (1, 6); (2, 6); (0, 6);
   (4, 6); (5, 5); (2, 2); (0, 2); (4, 4); (3, 4); (0, 0); (1, 3);
   (0, 1); (0, 3); (1, 2); (2, 3)]%Z.

(** A checker for "is a shuffle of". *)
Fixpoint shuffle_of (l pool : list Domino) : bool :=
  match l with
  | [] => match pool with [] => true | _ => false end
  | d :: l' =>
      match PyList.remove Domino_eqb d pool with
      | Some pool' => shuffle_of l' pool'
      | None => false
      end
  end.

End Rounds.

(** P1 holds (3,5) and (1,2), the board is [(3,4)]; the only legal move
    prepends (3,5) flipped, and the chooser answers "append (1,2)". *)
Definition stray_player : Player :=
  mkPlayer "P1" [(3, 5); (1, 2)]%Z
           (Fixture.always (mkAction true (1, 2)%Z false)) 0.

(** The round of [Rounds.locking_pool] after the opening (6,6) of P3, and
    the same with P4's pass recorded, as the check finds it. *)
Definition opening_played : Game := Rounds.after Rounds.locking_pool 1.

Definition opening_then_pass : Game :=
  with_round_history
    [Fixture.played "P3" (6, 6)%Z; Fixture.passed "P4"] opening_played.

(** The round of [Rounds.closing_pool] before its 28th turn: P4 is to move
    and holds (2,3) alone; the board shows 2 at the head and 3 at the
    tail. *)
Definition before_closing : Game := Rounds.after Rounds.closing_pool 27.

(** The round of [Rounds.locking_pool] before its 22nd turn: P4 is to
    move and will append (5,5). *)
Definition before_locking : Game := Rounds.after Rounds.locking_pool 21.

(** The board of [Rounds.locking_pool] after the 22nd turn, less its
    first tile (5,0). *)
Definition locked_rest : list Domino :=
  [(0, 2); (2, 5); (5, 4); (4, 4); (4, 3); (3, 3); (3, 5); (5, 6); (6, 6);
   (6, 0); (0, 1); (1, 1); (1, 6); (6, 2); (2, 1); (1, 5); (5, 5)]%Z.

(** The round of [Rounds.locking_pool] played out and settled: P1 and P3
    hold 75 points. *)
Definition round_settled : Game :=
  snd (GameM.update_score (Rounds.after Rounds.locking_pool 22)).

(** ** Tiles on the board and in the hands *)

(** The tile an Action puts on the board. *)
Definition place (a : Action) : Domino :=
  if flip a then reversed (domino a) else domino a.

(** The board an Action leaves. *)
Definition attach (a : Action) (played : list Domino) : list Domino :=
  if insert_end a then played ++ [place a] else place a :: played.

(** Every tile's right value is the left value of the tile after it. *)
Fixpoint chain (played : list Domino) : Prop :=
  match played with
  | [] => True
  | d :: rest =>
      match rest with
      | [] => True
      | e :: _ => snd d = fst e /\ chain rest
      end
  end.

(** A tile with its smaller value first. *)
Definition canon (d : Domino) : Domino :=
  if (fst d <=? snd d)%Z then d else reversed d.

(** The pips on a list of tiles. *)
Definition pips (tiles : list Domino) : Z :=
  fold_right Z.add 0%Z (map (fun d => (fst d + snd d)%Z) tiles).

(** A chooser that answers with one of the moves it is offered. *)
Definition answers_from_offer (c : ActionChooser) : Prop :=
  forall played moves, moves <> [] -> In (c played moves) moves.

(** P1 holds (3,5) and (1,2) and takes the first offered move. *)
Definition fair_player : Player :=
  mkPlayer "P1" [(3, 5); (1, 2)]%Z Fixture.first_move 0.

(** [g'] is [g] up to the winner and the turn index. *)
Definition only_turn_order_differs (g g' : Game) : Prop :=
  players g' = players g
  /\ store g' = store g
  /\ played_dominos g' = played_dominos g
  /\ round_history g' = round_history g
  /\ first_game_round_step g' = first_game_round_step g.

(** The last four turns are a play followed by three passes. *)
Definition play_then_three_passes (history : list TurnDataPoint) : Prop :=
  exists before t0 t1 t2 t3,
    history = before ++ [t0; t1; t2; t3]
    /\ did_play t0 = true /\ did_play t1 = false
    /\ did_play t2 = false /\ did_play t3 = false.

(** The table of [opening_played] with three passes recorded after the
    opening tile of P3. *)
Definition three_passes_recorded : Game :=
  with_round_history
    [Fixture.played "P3" (6, 6)%Z; Fixture.passed "P4";
     Fixture.passed "P1"; Fixture.passed "P2"] opening_played.

(** [g'] is [g] up to the hands: the seats, the winner, the board, the
    history, the flag and the turn index are the same, and every object
    has kept its name, its chooser and its score. *)
Definition only_hands_differ (g g' : Game) : Prop :=
  players g' = players g
  /\ winner g' = winner g
  /\ played_dominos g' = played_dominos g
  /\ round_history g' = round_history g
  /\ first_game_round_step g' = first_game_round_step g
  /\ next_player_index g' = next_player_index g
  /\ forall r, _name (store g' r) = _name (store g r)
               /\ _action_chooser (store g' r) = _action_chooser (store g r)
               /\ score (store g' r) = score (store g r).

(** ** The state of a round in play *)

(** The tiles on the board and in the four hands. *)
Definition tiles_in_play (g : Game) : list Domino :=
  played_dominos g
  ++ hand_at g 0 ++ hand_at g 1 ++ hand_at g 2 ++ hand_at g 3.

(** Board and hands together hold the double-six set, each tile once, in
    whatever orientation. *)
Definition full_set (g : Game) : Prop :=
  Permutation (map canon (tiles_in_play g)) GameM.DOMINOS.

(** The moves offered to the holder of [hand]. *)
Definition moves_of (hand played : list Domino) : list Action :=
  PlayerM.get_legal_moves (mkPlayer "" hand (fun _ moves => hd (mkAction true (0, 0)%Z false) moves) 0)
                          played.

(** Seat [s] has a move. *)
Definition can_move (g : Game) (s : nat) : bool :=
  negb (length (moves_of (hand_at g (s mod 4)) (played_dominos g)) =? 0)%nat.

(** No seat has a move. *)
Definition blocked (g : Game) : Prop :=
  forall s, s < 4 -> can_move g s = false.

(** Every seated player's chooser answers from the offer. *)
Definition fair_choosers (g : Game) : Prop :=
  forall p, In p (players g) -> answers_from_offer (_action_chooser (store g p)).

(** The seated players bear distinct names, and every recorded turn bears
    the name of one of them. *)
Definition names_known (g : Game) : Prop :=
  NoDup (map (fun p => _name (store g p)) (players g))
  /\ forall t, In t (round_history g) ->
               exists p, In p (players g) /\ _name (store g p) = player_name t.

(** The table of a round: four distinct players with distinct names and
    fair choosers, a seated winner, a seat to move, a chain on the board,
    and the double-six set shared between board and hands. *)
Definition table_in_order (g : Game) : Prop :=
  four_seats g
  /\ next_player_index g < 4
  /\ In (winner g) (players g)
  /\ names_known g
  /\ fair_choosers g
  /\ chain (played_dominos g)
  /\ full_set g.

(** A round in play: the table is in order, no hand is empty, and the
    board is empty or not locked - in the first round of a game, the board
    is empty and the double six is with the player to move. *)
Definition in_play (g : Game) : Prop :=
  table_in_order g
  /\ (forall s, s < 4 -> hand_at g s <> [])
  /\ (if first_game_round_step g
      then played_dominos g = []
           /\ In (6, 6)%Z (hand_at g (next_player_index g))
      else played_dominos g = []
           \/ locked_outcome (played_dominos g) = Return false).

(** A round that is over: the table is in order, the hands of those who
    did not move last are not empty, and either the player who moved last
    has emptied the hand and is the winner, or that hand is not empty and
    nobody can move. *)
Definition round_over (g : Game) : Prop :=
  table_in_order g
  /\ first_game_round_step g = false
  /\ played_dominos g <> []
  /\ (forall s, s < 4 -> s <> next_player_index g -> hand_at g s <> [])
  /\ ((hand_at g (next_player_index g) = []
       /\ nth_error (players g) (next_player_index g) = Some (winner g))
      \/ (hand_at g (next_player_index g) <> [] /\ blocked g)).

(** What the turn of [p] and the bonus check after it have made of [g]:
    the turn is recorded, the first-round flag is clear, names and
    choosers are kept and no score has gone down; on a pass nothing was
    offered and hand and board are as before, on a play one offered move
    has taken its tile from the hand of [p] to the board. *)
Definition after_turn (p : ref) (turn : bool * option Domino) (g g3 : Game) : Prop :=
  players g3 = players g
  /\ winner g3 = winner g
  /\ next_player_index g3 = next_player_index g
  /\ first_game_round_step g3 = false
  /\ round_history g3
     = round_history g
       ++ [mkTurnDataPoint (_name (store g p)) (fst turn) (snd turn)]
  /\ (forall r, _name (store g3 r) = _name (store g r)
                /\ _action_chooser (store g3 r) = _action_chooser (store g r)
                /\ (score (store g r) <= score (store g3 r))%Z)
  /\ (forall r, r <> p -> _dominos (store g3 r) = _dominos (store g r))
  /\ ((turn = (false, None)
       /\ moves_of (_dominos (store g p)) (played_dominos g) = []
       /\ _dominos (store g3 p) = _dominos (store g p)
       /\ played_dominos g3 = played_dominos g)
      \/ (exists a,
            turn = (true, Some (place a))
            /\ In a (moves_of (_dominos (store g p)) (played_dominos g))
            /\ Permutation (_dominos (store g p))
                           (domino a :: _dominos (store g3 p))
            /\ played_dominos g3 = attach a (played_dominos g))).

(** The number of tiles still in the hands. *)
Definition tiles_in_hands (g : Game) : nat :=
  length (hand_at g 0) + length (hand_at g 1)
  + length (hand_at g 2) + length (hand_at g 3).

(** The number of seats, from the one to move, that must pass before a
    seat that has a move is reached (4 if there is none). *)
Definition passes_ahead (g : Game) : nat :=
  let i := next_player_index g in
  if can_move g i then 0
  else if can_move g (i + 1) then 1
  else if can_move g (i + 2) then 2
  else if can_move g (i + 3) then 3
  else 4.

(** A bound on the number of steps the round can still take. *)
Definition steps_left (g : Game) : nat :=
  4 * tiles_in_hands g + passes_ahead g.

(** The table of [Rounds.locking_pool] when the 22nd turn has locked the
    board. *)
Definition locked_table : Game := snd (GameM.step before_locking).

(** A checker for [chain]. *)
Fixpoint chain_check (played : list Domino) : bool :=
  match played with
  | [] => true
  | d :: rest =>
      match rest with
      | [] => true
      | e :: _ => (snd d =? fst e)%Z && chain_check rest
      end
  end.

(** Every object has the chooser it had. *)
Definition same_choosers (g g' : Game) : Prop :=
  forall r, _action_chooser (store g' r) = _action_chooser (store g r).

(** No object's score has gone down. *)
Definition scores_grow (g g' : Game) : Prop :=
  forall r, (score (store g r) <= score (store g' r))%Z.

(** A table at which a round can begin: four distinct players with
    distinct names and fair choosers and, after the first round of a game,
    a seated winner. *)
Definition ready_for_round (g : Game) : Prop :=
  four_seats g
  /\ NoDup (map (fun p => _name (store g p)) (players g))
  /\ fair_choosers g
  /\ (first_game_round_step g = false -> In (winner g) (players g)).

(** The table [Game().new_game()] sets, every player taking the first
    offered move. *)
Definition fresh_table : Game :=
  snd (GameM.new_game Fixture.first_move (fun l => l) None false
         (GameM.init nobody 0)).

(** The points the four seats are short of [round_score], taken
    together. *)
Definition points_short (round_score : Z) (g : Game) : Z :=
  (Z.max 0 (round_score - score_at g 0) + Z.max 0 (round_score - score_at g 1)
   + Z.max 0 (round_score - score_at g 2)
   + Z.max 0 (round_score - score_at g 3))%Z.

(** Names and choosers are kept and no score has gone down. *)
Definition same_people (g g' : Game) : Prop :=
  players g' = players g
  /\ forall r, _name (store g' r) = _name (store g r)
               /\ _action_chooser (store g' r) = _action_chooser (store g r)
               /\ (score (store g r) <= score (store g' r))%Z.

(** * Properties *)

(** ** Facts about the list primitives *)

Lemma Domino_eqb_eq (d e : Domino) : Domino_eqb d e = true <-> d = e.
Proof.
  destruct d as [a b], e as [c f]; unfold Domino_eqb; simpl.
  rewrite andb_true_iff, !Z.eqb_eq.
  split; [intros [-> ->]; reflexivity | intros H; inversion H; auto].
Qed.

Section RemoveFacts.
Variable A : Type.
Variable eqb : A -> A -> bool.
Hypothesis eqb_eq : forall x y, eqb x y = true <-> x = y.

Lemma remove_Some_perm (x : A) (l r : list A) :
  PyList.remove eqb x l = Some r -> Permutation l (x :: r).
Proof.
  revert r; induction l as [|y l IH]; simpl; intros r H; [discriminate|].
  destruct (eqb y x) eqn:E.
  - apply eqb_eq in E; inversion H; subst; reflexivity.
  - destruct (PyList.remove eqb x l) as [r'|]; inversion H; subst.
    rewrite (IH r' eq_refl); apply perm_swap.
Qed.

Lemma remove_In (x : A) (l : list A) :
  In x l -> exists r, PyList.remove eqb x l = Some r.
Proof.
  induction l as [|y l IH]; simpl; [tauto|]; intros [-> | H].
  - exists l; rewrite (proj2 (eqb_eq x x) eq_refl); reflexivity.
  - destruct (eqb y x); [eauto|].
    destruct (IH H) as [r ->]; eauto.
Qed.

Lemma remove_None (x : A) (l : list A) :
  PyList.remove eqb x l = None <-> ~ In x l.
Proof.
  split.
  - intros H Hin; destruct (remove_In x l Hin) as [r Hr]; congruence.
  - intros Hn; destruct (PyList.remove eqb x l) as [r|] eqn:E; [|reflexivity].
    exfalso; apply Hn.
    apply Permutation_in with (l := x :: r);
      [symmetry; apply remove_Some_perm; exact E | left; reflexivity].
Qed.
End RemoveFacts.

(** ** Legal moves *)

Lemma legal_moves_loop (head tail : Z) (hand : list Domino) (acc : list Action) :
  fold_left
    (fun actions d =>
       let actions :=
         if (fst d =? tail)%Z then actions ++ [mkAction true d false]
         else actions in
       let actions :=
         if (snd d =? tail)%Z then actions ++ [mkAction true d true]
         else actions in
       let actions :=
         if (fst d =? head)%Z then actions ++ [mkAction false d true]
         else actions in
       let actions :=
         if (snd d =? head)%Z then actions ++ [mkAction false d false]
         else actions in
       actions)
    hand acc
  = acc ++ flat_map (tile_moves head tail) hand.
Proof.
  revert acc; induction hand as [|d hand IH]; intros acc; simpl.
  - now rewrite app_nil_r.
  - rewrite IH; unfold tile_moves.
    destruct (fst d =? tail)%Z, (snd d =? tail)%Z,
             (fst d =? head)%Z, (snd d =? head)%Z;
      simpl; rewrite <- ?app_assoc; reflexivity.
Qed.

Lemma get_legal_moves_nonempty (self : Player) (first : Domino) (rest : list Domino) :
  PlayerM.get_legal_moves self (first :: rest)
  = flat_map (tile_moves (fst first) (snd (last (first :: rest) first)))
             (_dominos self).
Proof. unfold PlayerM.get_legal_moves; now rewrite legal_moves_loop. Qed.

Lemma tile_moves_In (head tail : Z) (d : Domino) (a : Action) :
  In a (tile_moves head tail d) <->
  domino a = d /\
  (   (insert_end a = true /\ flip a = false /\ fst d = tail)
   \/ (insert_end a = true /\ flip a = true /\ snd d = tail)
   \/ (insert_end a = false /\ flip a = true /\ fst d = head)
   \/ (insert_end a = false /\ flip a = false /\ snd d = head)).
Proof.
  unfold tile_moves; rewrite !in_app_iff.
  destruct (Z.eqb_spec (fst d) tail), (Z.eqb_spec (snd d) tail),
           (Z.eqb_spec (fst d) head), (Z.eqb_spec (snd d) head);
    simpl; split;
    try (intros H; repeat destruct H as [H|H]; try contradiction; subst a;
         simpl; now intuition);
    (intros [Hd H]; destruct a as [ie dm fl]; simpl in *; subst dm;
     repeat destruct H as [H|H]; destruct H as (-> & -> & H);
     try contradiction; tauto).
Qed.

Lemma tile_moves_length (head tail : Z) (d : Domino) :
  length (tile_moves head tail d) = matches head tail d.
Proof.
  unfold tile_moves, matches.
  destruct (fst d =? tail)%Z, (snd d =? tail)%Z,
           (fst d =? head)%Z, (snd d =? head)%Z; reflexivity.
Qed.

Lemma flat_map_length_sum (A B : Type) (f : A -> list B) (l : list A) :
  length (flat_map f l) = list_sum (map (fun x => length (f x)) l).
Proof.
  induction l as [|x l IH]; simpl; [reflexivity|].
  now rewrite length_app, IH.
Qed.

(** C6. Legal-move generation.  On an empty board there is exactly one
    Action per tile in hand, unflipped and appended at the tail.  On a
    board with head [h] and tail [t] each tile [(a,b)] of the hand
    contributes, in hand order, append-unflipped iff [a = t],
    append-flipped iff [b = t], prepend-flipped iff [a = h] and
    prepend-unflipped iff [b = h]; nothing else is generated and nothing is
    merged, so the number of Actions is the number of passed tests summed
    over the hand (a double matching both ends gives 4).  An empty result
    makes [take_turn] report a pass and change nothing. *)
Theorem C6_get_legal_moves (self : Player) :
  PlayerM.get_legal_moves self [] =
    map (fun d => mkAction true d false) (_dominos self)
  /\ (forall first rest,
        let board := first :: rest in
        let h := fst first in
        let t := snd (last board first) in
        let moves := PlayerM.get_legal_moves self board in
        moves = flat_map (tile_moves h t) (_dominos self)
        /\ (forall a, In a moves <->
              In (domino a) (_dominos self) /\
              (   (insert_end a = true /\ flip a = false /\ fst (domino a) = t)
               \/ (insert_end a = true /\ flip a = true /\ snd (domino a) = t)
               \/ (insert_end a = false /\ flip a = true /\ fst (domino a) = h)
               \/ (insert_end a = false /\ flip a = false /\ snd (domino a) = h)))
        /\ length moves = list_sum (map (matches h t) (_dominos self))
        /\ (forall x, matches h t (x, x) = 4 <-> x = h /\ x = t))
  /\ (forall board,
        PlayerM.get_legal_moves self board = [] ->
        PlayerM.take_turn self board =
          (Return (false, board, None), (self, board))).
Proof.
  split; [reflexivity|]; split.
  - intros first rest board h t moves.
    assert (E : moves = flat_map (tile_moves h t) (_dominos self))
      by apply get_legal_moves_nonempty.
    split; [exact E|]; split; [|split].
    + intros a; rewrite E, in_flat_map; split.
      * intros (d & Hin & Ha); apply tile_moves_In in Ha.
        destruct Ha as [Hd Hc]; rewrite Hd; tauto.
      * intros [Hin Hc]; exists (domino a); split; [exact Hin|].
        apply tile_moves_In; tauto.
    + rewrite E, flat_map_length_sum; f_equal.
      apply map_ext; intros d; apply tile_moves_length.
    + intros x; unfold matches; simpl.
      destruct (Z.eqb_spec x t), (Z.eqb_spec x h); simpl; split;
        try discriminate; try tauto; intros [? ?]; contradiction.
  - intros board H; unfold PlayerM.take_turn; rewrite H; reflexivity.
Qed.

(** With both ends showing 3, the double three can be played in four
    ways. *)
Example double_matching_both_ends :
  PlayerM.get_legal_moves
    (mkPlayer "P1" [(3, 3)%Z] (fun _ _ => mkAction true (0, 0)%Z false) 0)
    [(3, 4); (4, 3)]%Z
  = [mkAction true (3, 3)%Z false; mkAction true (3, 3)%Z true;
     mkAction false (3, 3)%Z true; mkAction false (3, 3)%Z false].
Proof. reflexivity. Qed.

(** ** Applying the chosen move *)

(** C4, counterexample.  The chooser's answer is not among the legal moves,
    and [take_turn] raises nothing: it returns did-play, with (1,2)
    attached to the board after (3,4) and taken out of the hand. *)
Lemma C4_counterexample :
  PlayerM.get_legal_moves stray_player [(3, 4)%Z] = [mkAction false (3, 5)%Z true]
  /\ ~ In (mkAction true (1, 2)%Z false)
          (PlayerM.get_legal_moves stray_player [(3, 4)%Z])
  /\ PlayerM.take_turn stray_player [(3, 4)%Z]
     = (Return (true, [(3, 4); (1, 2)]%Z, Some (1, 2)%Z),
        (set_dominos stray_player [(3, 5)%Z], [(3, 4); (1, 2)]%Z)).
Proof.
  split; [reflexivity|]; split; [|reflexivity].
  simpl; intros [H|[]]; discriminate H.
Qed.

(** What [take_turn] does with the chooser's answer. *)
Lemma take_turn_answer (self : Player) (played : list Domino) :
  let moves := PlayerM.get_legal_moves self played in
  let move := _action_chooser self played moves in
  let tile := if flip move then reversed (domino move) else domino move in
  let board := if insert_end move then played ++ [tile] else tile :: played in
  moves <> [] ->
  (In (domino move) (_dominos self) ->
     exists hand,
       Permutation (_dominos self) (domino move :: hand)
       /\ PlayerM.take_turn self played
          = (Return (true, board, Some tile), (set_dominos self hand, board)))
  /\ (~ In (domino move) (_dominos self) ->
        fst (PlayerM.take_turn self played) = Raise ValueError
        /\ fst (snd (PlayerM.take_turn self played)) = self).
Proof.
  intros moves move tile board Hmoves.
  assert (Hlen : (length moves =? 0)%nat = false).
  { destruct moves; [contradiction|reflexivity]. }
  unfold PlayerM.take_turn; fold moves; rewrite Hlen; fold move; fold tile; fold board.
  split.
  - intros Hin.
    destruct (remove_In Domino_eqb Domino_eqb_eq _ _ Hin) as [hand Hr].
    exists hand; split.
    + exact (remove_Some_perm Domino_eqb Domino_eqb_eq _ _ Hr).
    + now rewrite Hr.
  - intros Hn.
    apply (remove_None Domino_eqb Domino_eqb_eq) in Hn.
    now rewrite Hn.
Qed.

(** C4, as the code has it.  [take_turn] never compares the chooser's
    answer with the legal moves.  Whenever some move is legal, the answer
    is applied as it is: if its tile is in the hand, the tile (reversed
    when [flip] is set) is attached at the stated end, one copy of it
    leaves the hand, and the turn returns did-play without any error; the
    only error is the [ValueError] of removing a tile that is not in the
    hand, and the hand is then the one before the turn. *)
Theorem C4_take_turn_applies_the_answer (self : Player) (played : list Domino) :
  let moves := PlayerM.get_legal_moves self played in
  let move := _action_chooser self played moves in
  let tile := if flip move then reversed (domino move) else domino move in
  let board := if insert_end move then played ++ [tile] else tile :: played in
  moves <> [] ->
  (In (domino move) (_dominos self) ->
     exists hand,
       Permutation (_dominos self) (domino move :: hand)
       /\ PlayerM.take_turn self played
          = (Return (true, board, Some tile), (set_dominos self hand, board)))
  /\ (~ In (domino move) (_dominos self) ->
        fst (PlayerM.take_turn self played) = Raise ValueError
        /\ fst (snd (PlayerM.take_turn self played)) = self).
Proof. exact (take_turn_answer self played). Qed.

Lemma C4_take_turn_applies_the_answer_witness :
  PlayerM.get_legal_moves stray_player [(3, 4)%Z] <> []
  /\ exists hand,
       Permutation (_dominos stray_player) ((1, 2)%Z :: hand)
       /\ PlayerM.take_turn stray_player [(3, 4)%Z]
          = (Return (true, [(3, 4); (1, 2)]%Z, Some (1, 2)%Z),
             (set_dominos stray_player hand, [(3, 4); (1, 2)]%Z)).
Proof.
  assert (H : PlayerM.get_legal_moves stray_player [(3, 4)%Z] <> [])
    by (simpl; discriminate).
  split; [exact H|].
  apply (C4_take_turn_applies_the_answer stray_player [(3, 4)%Z] H).
  simpl; auto.
Defined.

(** ** Team awards *)

(** *** Four seats, two teams *)

Lemma NoDup_four (a b c d : ref) :
  NoDup [a; b; c; d] ->
  a <> b /\ a <> c /\ a <> d /\ b <> c /\ b <> d /\ c <> d.
Proof.
  intros H.
  inversion_clear H as [|? ? Ha H1].
  inversion_clear H1 as [|? ? Hb H2].
  inversion_clear H2 as [|? ? Hc _].
  simpl in *; intuition.
Qed.

Lemma four_seats_inv (g : Game) :
  four_seats g ->
  exists a b c d,
    players g = [a; b; c; d]
    /\ a <> b /\ a <> c /\ a <> d /\ b <> c /\ b <> d /\ c <> d.
Proof.
  intros [Hl Hn].
  destruct (players g) as [|a [|b [|c [|d [|e l]]]]]; try discriminate.
  exists a, b, c, d; split; [reflexivity | now apply NoDup_four].
Qed.

(** Decide the identity tests met in a goal from the disequalities at hand. *)
Ltac same_object :=
  repeat first
    [ rewrite Nat.eqb_refl
    | match goal with
      | H : ?a <> ?b |- context [(?a =? ?b)%nat] =>
          rewrite (proj2 (Nat.eqb_neq a b) H)
      | H : ?a <> ?b |- context [(?b =? ?a)%nat] =>
          rewrite (proj2 (Nat.eqb_neq b a) (not_eq_sym H))
      end ].

Lemma with_store_same (g : Game) : with_store (store g) g = g.
Proof. now destruct g. Qed.

Lemma for_each_update_player (f : Player -> Player) (l : list ref) (g : Game) :
  for_each l (fun p => update_player p f) g
  = (Return tt,
     with_store (fold_left (fun h p => upd h p (f (h p))) l (store g)) g).
Proof.
  revert g; induction l as [|p l IH]; intros g; simpl.
  - unfold ret; now rewrite with_store_same.
  - unfold bind, update_player, modify; rewrite IH; reflexivity.
Qed.

(** What [give_points_to_team] computes once the winner's seat is known. *)
Lemma give_points_to_team_run (player : ref) (points : Z) (g : Game) (i : nat) :
  PyList.index Nat.eqb (winner g) (players g) = Some i ->
  GameM.give_points_to_team player points g
  = (Return tt,
     with_store
       (fold_left (fun h p => upd h p (add_score (h p) points))
                  (if (i =? 0)%nat || (i =? 2)%nat
                   then PyList.slice 0 2 (players g)
                   else PyList.slice 1 2 (players g))
                  (store g)) g).
Proof.
  intros Hi.
  unfold GameM.give_points_to_team, GameM.winner_index, bind, gets.
  rewrite Hi; apply for_each_update_player.
Qed.

Lemma give_points_to_team_no_winner (player : ref) (points : Z) (g : Game) :
  PyList.index Nat.eqb (winner g) (players g) = None ->
  GameM.give_points_to_team player points g = (Raise ValueError, g).
Proof.
  intros Hi.
  unfold GameM.give_points_to_team, GameM.winner_index, bind.
  now rewrite Hi.
Qed.

Lemma index_None (x : ref) (l : list ref) :
  PyList.index Nat.eqb x l = None <-> ~ In x l.
Proof.
  induction l as [|y l IH]; simpl; [tauto|].
  destruct (Nat.eqb_spec y x) as [ -> | Hne].
  - split; [discriminate | intros H; exfalso; apply H; now left].
  - destruct (PyList.index Nat.eqb x l).
    + split; [discriminate|].
      intros H; exfalso; apply H; right.
      destruct (in_dec Nat.eq_dec x l) as [Hin|Hnin]; [exact Hin|].
      now apply IH in Hnin.
    + split; [|reflexivity].
      intros _ [H|H]; [contradiction | now apply IH in H].
Qed.

Lemma award_keeps_hands (points : Z) (team : list ref) (h : Store) (r : ref) :
  _name (fold_left (fun h p => upd h p (add_score (h p) points)) team h r)
  = _name (h r)
  /\ _dominos (fold_left (fun h p => upd h p (add_score (h p) points)) team h r)
     = _dominos (h r).
Proof.
  revert h; induction team as [|p team IH]; intros h; simpl; [auto|].
  destruct (IH (upd h p (add_score (h p) points))) as [-> ->].
  unfold upd; destruct (Nat.eqb_spec r p) as [ -> | ]; auto.
Qed.

Lemma award_outside_team (points : Z) (team : list ref) (h : Store) (r : ref) :
  ~ In r team ->
  fold_left (fun h p => upd h p (add_score (h p) points)) team h r = h r.
Proof.
  revert h; induction team as [|p team IH]; intros h Hr; simpl; [auto|].
  rewrite IH by (intros H; apply Hr; now right).
  unfold upd; destruct (Nat.eqb_spec r p) as [ -> | ]; [|reflexivity].
  exfalso; apply Hr; now left.
Qed.

(** The effect of an award at a table of four: it fails, with nothing
    changed, when [self.winner] holds no seat; otherwise the two seats of
    the winner's parity gain [points] and nothing else moves. *)
Lemma give_points_to_team_four (player : ref) (points : Z) (g : Game) :
  four_seats g ->
  (~ In (winner g) (players g)
   /\ GameM.give_points_to_team player points g = (Raise ValueError, g))
  \/ (exists i g',
        nth_error (players g) i = Some (winner g)
        /\ GameM.give_points_to_team player points g = (Return tt, g')
        /\ only_scores_differ g g'
        /\ forall s, s < 4 ->
             score_at g' s
             = (score_at g s + (if Nat.even (i + s) then points else 0))%Z).
Proof.
  intros Hfour.
  destruct (four_seats_inv Hfour) as (a & b & c & d & Hp & Hab & Hac & Had & Hbc & Hbd & Hcd).
  destruct (PyList.index Nat.eqb (winner g) (players g)) as [i|] eqn:Hi.
  - right.
    rewrite (give_points_to_team_run player points g Hi).
    rewrite Hp in Hi; simpl in Hi.
    exists i; eexists; split; [|split; [reflexivity|]].
    + rewrite Hp.
      destruct (Nat.eqb_spec a (winner g)) as [ <- | ];
        [inversion Hi; reflexivity|].
      destruct (Nat.eqb_spec b (winner g)) as [ <- | ];
        [inversion Hi; reflexivity|].
      destruct (Nat.eqb_spec c (winner g)) as [ <- | ];
        [inversion Hi; reflexivity|].
      destruct (Nat.eqb_spec d (winner g)) as [ <- | ];
        [inversion Hi; reflexivity|discriminate].
    + assert (Hcases : i = 0 \/ i = 1 \/ i = 2 \/ i = 3).
      { destruct (a =? winner g)%nat; [inversion Hi; auto|].
        destruct (b =? winner g)%nat; [inversion Hi; auto|].
        destruct (c =? winner g)%nat; [inversion Hi; auto|].
        destruct (d =? winner g)%nat; [inversion Hi; auto|discriminate]. }
      split.
      * unfold only_scores_differ; simpl; repeat (split; [reflexivity|]).
        split.
        -- intros r; apply award_keeps_hands.
        -- intros r Hr; rewrite award_outside_team; [reflexivity|].
           rewrite Hp in *; simpl in Hr.
           destruct Hcases as [ -> | [ -> | [ -> | -> ]]]; simpl; tauto.
      * intros s Hs; unfold score_at; simpl; rewrite Hp.
        assert (Hs' : s = 0 \/ s = 1 \/ s = 2 \/ s = 3) by lia.
        destruct Hcases as [ -> | [ -> | [ -> | -> ]]];
          destruct Hs' as [ -> | [ -> | [ -> | -> ]]]; simpl; unfold upd;
          same_object; simpl; lia.
  - left; split.
    + now apply index_None.
    + now apply give_points_to_team_no_winner.
Qed.

(** ** The two shuffles *)

Lemma shuffle_of_sound (l pool : list Domino) :
  Rounds.shuffle_of l pool = true -> Permutation l pool.
Proof.
  revert pool; induction l as [|d l IH]; intros pool; simpl.
  - destruct pool; [constructor | discriminate].
  - destruct (PyList.remove Domino_eqb d pool) as [pool'|] eqn:E; [|discriminate].
    intros H; apply IH in H.
    rewrite (remove_Some_perm Domino_eqb Domino_eqb_eq _ _ E).
    now constructor.
Qed.

Lemma locking_pool_shuffled : Permutation Rounds.locking_pool GameM.DOMINOS.
Proof. apply shuffle_of_sound; vm_compute; reflexivity. Qed.

Lemma closing_pool_shuffled : Permutation Rounds.closing_pool GameM.DOMINOS.
Proof. apply shuffle_of_sound; vm_compute; reflexivity. Qed.

(** ** The bonus check *)

(** A turn that placed a tile ends the check at once: no award, nothing
    changed. *)
Lemma check_after_play (g : Game) (before : list TurnDataPoint) (t : TurnDataPoint) :
  round_history g = before ++ [t] ->
  did_play t = true ->
  GameM.check_for_bonus_points g = (Return tt, g).
Proof.
  intros Hh Hp.
  unfold GameM.check_for_bonus_points, bind, gets.
  rewrite Hh, rev_unit, Hp.
  destruct (length (before ++ [t]) <? 2)%nat; reflexivity.
Qed.

(** With two turns recorded, only the second is looked at. *)
Lemma check_two_turns (g : Game) (first second : TurnDataPoint) :
  round_history g = [first; second] ->
  GameM.check_for_bonus_points g
  = if did_play second then (Return tt, g)
    else (last_player <- GameM.get_player_by_name (player_name second) ;;
          GameM.give_points_to_team last_player 25%Z) g.
Proof.
  intros Hh.
  unfold GameM.check_for_bonus_points, bind, gets.
  rewrite Hh; simpl.
  destruct (did_play second); [reflexivity|].
  destruct (GameM.get_player_by_name (player_name second) g) as [[p|e] g1];
    reflexivity.
Qed.

Lemma get_player_by_name_found (g : Game) (name : string) :
  (exists p, In p (players g) /\ _name (store g p) = name) ->
  exists q,
    GameM.get_player_by_name name g = (Return q, g)
    /\ In q (players g) /\ _name (store g q) = name.
Proof.
  intros (p & Hin & Hname).
  unfold GameM.get_player_by_name.
  destruct (filter (fun p => String.eqb (_name (store g p)) name) (players g))
    as [|q l] eqn:E.
  - exfalso.
    assert (H : In p (filter (fun p => String.eqb (_name (store g p)) name) (players g))).
    { apply filter_In; split; [exact Hin|]; now apply String.eqb_eq. }
    rewrite E in H; exact H.
  - exists q; split; [reflexivity|].
    assert (H : In q (filter (fun p => String.eqb (_name (store g p)) name) (players g)))
      by (rewrite E; now left).
    apply filter_In in H; destruct H as [H1 H2].
    split; [exact H1 | now apply String.eqb_eq].
Qed.

Lemma same_team_parity (i s : nat) :
  i < 4 -> s < 4 -> Nat.even (i + s) = (s mod 2 =? i mod 2)%nat.
Proof.
  intros Hi Hs.
  assert (Hi' : i = 0 \/ i = 1 \/ i = 2 \/ i = 3) by lia.
  assert (Hs' : s = 0 \/ s = 1 \/ s = 2 \/ s = 3) by lia.
  destruct Hi' as [ -> | [ -> | [ -> | -> ]]];
    destruct Hs' as [ -> | [ -> | [ -> | -> ]]]; reflexivity.
Qed.

(** C2, counterexample.  P3 opens the round with (6,6), so the first turn
    placed a tile; P4 holds no six and passes.  The step of P4 awards the
    25 points all the same (and seats 0 and 2 receive them). *)
Lemma C2_counterexample :
  round_history opening_played = [Fixture.played "P3" (6, 6)%Z]
  /\ Fixture.scores_of opening_played = [0; 0; 0; 0]%Z
  /\ fst (GameM.step opening_played) = Return true
  /\ round_history (snd (GameM.step opening_played))
     = [Fixture.played "P3" (6, 6)%Z; Fixture.passed "P4"]
  /\ Fixture.scores_of (snd (GameM.step opening_played)) = [25; 0; 25; 0]%Z.
Proof. vm_compute; repeat split. Qed.

(** C2, as the code has it.  At a table of four, when exactly two turns
    are recorded, the check looks at the second turn only: if it placed a
    tile nothing is awarded; if it is a pass - whether the first turn was a
    pass or placed a tile - the team award of 25 is made on behalf of the
    player found under the passer's name, and both seats of one team gain
    25 while nothing else changes. *)
Theorem C2_bonus_on_second_turn_pass (g : Game) (first second : TurnDataPoint) :
  four_seats g ->
  In (winner g) (players g) ->
  round_history g = [first; second] ->
  (exists p, In p (players g) /\ _name (store g p) = player_name second) ->
  (did_play second = true ->
     GameM.check_for_bonus_points g = (Return tt, g))
  /\ (did_play second = false ->
      exists last_player g',
        GameM.get_player_by_name (player_name second) g = (Return last_player, g)
        /\ GameM.check_for_bonus_points g
           = GameM.give_points_to_team last_player 25%Z g
        /\ GameM.check_for_bonus_points g = (Return tt, g')
        /\ only_scores_differ g g'
        /\ exists team,
             team < 2
             /\ forall s, s < 4 ->
                  score_at g' s
                  = (score_at g s + (if (s mod 2 =? team)%nat then 25 else 0))%Z).
Proof.
  intros Hfour Hw Hh Hname.
  rewrite (check_two_turns g Hh).
  split; intros Hp; rewrite Hp; [reflexivity|].
  destruct (get_player_by_name_found g Hname) as (q & Hq & _ & _).
  unfold bind; rewrite Hq.
  destruct (give_points_to_team_four q 25%Z Hfour)
    as [[Hn _] | (i & g' & Hi & Hrun & Hframe & Hscores)]; [contradiction|].
  exists q, g'; repeat (split; [assumption || reflexivity|]).
  assert (Hlt : i < 4).
  { destruct Hfour as [Hl _]; rewrite <- Hl.
    apply nth_error_Some; rewrite Hi; discriminate. }
  exists (i mod 2); split; [apply Nat.mod_upper_bound; lia|].
  intros s Hs; rewrite (Hscores s Hs), same_team_parity by assumption.
  reflexivity.
Qed.

Lemma four_distinct_refs : NoDup [0; 1; 2; 3].
Proof. repeat constructor; simpl; intuition discriminate. Qed.

Lemma C2_bonus_on_second_turn_pass_witness :
  exists last_player g',
    GameM.get_player_by_name "P4" opening_then_pass
    = (Return last_player, opening_then_pass)
    /\ GameM.check_for_bonus_points opening_then_pass
       = GameM.give_points_to_team last_player 25%Z opening_then_pass
    /\ GameM.check_for_bonus_points opening_then_pass = (Return tt, g')
    /\ only_scores_differ opening_then_pass g'
    /\ exists team,
         team < 2
         /\ forall s, s < 4 ->
              score_at g' s
              = (score_at opening_then_pass s
                 + (if (s mod 2 =? team)%nat then 25 else 0))%Z.
Proof.
  refine (proj2 (C2_bonus_on_second_turn_pass
                   (g := opening_then_pass)
                   (first := Fixture.played "P3" (6, 6)%Z)
                   (second := Fixture.passed "P4") _ _ _ _) eq_refl).
  - split; [reflexivity | exact four_distinct_refs].
  - vm_compute; auto.
  - reflexivity.
  - exists 3; split; [vm_compute; auto | reflexivity].
Defined.

(** ** Awards and the player they are made for *)

(** C1, on the code.  In the round of [Rounds.locking_pool] P3 has opened
    and is [self.winner].  The award of 25 made for P4 (object 3, seat 3)
    raises seats 0 and 2, leaves P4 and P2 at 0, and is the same call as
    the award made for P3; the step in which P4 passes ends with these
    scores. *)
Theorem C1_award_for_P4_credits_P3_team :
  winner opening_played = 2
  /\ nth_error (players opening_played) 3 = Some 3
  /\ Fixture.scores_of opening_played = [0; 0; 0; 0]%Z
  /\ fst (GameM.give_points_to_team 3 25%Z opening_played) = Return tt
  /\ Fixture.scores_of (snd (GameM.give_points_to_team 3 25%Z opening_played))
     = [25; 0; 25; 0]%Z
  /\ GameM.give_points_to_team 3 25%Z opening_played
     = GameM.give_points_to_team 2 25%Z opening_played
  /\ Fixture.scores_of (snd (GameM.step opening_played)) = [25; 0; 25; 0]%Z.
Proof. repeat split; vm_compute; reflexivity. Qed.

(** ** Going out on a tile that fits both ends *)

(** C3, on the code.  P4 appends (3,2), which empties the hand; taking
    that tile off the board leaves the board of before, with head 2 and
    tail 3, the two values of the tile.  The step ends the round with P4
    as winner and every score as it was: no 25 points are awarded. *)
Theorem C3_no_bonus_for_closing_tile :
  next_player_index before_closing = 3
  /\ Fixture.hands_of before_closing
     = [[(4, 4)]; [(3, 3); (5, 5)]; [(0, 0)]; [(2, 3)]]%Z
  /\ hd_error (played_dominos before_closing) = Some (2, 1)%Z
  /\ last (played_dominos before_closing) (0, 0)%Z = (0, 3)%Z
  /\ length (round_history before_closing) = 27
  /\ Fixture.scores_of before_closing = [0; 0; 0; 0]%Z
  /\ fst (GameM.step before_closing) = Return false
  /\ last (round_history (snd (GameM.step before_closing))) (Fixture.passed "")
     = Fixture.played "P4" (3, 2)%Z
  /\ PlayerM.is_hand_empty (store (snd (GameM.step before_closing)) 3) = true
  /\ PyList.remove Domino_eqb (3, 2)%Z (played_dominos (snd (GameM.step before_closing)))
     = Some (played_dominos before_closing)
  /\ winner (snd (GameM.step before_closing)) = 3
  /\ Fixture.scores_of (snd (GameM.step before_closing)) = [0; 0; 0; 0]%Z.
Proof. vm_compute; repeat split. Qed.

(** The branch written for the fit bonus (lines 216-221) cannot award:
    [list.remove] evaluates to [None], and subscripting it raises. *)
Lemma fit_branch_raises (x : option Domino) (k : Z -> M unit) (g : Game) :
  exists e g',
    (v <- GameM.played_dominos_remove x ;;
     head <- GameM.first_left v ;; k head) g = (Raise e, g').
Proof.
  unfold bind, GameM.played_dominos_remove.
  destruct x as [d|]; [|eauto].
  destruct (PyList.remove Domino_eqb d (played_dominos g)); simpl; eauto.
Qed.

(** ** Frames: what a method leaves alone *)

Section Preserves.
Variable R : Game -> Game -> Prop.
Hypothesis R_refl : forall g, R g g.
Hypothesis R_trans : forall g1 g2 g3, R g1 g2 -> R g2 g3 -> R g1 g3.

Lemma preserves_ret (A : Type) (a : A) : preserves R (ret a).
Proof. intros g; apply R_refl. Qed.

Lemma preserves_raise (A : Type) (e : exn) : preserves R (@raise A e).
Proof. intros g; apply R_refl. Qed.

Lemma preserves_gets (A : Type) (f : Game -> A) : preserves R (gets f).
Proof. intros g; apply R_refl. Qed.

Lemma preserves_pure (A : Type) (m : M A) :
  (forall g, snd (m g) = g) -> preserves R m.
Proof. intros H g; rewrite H; apply R_refl. Qed.

Lemma preserves_modify (f : Game -> Game) :
  (forall g, R g (f g)) -> preserves R (modify f).
Proof. intros H g; apply H. Qed.

Lemma preserves_bind (A B : Type) (m : M A) (k : A -> M B) :
  preserves R m -> (forall a, preserves R (k a)) -> preserves R (bind m k).
Proof.
  intros Hm Hk g; unfold bind.
  specialize (Hm g); destruct (m g) as [[a|e] g1]; simpl in *.
  - eapply R_trans; [exact Hm | apply Hk].
  - exact Hm.
Qed.

Lemma preserves_for_each (A : Type) (l : list A) (body : A -> M unit) :
  (forall x, preserves R (body x)) -> preserves R (for_each l body).
Proof.
  intros H; induction l as [|x l IH]; simpl.
  - apply preserves_ret.
  - apply preserves_bind; [apply H | intros _; exact IH].
Qed.
End Preserves.

Lemma players_at_pure (i : nat) (g : Game) : snd (players_at i g) = g.
Proof. unfold players_at; destruct (nth_error (players g) i); reflexivity. Qed.

Lemma winner_index_pure (g : Game) : snd (GameM.winner_index g) = g.
Proof.
  unfold GameM.winner_index.
  destruct (PyList.index Nat.eqb (winner g) (players g)); reflexivity.
Qed.

Lemma get_player_by_name_pure (name : string) (g : Game) :
  snd (GameM.get_player_by_name name g) = g.
Proof.
  unfold GameM.get_player_by_name.
  destruct (filter _ (players g)); reflexivity.
Qed.

Lemma get_next_player_index_pure (g : Game) :
  snd (GameM.get_next_player_index g) = g.
Proof.
  unfold GameM.get_next_player_index; destruct (length (players g)); reflexivity.
Qed.

Lemma is_locked_run (g : Game) :
  GameM.is_locked g = (locked_outcome (played_dominos g), g).
Proof.
  unfold locked_outcome, GameM.is_locked, bind, gets, ret, raise; simpl.
  destruct (played_dominos g) as [|first rest]; [reflexivity|].
  destruct (negb _); [reflexivity|].
  destruct (_ =? 8)%nat; reflexivity.
Qed.

(** Structural steps of a frame proof for a relation with reflexivity
    [Hrefl] and transitivity [Htrans]. *)
Ltac frame_step Hrefl Htrans :=
  first
    [ apply (preserves_ret _ Hrefl)
    | apply (preserves_raise _ Hrefl)
    | apply (preserves_gets _ Hrefl)
    | apply (preserves_pure _ Hrefl); intros; first
        [ apply players_at_pure | apply winner_index_pure
        | apply get_player_by_name_pure | apply get_next_player_index_pure ]
    | apply (preserves_bind Htrans); [ | intros]
    | apply (preserves_for_each Hrefl Htrans); intros
    | match goal with
      | |- preserves _ (if ?b then _ else _) => destruct b
      | |- preserves _ (match ?x with _ => _ end) => destruct x
      end ].

(** *** Hands, seats and the turn order *)

Lemma same_hands_refl (g : Game) : same_hands g g.
Proof. unfold same_hands; auto 10. Qed.

Lemma same_hands_trans (g1 g2 g3 : Game) :
  same_hands g1 g2 -> same_hands g2 g3 -> same_hands g1 g3.
Proof.
  unfold same_hands.
  intros (A1 & A2 & A3 & A4 & A5 & A6) (B1 & B2 & B3 & B4 & B5 & B6).
  repeat split; try congruence.
  - destruct (A6 r), (B6 r); congruence.
  - destruct (A6 r), (B6 r); congruence.
Qed.

Lemma same_hands_add_score (p : ref) (points : Z) :
  preserves same_hands (update_player p (fun pl => add_score pl points)).
Proof.
  intros g; unfold same_hands; simpl; repeat (split; [reflexivity|]).
  intros r; unfold upd; destruct (Nat.eqb_spec r p) as [ -> | ]; auto.
Qed.

Lemma same_hands_give_points (player : ref) (points : Z) :
  preserves same_hands (GameM.give_points_to_team player points).
Proof.
  unfold GameM.give_points_to_team.
  repeat frame_step same_hands_refl same_hands_trans.
  apply same_hands_add_score.
Qed.

Lemma same_hands_board_remove (x : option Domino) :
  preserves same_hands (GameM.played_dominos_remove x).
Proof.
  intros g; unfold GameM.played_dominos_remove.
  destruct x as [d|]; [|apply same_hands_refl].
  destruct (PyList.remove Domino_eqb d (played_dominos g));
    [|apply same_hands_refl].
  unfold same_hands; simpl; auto 10.
Qed.

(** The bonus check touches the scores and (in its last branch) the board,
    never the hands, the seats or the turn order. *)
Lemma same_hands_check : preserves same_hands GameM.check_for_bonus_points.
Proof.
  unfold GameM.check_for_bonus_points, GameM.first_left, GameM.last_right,
    GameM.component.
  repeat first
    [ apply same_hands_give_points
    | apply same_hands_board_remove
    | frame_step same_hands_refl same_hands_trans ].
Qed.

(** ** The step, part by part *)

Lemma step_parts :
  GameM.step
  = (i <- gets next_player_index ;;
     next_player <- players_at i ;;
     turn <- take_the_turn next_player ;;
     record_turn next_player turn ;;
     GameM.check_for_bonus_points ;;
     end_of_turn next_player).
Proof. reflexivity. Qed.

(** What the turn does to the acting player [p] and to the rest. *)
Lemma take_the_turn_effect (p : ref) (g : Game) :
  let o := fst (take_the_turn p g) in
  let g1 := snd (take_the_turn p g) in
  players g1 = players g
  /\ winner g1 = winner g
  /\ round_history g1 = round_history g
  /\ next_player_index g1 = next_player_index g
  /\ (forall r, _name (store g1 r) = _name (store g r)
                /\ score (store g1 r) = score (store g r))
  /\ (forall r, r <> p -> _dominos (store g1 r) = _dominos (store g r))
  /\ match o with
     | Return (true, Some d) =>
         exists x, Permutation (_dominos (store g p)) (x :: _dominos (store g1 p))
     | Return (true, None) => False
     | Return (false, _) | Raise _ =>
         _dominos (store g1 p) = _dominos (store g p)
     end.
Proof.
  unfold take_the_turn, bind, gets, GameM.call_on_player.
  destruct (first_game_round_step g).
  - unfold PlayerM.play_double_six.
    destruct (PyList.remove Domino_eqb (6, 6)%Z (_dominos (store g p))) as [ds|] eqn:E;
      simpl; repeat (split; [reflexivity|]); unfold upd.
    + split; [|split].
      * intros r; destruct (r =? p)%nat eqn:Er; [|auto].
        apply Nat.eqb_eq in Er; subst r; auto.
      * intros r Hr; now rewrite (proj2 (Nat.eqb_neq r p) Hr).
      * rewrite Nat.eqb_refl; simpl; exists (6, 6)%Z.
        exact (remove_Some_perm Domino_eqb Domino_eqb_eq _ _ E).
    + split; [|split].
      * intros r; destruct (r =? p)%nat eqn:Er; [|auto].
        apply Nat.eqb_eq in Er; subst r; auto.
      * intros r Hr; now rewrite (proj2 (Nat.eqb_neq r p) Hr).
      * now rewrite Nat.eqb_refl.
  - unfold PlayerM.take_turn.
    destruct (length (PlayerM.get_legal_moves (store g p) (played_dominos g)) =? 0)%nat.
    + simpl; repeat (split; [reflexivity|]); unfold upd.
      split; [|split].
      * intros r; destruct (r =? p)%nat eqn:Er; [|auto].
        apply Nat.eqb_eq in Er; subst r; auto.
      * intros r Hr; now rewrite (proj2 (Nat.eqb_neq r p) Hr).
      * now rewrite Nat.eqb_refl.
    + destruct (PyList.remove Domino_eqb _ (_dominos (store g p))) as [ds|] eqn:E;
        simpl; repeat (split; [reflexivity|]); unfold upd.
      * split; [|split].
        -- intros r; destruct (r =? p)%nat eqn:Er; [|auto].
           apply Nat.eqb_eq in Er; subst r; auto.
        -- intros r Hr; now rewrite (proj2 (Nat.eqb_neq r p) Hr).
        -- rewrite Nat.eqb_refl; simpl; eexists.
           exact (remove_Some_perm Domino_eqb Domino_eqb_eq _ _ E).
      * split; [|split].
        -- intros r; destruct (r =? p)%nat eqn:Er; [|auto].
           apply Nat.eqb_eq in Er; subst r; auto.
        -- intros r Hr; now rewrite (proj2 (Nat.eqb_neq r p) Hr).
        -- now rewrite Nat.eqb_refl.
Qed.

Lemma record_turn_run (p : ref) (turn : bool * option Domino) (g : Game) :
  record_turn p turn g
  = (Return tt,
     with_round_history
       (round_history g ++ [mkTurnDataPoint (_name (store g p)) (fst turn) (snd turn)]) g).
Proof. reflexivity. Qed.

Lemma same_table_refl (g : Game) : same_table g g.
Proof. unfold same_table; auto. Qed.

Lemma same_table_trans (g1 g2 g3 : Game) :
  same_table g1 g2 -> same_table g2 g3 -> same_table g1 g3.
Proof. unfold same_table; intuition congruence. Qed.

Lemma is_locked_pure (g : Game) : snd (GameM.is_locked g) = g.
Proof. now rewrite is_locked_run. Qed.

Lemma same_table_end_of_turn (p : ref) : preserves same_table (end_of_turn p).
Proof.
  unfold end_of_turn.
  repeat first
    [ apply (preserves_pure _ same_table_refl); intros; apply is_locked_pure
    | apply preserves_modify; intros; unfold same_table; simpl; now auto
    | frame_step same_table_refl same_table_trans ].
Qed.

Lemma end_of_turn_hand_empty (p : ref) (g : Game) :
  PlayerM.is_hand_empty (store g p) = true ->
  end_of_turn p g = (Return false, with_winner p g).
Proof.
  intros H; unfold end_of_turn, bind, gets; now rewrite H.
Qed.

(** The turn index moves only when the step returns [True]. *)
Lemma end_of_turn_index (p : ref) (g : Game) :
  fst (end_of_turn p g) <> Return true ->
  next_player_index (snd (end_of_turn p g)) = next_player_index g.
Proof.
  unfold end_of_turn, bind, gets.
  destruct (PlayerM.is_hand_empty (store g p)); [reflexivity|].
  rewrite is_locked_run.
  destruct (locked_outcome (played_dominos g)) as [[|]|e]; [| |reflexivity].
  - unfold GameM.get_next_player_index, players_at.
    destruct (length (players g)); [reflexivity|].
    destruct (nth_error _ _); reflexivity.
  - unfold GameM.get_next_player_index.
    destruct (length (players g)); [reflexivity|].
    simpl; intros H; now contradiction H.
Qed.

Lemma is_hand_empty_nil (pl : Player) :
  PlayerM.is_hand_empty pl = true <-> _dominos pl = [].
Proof.
  unfold PlayerM.is_hand_empty; destruct (_dominos pl); simpl; split;
    intros; congruence.
Qed.

Lemma step_cases (g : Game) (p : ref) :
  nth_error (players g) (next_player_index g) = Some p ->
  step_path g p.
Proof.
  intros Hp.
  assert (Hrun : GameM.step g
                 = (turn <- take_the_turn p ;;
                    record_turn p turn ;;
                    GameM.check_for_bonus_points ;;
                    end_of_turn p) g).
  { rewrite step_parts; unfold bind, gets, players_at; rewrite Hp; reflexivity. }
  unfold bind in Hrun.
  destruct (take_the_turn p g) as [[turn|e] g1] eqn:Ht.
  - rewrite record_turn_run in Hrun; fold (turn_recorded p turn g1) in Hrun.
    destruct (GameM.check_for_bonus_points (turn_recorded p turn g1))
      as [[[]|e] g3] eqn:Hc.
    + eapply turn_ends; eassumption.
    + eapply check_raises; eassumption.
  - eapply turn_raises; eassumption.
Qed.

(** The check after a turn that placed a tile does nothing. *)
Lemma check_after_recorded_play (p : ref) (d : option Domino) (g1 : Game) :
  GameM.check_for_bonus_points (turn_recorded p (true, d) g1)
  = (Return tt, turn_recorded p (true, d) g1).
Proof. eapply check_after_play; simpl; reflexivity. Qed.

(** ** The round ends on an empty hand *)

(** C8.  Let [p] be the player to move and suppose the hand of [p] is empty
    when the step is over.  Then the turn index has not advanced and the
    step has not returned [True]; whenever it returns, it returns [False]
    with [p] as [self.winner]; and when the hand was not empty before the
    turn - the turn is what emptied it - the step does return [False] with
    [p] as winner.  The board plays no part: the hand is tested before
    [is_locked] is called. *)
Theorem C8_round_ends_on_empty_hand (g : Game) (p : ref) :
  nth_error (players g) (next_player_index g) = Some p ->
  _dominos (store (snd (GameM.step g)) p) = [] ->
  next_player_index (snd (GameM.step g)) = next_player_index g
  /\ fst (GameM.step g) <> Return true
  /\ (forall b, fst (GameM.step g) = Return b ->
        b = false /\ winner (snd (GameM.step g)) = p)
  /\ (_dominos (store g p) <> [] ->
        fst (GameM.step g) = Return false /\ winner (snd (GameM.step g)) = p).
Proof.
  intros Hp Hempty.
  pose proof (take_the_turn_effect p g) as Ht; cbv zeta in Ht.
  destruct (step_cases g Hp)
    as [e g1 Hturn Hstep | turn g1 e g3 Hturn Hcheck Hstep
        | turn g1 g3 Hturn Hcheck Hstep].
  - (* the turn raises: the hand is the one before *)
    rewrite Hturn in Ht; simpl in Ht.
    destruct Ht as (_ & _ & _ & Hidx & _ & _ & Hhand).
    rewrite Hstep in *; simpl in *.
    split; [assumption|]; split; [discriminate|].
    split; [intros b Hb; discriminate|].
    intros Hne; exfalso; congruence.
  - (* the check raises: the turn was a pass *)
    rewrite Hturn in Ht; simpl in Ht.
    destruct Ht as (_ & _ & _ & Hidx & _ & _ & Hhand).
    pose proof (same_hands_check (turn_recorded p turn g1)) as Hsame.
    rewrite Hcheck in Hsame; simpl in Hsame.
    destruct Hsame as (_ & _ & _ & _ & Hidx3 & Hhands3).
    rewrite Hstep in *; simpl in *.
    destruct turn as [[|] d].
    + rewrite check_after_recorded_play in Hcheck; discriminate.
    + split; [congruence|]; split; [discriminate|].
      split; [intros b Hb; discriminate|].
      intros Hne; exfalso.
      destruct (Hhands3 p) as [_ H3]; simpl in H3; congruence.
  - (* the turn and the check are through *)
    rewrite Hturn in Ht; simpl in Ht.
    destruct Ht as (_ & _ & _ & Hidx & _ & _ & _).
    pose proof (same_hands_check (turn_recorded p turn g1)) as Hsame.
    rewrite Hcheck in Hsame; simpl in Hsame.
    destruct Hsame as (_ & _ & _ & _ & Hidx3 & _).
    rewrite Hstep in *.
    destruct (PlayerM.is_hand_empty (store g3 p)) eqn:He.
    + rewrite (end_of_turn_hand_empty p g3 He); simpl.
      simpl in Hidx3.
      split; [congruence|]; split; [discriminate|].
      split; [intros b Hb; inversion Hb; now split | intros _; now split].
    + exfalso.
      destruct (same_table_end_of_turn p g3) as (_ & Hstore & _).
      rewrite Hstore in Hempty.
      apply is_hand_empty_nil in Hempty; congruence.
Qed.

Lemma C8_round_ends_on_empty_hand_witness :
  next_player_index (snd (GameM.step before_closing))
  = next_player_index before_closing
  /\ fst (GameM.step before_closing) <> Return true
  /\ (forall b, fst (GameM.step before_closing) = Return b ->
        b = false /\ winner (snd (GameM.step before_closing)) = 3)
  /\ (_dominos (store before_closing 3) <> [] ->
        fst (GameM.step before_closing) = Return false
        /\ winner (snd (GameM.step before_closing)) = 3).
Proof.
  apply (C8_round_ends_on_empty_hand before_closing (p := 3));
    vm_compute; reflexivity.
Defined.

(** A step asked for after the round is over: P4, whose hand is empty,
    passes; the bonus check reaches its last branch and raises while
    removing the [None] of the pass from the board, before the hand is
    tested.  The step does not return [True] here either. *)
Example step_on_a_finished_round :
  fst (GameM.step before_closing) = Return false
  /\ fst (GameM.step (snd (GameM.step before_closing))) = Raise ValueError
  /\ next_player_index (snd (GameM.step (snd (GameM.step before_closing)))) = 3.
Proof. vm_compute; repeat split. Qed.

(** ** A locked board *)

Lemma count_loop (head : Z) (played : list Domino) (acc : nat) :
  fold_left
    (fun count d =>
       let count := if (fst d =? head)%Z then count + 1 else count in
       let count := if (snd d =? head)%Z then count + 1 else count in
       count)
    played acc
  = acc + occurrences head played.
Proof.
  unfold occurrences.
  revert acc; induction played as [|d played IH]; intros acc; simpl; [lia|].
  rewrite IH.
  destruct (Z.eqb_spec (fst d) head), (Z.eqb_spec (snd d) head),
           (Z.eq_dec (fst d) head), (Z.eq_dec (snd d) head);
    try contradiction; lia.
Qed.

Lemma locked_outcome_spec (first : Domino) (rest : list Domino) :
  locked_outcome (first :: rest)
  = Return ((fst first =? snd (last (first :: rest) first))%Z
            && (occurrences (fst first) (first :: rest) =? 8)%nat).
Proof.
  unfold locked_outcome, GameM.is_locked, bind, gets, ret.
  cbn [played_dominos with_played_dominos].
  rewrite count_loop.
  destruct (fst first =? snd (last (first :: rest) first))%Z; [|reflexivity].
  cbn [negb andb Nat.add].
  destruct (occurrences (fst first) (first :: rest) =? 8)%nat; reflexivity.
Qed.

(** Seven and nine occurrences do not lock the board, eight do; an empty
    board cannot be asked. *)
Example locked_needs_exactly_eight :
  locked_outcome [(5, 5); (5, 5); (5, 5); (0, 5)]%Z = Return false
  /\ locked_outcome [(5, 5); (5, 5); (5, 5); (5, 5)]%Z = Return true
  /\ locked_outcome [(5, 5); (5, 5); (5, 5); (5, 5); (0, 5)]%Z = Return false
  /\ locked_outcome [] = Raise IndexError.
Proof. repeat split. Qed.

Lemma end_of_turn_locked (p q : ref) (g : Game) :
  PlayerM.is_hand_empty (store g p) = false ->
  locked_outcome (played_dominos g) = Return true ->
  nth_error (players g) ((next_player_index g + 1) mod length (players g)) = Some q ->
  end_of_turn p g
  = (Return false,
     with_winner
       (if (PlayerM.get_points (store g p) <? PlayerM.get_points (store g q))%Z
        then p else q) g).
Proof.
  intros He Hl Hq.
  unfold end_of_turn, bind, gets.
  rewrite He, is_locked_run, Hl.
  unfold GameM.get_next_player_index, players_at.
  destruct (length (players g)) as [|n] eqn:Hn.
  - destruct (players g); [|discriminate].
    destruct ((next_player_index g + 1) mod 0); discriminate.
  - now rewrite Hq.
Qed.

(** A legal move whose tile is in the hand makes the turn a play. *)
Lemma take_the_turn_plays (p : ref) (g : Game) :
  first_game_round_step g = false ->
  PlayerM.get_legal_moves (store g p) (played_dominos g) <> [] ->
  In (domino (_action_chooser (store g p) (played_dominos g)
                (PlayerM.get_legal_moves (store g p) (played_dominos g))))
     (_dominos (store g p)) ->
  exists tile g1, take_the_turn p g = (Return (true, Some tile), g1).
Proof.
  intros Hfirst Hmoves Hin.
  destruct (take_turn_answer (store g p) (played_dominos g) Hmoves) as [Hplay _].
  destruct (Hplay Hin) as (hand & _ & Hrun).
  unfold take_the_turn, bind, gets, GameM.call_on_player.
  rewrite Hfirst, Hrun; unfold ret; simpl; eauto.
Qed.

(** The seats and the turn order when the end of the turn is reached. *)
Lemma seats_at_end_of_turn (p : ref) (g g1 g3 : Game) (turn : bool * option Domino) :
  take_the_turn p g = (Return turn, g1) ->
  GameM.check_for_bonus_points (turn_recorded p turn g1) = (Return tt, g3) ->
  players g3 = players g /\ next_player_index g3 = next_player_index g.
Proof.
  intros Hturn Hcheck.
  pose proof (take_the_turn_effect p g) as Ht; cbv zeta in Ht.
  rewrite Hturn in Ht; simpl in Ht.
  destruct Ht as (Hp & _ & _ & Hidx & _).
  pose proof (same_hands_check (turn_recorded p turn g1)) as Hsame.
  rewrite Hcheck in Hsame; simpl in Hsame.
  destruct Hsame as (Hp3 & _ & _ & _ & Hidx3 & _).
  simpl in *; split; congruence.
Qed.

(** C5, counterexample.  P4 appends (5,5): both ends of the board show 5,
    which now occurs 8 times, and the board is locked.  P4 (the acting
    player) holds 10 pips and so does P1 (the next player); the winner is
    P1, not P4. *)
Lemma C5_counterexample :
  nth_error (players before_locking) (next_player_index before_locking) = Some 3
  /\ nth_error (players before_locking)
       ((next_player_index before_locking + 1) mod length (players before_locking))
     = Some 0
  /\ fst (GameM.step before_locking) = Return false
  /\ fst (GameM.is_locked (snd (GameM.step before_locking))) = Return true
  /\ PlayerM.get_points (store (snd (GameM.step before_locking)) 3) = 10%Z
  /\ PlayerM.get_points (store (snd (GameM.step before_locking)) 0) = 10%Z
  /\ winner (snd (GameM.step before_locking)) = 0.
Proof. vm_compute; repeat split. Qed.

(** C5, as the code has it.  Let [p] be the player to move, [q] the next
    in turn order, and [first :: rest] the board when the step is over.
    The board is locked exactly when its head equals its tail and that
    value occurs exactly 8 times over the two sides of all placed tiles.
    When it is locked and the hand of [p] is not empty, a step that returns
    returns [False] without advancing the turn index, and the winner is [p]
    if [p] holds strictly fewer pips than [q], and [q] otherwise - so a tie
    goes to the next player; and the step does return whenever the turn
    places a tile of the hand. *)
Theorem C5_locked_board_ends_round
        (g : Game) (p q : ref) (first : Domino) (rest : list Domino) :
  nth_error (players g) (next_player_index g) = Some p ->
  nth_error (players g) ((next_player_index g + 1) mod length (players g)) = Some q ->
  played_dominos (snd (GameM.step g)) = first :: rest ->
  let g' := snd (GameM.step g) in
  let board := first :: rest in
  let locked :=
    ((fst first =? snd (last board first))%Z
     && (occurrences (fst first) board =? 8)%nat) in
  GameM.is_locked g' = (Return locked, g')
  /\ (locked = true <->
      fst first = snd (last board first) /\ occurrences (fst first) board = 8)
  /\ (_dominos (store g' p) <> [] ->
      locked = true ->
      (forall b, fst (GameM.step g) = Return b ->
         b = false
         /\ next_player_index g' = next_player_index g
         /\ winner g'
            = if (PlayerM.get_points (store g' p) <? PlayerM.get_points (store g' q))%Z
              then p else q)
      /\ (first_game_round_step g = false ->
          PlayerM.get_legal_moves (store g p) (played_dominos g) <> [] ->
          In (domino (_action_chooser (store g p) (played_dominos g)
                        (PlayerM.get_legal_moves (store g p) (played_dominos g))))
             (_dominos (store g p)) ->
          fst (GameM.step g) = Return false)).
Proof.
  intros Hp Hq Hboard g' board locked.
  assert (Hlock : GameM.is_locked g' = (Return locked, g')).
  { rewrite is_locked_run; unfold g'; rewrite Hboard.
    now rewrite locked_outcome_spec. }
  split; [exact Hlock|]; split.
  { unfold locked; rewrite andb_true_iff, Z.eqb_eq, Nat.eqb_eq; reflexivity. }
  intros Hhand Hlocked.
  assert (Hout : locked_outcome (played_dominos g') = Return true).
  { rewrite is_locked_run, Hlocked in Hlock; now inversion Hlock. }
  clearbody locked; unfold g' in *; clear g'.
  destruct (step_cases g Hp)
    as [e g1 Hturn Hstep | turn g1 e g3 Hturn Hcheck Hstep
        | turn g1 g3 Hturn Hcheck Hstep].
  - rewrite Hstep; simpl; split; [intros b Hb; discriminate|].
    intros Hfirst Hmoves Hin.
    destruct (take_the_turn_plays p g Hfirst Hmoves Hin) as (tile & g2 & H2).
    congruence.
  - rewrite Hstep; simpl; split; [intros b Hb; discriminate|].
    intros Hfirst Hmoves Hin.
    destruct (take_the_turn_plays p g Hfirst Hmoves Hin) as (tile & g2 & H2).
    rewrite H2 in Hturn; inversion Hturn; subst turn g2.
    rewrite check_after_recorded_play in Hcheck; discriminate.
  - destruct (seats_at_end_of_turn p g Hturn Hcheck) as [Hp3 Hidx3].
    rewrite Hstep in *.
    destruct (same_table_end_of_turn p g3) as (_ & Hstore & Hb3 & _).
    rewrite Hstore in Hhand; rewrite Hb3 in Hout.
    assert (He : PlayerM.is_hand_empty (store g3 p) = false).
    { destruct (PlayerM.is_hand_empty (store g3 p)) eqn:E; [|reflexivity].
      apply is_hand_empty_nil in E; contradiction. }
    rewrite <- Hp3, <- Hidx3 in Hq.
    rewrite (end_of_turn_locked p g3 He Hout Hq); simpl.
    split; [|reflexivity].
    intros b Hb; inversion Hb; auto.
Qed.

Lemma C5_locked_board_ends_round_witness :
  fst (GameM.is_locked (snd (GameM.step before_locking))) = Return true
  /\ fst (GameM.step before_locking) = Return false
  /\ next_player_index (snd (GameM.step before_locking))
     = next_player_index before_locking
  /\ winner (snd (GameM.step before_locking)) = 0.
Proof.
  assert (Hp : nth_error (players before_locking)
                 (next_player_index before_locking) = Some 3)
    by (vm_compute; reflexivity).
  assert (Hq : nth_error (players before_locking)
                 ((next_player_index before_locking + 1)
                    mod length (players before_locking)) = Some 0)
    by (vm_compute; reflexivity).
  assert (Hboard : played_dominos (snd (GameM.step before_locking))
                   = (5, 0)%Z :: locked_rest)
    by (vm_compute; reflexivity).
  destruct (C5_locked_board_ends_round before_locking Hp Hq Hboard)
    as (Hlock & _ & Hend).
  assert (Hhand : _dominos (store (snd (GameM.step before_locking)) 3) <> [])
    by (vm_compute; discriminate).
  destruct (Hend Hhand eq_refl) as [Hreturns Htotal].
  assert (Hfalse : fst (GameM.step before_locking) = Return false).
  { apply Htotal; [reflexivity | vm_compute; discriminate | vm_compute; auto 10]. }
  destruct (Hreturns false Hfalse) as (_ & Hidx & Hw).
  split; [rewrite Hlock; reflexivity|].
  repeat split; assumption.
Defined.

(** ** Teammates hold equal scores *)

Lemma team_awards_refl (g : Game) : team_awards g g.
Proof.
  intros _; split; [reflexivity|].
  exists 0%Z, 0%Z; intros s _; destruct (Nat.even s); lia.
Qed.

Lemma team_awards_trans (g1 g2 g3 : Game) :
  team_awards g1 g2 -> team_awards g2 g3 -> team_awards g1 g3.
Proof.
  intros H12 H23 Hfour.
  destruct (H12 Hfour) as (Hp & a0 & a1 & Ha).
  assert (Hfour2 : four_seats g2) by (unfold four_seats in *; now rewrite Hp).
  destruct (H23 Hfour2) as (Hp' & b0 & b1 & Hb).
  split; [congruence|].
  exists (a0 + b0)%Z, (a1 + b1)%Z; intros s Hs.
  rewrite (Hb s Hs), (Ha s Hs); destruct (Nat.even s); lia.
Qed.

Lemma scores_kept_team_awards (g g' : Game) :
  scores_kept g g' -> team_awards g g'.
Proof.
  intros [Hp Hs] _; split; [exact Hp|].
  exists 0%Z, 0%Z; intros s _; unfold score_at; rewrite Hp.
  destruct (nth_error (players g) s); [rewrite Hs|]; destruct (Nat.even s); lia.
Qed.

Lemma team_awards_give_points (player : ref) (points : Z) :
  preserves team_awards (GameM.give_points_to_team player points).
Proof.
  intros g Hfour.
  destruct (give_points_to_team_four player points Hfour)
    as [[_ ->] | (i & g' & _ & -> & Hframe & Hscores)]; simpl.
  - now apply team_awards_refl.
  - split; [apply Hframe|].
    exists (if Nat.even i then points else 0%Z),
           (if Nat.even i then 0%Z else points).
    intros s Hs; rewrite (Hscores s Hs), Nat.even_add.
    destruct (Nat.even i), (Nat.even s); reflexivity.
Qed.

Lemma team_awards_board_remove (x : option Domino) :
  preserves team_awards (GameM.played_dominos_remove x).
Proof.
  intros g; unfold GameM.played_dominos_remove.
  destruct x as [d|]; [|apply team_awards_refl].
  destruct (PyList.remove Domino_eqb d (played_dominos g));
    [|apply team_awards_refl].
  apply scores_kept_team_awards; split; reflexivity.
Qed.

Lemma team_awards_check : preserves team_awards GameM.check_for_bonus_points.
Proof.
  unfold GameM.check_for_bonus_points, GameM.first_left, GameM.last_right,
    GameM.component.
  repeat first
    [ apply team_awards_give_points
    | apply team_awards_board_remove
    | frame_step team_awards_refl team_awards_trans ].
Qed.

Lemma team_awards_take_the_turn (p : ref) : preserves team_awards (take_the_turn p).
Proof.
  intros g; apply scores_kept_team_awards.
  destruct (take_the_turn_effect p g) as (Hp & _ & _ & _ & Hs & _).
  split; [exact Hp | intros r; apply Hs].
Qed.

Lemma team_awards_end_of_turn (p : ref) : preserves team_awards (end_of_turn p).
Proof.
  intros g; apply scores_kept_team_awards.
  destruct (same_table_end_of_turn p g) as (Hp & Hs & _).
  split; [exact Hp | intros r; now rewrite Hs].
Qed.

Lemma team_awards_step : preserves team_awards GameM.step.
Proof.
  rewrite step_parts.
  repeat first
    [ apply team_awards_take_the_turn
    | apply team_awards_check
    | apply team_awards_end_of_turn
    | apply preserves_modify; intros;
      apply scores_kept_team_awards; split; reflexivity
    | frame_step team_awards_refl team_awards_trans ].
Qed.

Lemma team_awards_update_score : preserves team_awards GameM.update_score.
Proof.
  unfold GameM.update_score.
  repeat first
    [ apply team_awards_give_points
    | frame_step team_awards_refl team_awards_trans ].
Qed.

Lemma teams_equal_after (g g' : Game) :
  four_seats g -> teams_equal g -> team_awards g g' -> teams_equal g'.
Proof.
  intros Hfour [H02 H13] Ha.
  destruct (Ha Hfour) as (_ & n0 & n1 & Hs).
  unfold teams_equal.
  rewrite (Hs 0), (Hs 1), (Hs 2), (Hs 3) by lia; simpl.
  split; congruence.
Qed.

(** C10.  At a table of four distinct players: a team award either fails
    with nothing changed or adds the same amount to both seats of exactly
    one team (seats 0 and 2, or seats 1 and 3) and to nobody else; a step
    and an end-of-round settlement change the scores of the seats only by
    one amount per team.  So when the two members of each team hold equal
    scores, they still do after any award, any step and any settlement,
    whether the call returns or raises. *)
Theorem C10_teammates_keep_equal_scores (g : Game) :
  four_seats g ->
  teams_equal g ->
  (forall player points,
      GameM.give_points_to_team player points g = (Raise ValueError, g)
      \/ exists g' team,
           GameM.give_points_to_team player points g = (Return tt, g')
           /\ team < 2
           /\ (forall s, s < 4 ->
                 score_at g' s
                 = (score_at g s + (if (s mod 2 =? team)%nat then points else 0))%Z)
           /\ (forall r, ~ In r (players g) -> score (store g' r) = score (store g r)))
  /\ (forall player points,
        teams_equal (snd (GameM.give_points_to_team player points g)))
  /\ team_awards g (snd (GameM.step g))
  /\ teams_equal (snd (GameM.step g))
  /\ team_awards g (snd (GameM.update_score g))
  /\ teams_equal (snd (GameM.update_score g)).
Proof.
  intros Hfour Heq.
  split; [|split; [|split; [|split; [|split]]]].
  - intros player points.
    destruct (give_points_to_team_four player points Hfour)
      as [[_ H] | (i & g' & Hi & Hrun & Hframe & Hscores)]; [now left|right].
    assert (Hlt : i < 4).
    { destruct Hfour as [Hl _]; rewrite <- Hl.
      apply nth_error_Some; rewrite Hi; discriminate. }
    exists g', (i mod 2); split; [exact Hrun|].
    split; [apply Nat.mod_upper_bound; lia|]; split.
    + intros s Hs; rewrite (Hscores s Hs), same_team_parity by assumption.
      reflexivity.
    + apply Hframe.
  - intros player points.
    exact (teams_equal_after Hfour Heq (@team_awards_give_points player points g)).
  - apply team_awards_step.
  - exact (teams_equal_after Hfour Heq (@team_awards_step g)).
  - apply team_awards_update_score.
  - exact (teams_equal_after Hfour Heq (@team_awards_update_score g)).
Qed.

Lemma C10_teammates_keep_equal_scores_witness :
  teams_equal (snd (GameM.step opening_played))
  /\ teams_equal (snd (GameM.update_score opening_played)).
Proof.
  assert (Hfour : four_seats opening_played)
    by (split; [reflexivity | exact four_distinct_refs]).
  assert (Heq : teams_equal opening_played) by (split; reflexivity).
  destruct (C10_teammates_keep_equal_scores Hfour Heq)
    as (_ & _ & _ & Hstep & _ & Hsettle).
  split; assumption.
Defined.

(** ** The deal *)

Section SliceFacts.
Variable A : Type.

(** Element [j] of [l[s::k+1]] is element [s + j*(k+1)] of [l]. *)
Lemma nth_error_stride (k s j : nat) (l : list A) :
  nth_error (PyList.stride k s l) j = nth_error l (s + j * S k).
Proof.
  revert s j; induction l as [|x l IH]; intros s j.
  - simpl; destruct j, (s + _); reflexivity.
  - destruct s as [|s]; simpl.
    + destruct j as [|j]; simpl; [reflexivity|]. apply IH.
    + apply IH.
Qed.

(** The four slices [l[0::4]], .., [l[3::4]] share out [l]. *)
Lemma four_slices_perm (l : list A) :
  Permutation (PyList.slice 0 4 l ++ PyList.slice 1 4 l
               ++ PyList.slice 2 4 l ++ PyList.slice 3 4 l) l.
Proof.
  unfold PyList.slice; simpl pred.
  induction l as [|x l IH]; simpl; [constructor|].
  apply perm_skip.
  etransitivity; [|exact IH].
  etransitivity; [apply Permutation_app_comm|].
  rewrite <- !app_assoc; reflexivity.
Qed.
End SliceFacts.

Lemma new_round_parts (shuffle : list Domino -> list Domino) :
  GameM.new_round shuffle
  = (GameM._reset ;; GameM.deal (shuffle GameM.DOMINOS) ;; first_mover).
Proof. reflexivity. Qed.

Lemma same_table_find_double_six (ps : list ref) :
  preserves same_table (GameM.find_double_six ps).
Proof.
  induction ps as [|p ps IH]; simpl.
  - apply (preserves_ret _ same_table_refl).
  - apply (preserves_bind same_table_trans);
      [apply (preserves_gets _ same_table_refl)|].
    intros [|]; [|exact IH].
    apply preserves_modify; intros g; unfold same_table; simpl; auto.
Qed.

Lemma same_table_first_mover : preserves same_table first_mover.
Proof.
  unfold first_mover.
  repeat first
    [ apply same_table_find_double_six
    | apply preserves_modify; intros; unfold same_table; simpl; now auto
    | frame_step same_table_refl same_table_trans ].
Qed.

Lemma reset_run (g : Game) :
  exists g1, GameM._reset g = (Return tt, g1) /\ players g1 = players g.
Proof.
  unfold GameM._reset, bind, modify, gets.
  rewrite for_each_update_player.
  eexists; split; reflexivity.
Qed.

(** Dealing to four distinct players. *)
Lemma deal_four (pool : list Domino) (g : Game) (a b c d : ref) :
  players g = [a; b; c; d] ->
  a <> b -> a <> c -> a <> d -> b <> c -> b <> d -> c <> d ->
  exists g2,
    GameM.deal pool g = (Return tt, g2)
    /\ players g2 = [a; b; c; d]
    /\ _dominos (store g2 a) = PyList.slice 0 4 pool
    /\ _dominos (store g2 b) = PyList.slice 1 4 pool
    /\ _dominos (store g2 c) = PyList.slice 2 4 pool
    /\ _dominos (store g2 d) = PyList.slice 3 4 pool.
Proof.
  intros Hp Hab Hac Had Hbc Hbd Hcd.
  destruct g as [h n k ps w board hist first idx]; simpl in Hp; subst ps.
  eexists; split.
  { cbv [bind GameM.deal modify gets for_each update_player players_at ret
         with_store players store next_ref num_players winner played_dominos
         round_history first_game_round_step next_player_index length seq
         nth_error].
    reflexivity. }
  cbv [players store upd]; same_object.
  repeat split; reflexivity.
Qed.

(** The hands when [new_round] is over, whether it returns or raises. *)
Lemma new_round_hands (shuffle : list Domino -> list Domino) (g : Game) :
  four_seats g ->
  forall s, s < 4 ->
    hand_at (snd (GameM.new_round shuffle g)) s
    = PyList.slice s 4 (shuffle GameM.DOMINOS).
Proof.
  intros Hfour s Hs.
  destruct (four_seats_inv Hfour)
    as (a & b & c & d & Hp & Hab & Hac & Had & Hbc & Hbd & Hcd).
  destruct (reset_run g) as (g1 & Hr & Hp1).
  rewrite Hp in Hp1.
  destruct (deal_four (shuffle GameM.DOMINOS) g1 Hp1 Hab Hac Had Hbc Hbd Hcd)
    as (g2 & Hd & Hp2 & Ha & Hb & Hc & Hdd).
  rewrite new_round_parts; unfold bind; rewrite Hr, Hd.
  destruct (same_table_first_mover g2) as (Hpl & Hst & _).
  unfold hand_at; rewrite Hpl, Hst, Hp2.
  assert (Hs' : s = 0 \/ s = 1 \/ s = 2 \/ s = 3) by lia.
  destruct Hs' as [ -> | [ -> | [ -> | -> ]]]; simpl; assumption.
Qed.

Lemma no_repeat_sound (l : list Domino) : no_repeat l = true -> NoDup l.
Proof.
  induction l as [|d l IH]; simpl; [constructor|].
  rewrite andb_true_iff, negb_true_iff; intros [Hd Hl].
  constructor; [|auto].
  intros Hin.
  assert (H : existsb (Domino_eqb d) l = true).
  { apply existsb_exists; exists d; split; [exact Hin|].
    now apply Domino_eqb_eq. }
  congruence.
Qed.

Lemma DOMINOS_distinct : NoDup GameM.DOMINOS.
Proof. apply no_repeat_sound; vm_compute; reflexivity. Qed.

(** C7.  Let the pool be any shuffle of the 28 tiles and let four distinct
    players be seated.  When [new_round] is over, tile [i] of the pool is
    tile [i / 4] of the hand at seat [i mod 4]; every hand is the slice
    [pool[s::4]] and holds 7 tiles; no tile is in two hands; and the four
    hands together are a rearrangement of the double-six set. *)
Theorem C7_deal_is_round_robin (shuffle : list Domino -> list Domino) (g : Game) :
  Permutation (shuffle GameM.DOMINOS) GameM.DOMINOS ->
  four_seats g ->
  let pool := shuffle GameM.DOMINOS in
  let g' := snd (GameM.new_round shuffle g) in
  (forall i t, nth_error pool i = Some t ->
               nth_error (hand_at g' (i mod 4)) (i / 4) = Some t)
  /\ (forall s, s < 4 ->
        hand_at g' s = PyList.slice s 4 pool /\ length (hand_at g' s) = 7)
  /\ (forall s s' t, s < 4 -> s' < 4 ->
        In t (hand_at g' s) -> In t (hand_at g' s') -> s = s')
  /\ Permutation (hand_at g' 0 ++ hand_at g' 1 ++ hand_at g' 2 ++ hand_at g' 3)
                 GameM.DOMINOS.
Proof.
  intros Hperm Hfour pool g'.
  assert (Hhand : forall s, s < 4 -> hand_at g' s = PyList.slice s 4 pool)
    by (intros s Hs; now apply new_round_hands).
  assert (Hlen : length pool = 28) by (apply Permutation_length in Hperm; exact Hperm).
  assert (Hnd : NoDup pool).
  { apply Permutation_NoDup with (l := GameM.DOMINOS);
      [now symmetry | exact DOMINOS_distinct]. }
  assert (Hnth : forall s j, s < 4 ->
            nth_error (hand_at g' s) j = nth_error pool (s + j * 4)).
  { intros s j Hs; rewrite (Hhand s Hs); apply nth_error_stride. }
  split; [|split; [|split]].
  - intros i t Hi.
    rewrite Hnth by (apply Nat.mod_upper_bound; lia).
    rewrite <- Hi; f_equal.
    pose proof (Nat.div_mod_eq i 4); lia.
  - intros s Hs; split; [now apply Hhand|].
    assert (H7 : length (hand_at g' s) <= 7).
    { apply nth_error_None; rewrite Hnth by assumption.
      apply nth_error_None; lia. }
    assert (H6 : 6 < length (hand_at g' s)).
    { apply nth_error_Some; rewrite Hnth by assumption.
      apply nth_error_Some; lia. }
    lia.
  - intros s s' t Hs Hs' Hin Hin'.
    apply In_nth_error in Hin; destruct Hin as [j Hj].
    apply In_nth_error in Hin'; destruct Hin' as [j' Hj'].
    rewrite Hnth in Hj, Hj' by assumption.
    assert (Hlt : s + j * 4 < length pool)
      by (apply nth_error_Some; rewrite Hj; discriminate).
    assert (E : s + j * 4 = s' + j' * 4).
    { apply (proj1 (NoDup_nth_error pool) Hnd); [exact Hlt | congruence]. }
    lia.
  - rewrite !Hhand by lia.
    etransitivity; [apply four_slices_perm | exact Hperm].
Qed.

Lemma C7_deal_is_round_robin_witness :
  (forall s, s < 4 ->
     hand_at (snd (GameM.new_round (fun _ => Rounds.locking_pool)
                     (Rounds.after Rounds.closing_pool 28))) s
     = PyList.slice s 4 Rounds.locking_pool
     /\ length (hand_at (snd (GameM.new_round (fun _ => Rounds.locking_pool)
                                (Rounds.after Rounds.closing_pool 28))) s) = 7)
  /\ Permutation
       (hand_at (snd (GameM.new_round (fun _ => Rounds.locking_pool)
                        (Rounds.after Rounds.closing_pool 28))) 0
        ++ hand_at (snd (GameM.new_round (fun _ => Rounds.locking_pool)
                           (Rounds.after Rounds.closing_pool 28))) 1
        ++ hand_at (snd (GameM.new_round (fun _ => Rounds.locking_pool)
                           (Rounds.after Rounds.closing_pool 28))) 2
        ++ hand_at (snd (GameM.new_round (fun _ => Rounds.locking_pool)
                           (Rounds.after Rounds.closing_pool 28))) 3)
       GameM.DOMINOS.
Proof.
  assert (Hfour : four_seats (Rounds.after Rounds.closing_pool 28))
    by (split; [vm_compute; reflexivity | exact four_distinct_refs]).
  destruct (C7_deal_is_round_robin (fun _ => Rounds.locking_pool)
              locking_pool_shuffled Hfour) as (_ & Hslices & _ & Hall).
  split; assumption.
Defined.

(** ** A new game *)

Lemma reset_keeps_score (ps : list ref) (h : Store) (r : ref) :
  score (fold_left (fun h p => upd h p (PlayerM.reset (h p))) ps h r)
  = score (h r).
Proof.
  revert h; induction ps as [|p ps IH]; intros h; simpl; [reflexivity|].
  rewrite IH; unfold upd.
  destruct (Nat.eqb_spec r p) as [ -> | ]; reflexivity.
Qed.

Lemma reset_eq (g : Game) :
  GameM._reset g
  = (Return tt,
     with_store
       (fold_left (fun h p => upd h p (PlayerM.reset (h p))) (players g) (store g))
       (with_round_history [] (with_played_dominos [] g))).
Proof.
  unfold GameM._reset, bind, modify, gets.
  now rewrite for_each_update_player.
Qed.

(** The tail of [new_game], once the list of players is fixed. *)
Lemma new_game_seats (ps : list ref) (g : Game) :
  ps <> [] ->
  exists g',
    (modify (with_players ps) ;;
     GameM._reset ;;
     p0 <- players_at 0 ;;
     modify (with_winner p0) ;;
     modify (with_first_game_round_step true)) g = (Return tt, g')
    /\ players g' = ps
    /\ first_game_round_step g' = true
    /\ (forall r, score (store g' r) = score (store g r)).
Proof.
  intros Hne; destruct ps as [|p0 ps]; [contradiction|].
  unfold bind at 1; unfold modify at 1.
  unfold bind at 1; rewrite reset_eq.
  unfold bind, players_at, modify; simpl.
  eexists; split; [reflexivity|]; simpl.
  repeat split.
  intros r; apply (reset_keeps_score (p0 :: ps)).
Qed.

(** The default players are new objects with score 0. *)
Lemma default_players_spec (chooser : ActionChooser) (n i : nat) (g : Game) :
  exists g',
    GameM.default_players chooser i n g = (Return (seq (next_ref g) n), g')
    /\ forall p, next_ref g <= p < next_ref g + n -> score (store g' p) = 0%Z.
Proof.
  revert i g; induction n as [|n IH]; intros i g; simpl.
  - exists g; split; [reflexivity | intros p Hp; lia].
  - unfold bind, GameM.new_Player.
    destruct (IH (S i)
                (with_next_ref (S (next_ref g))
                   (with_store
                      (upd (store g) (next_ref g)
                         (PlayerM.init (GameM.default_name i) chooser)) g)))
      as (g' & Hrun & Hscore).
    rewrite Hrun; simpl in *.
    exists g'; split; [reflexivity|].
    intros p Hp.
    destruct (Nat.eq_dec p (next_ref g)) as [ -> | Hne].
    + clear Hscore Hp.
      (* the object just made is not touched by the later ones *)
      revert Hrun; generalize (S i); intros i' Hrun.
      assert (Hkeep : forall m j g1 g2 l q,
                 GameM.default_players chooser j m g1 = (Return l, g2) ->
                 q < next_ref g1 -> store g2 q = store g1 q).
      { clear; induction m as [|m IHm]; intros j g1 g2 l q; simpl.
        - intros H _; inversion H; reflexivity.
        - unfold bind, GameM.new_Player.
          destruct (GameM.default_players chooser (S j) m _) as [[l'|e] g3] eqn:E;
            [|discriminate].
          intros H Hq; inversion H; subst.
          rewrite (IHm _ _ _ _ q E) by (simpl; lia).
          simpl; unfold upd.
          destruct (Nat.eqb_spec q (next_ref g1)); [lia|reflexivity]. }
      rewrite (Hkeep _ _ _ _ _ (next_ref g) Hrun) by (simpl; lia).
      simpl; unfold upd; now rewrite Nat.eqb_refl.
    + apply Hscore; lia.
Qed.

(** C9, counterexample.  A second game started with the same four players
    finds P1 and P3 at 75 points and leaves them there. *)
Lemma C9_counterexample :
  Fixture.scores_of round_settled = [75; 0; 75; 0]%Z
  /\ fst (GameM.new_game Fixture.first_move (fun l => l)
            (Some [0; 1; 2; 3]) false round_settled) = Return tt
  /\ Fixture.scores_of
       (snd (GameM.new_game Fixture.first_move (fun l => l)
               (Some [0; 1; 2; 3]) false round_settled))
     = [75; 0; 75; 0]%Z
  /\ first_game_round_step
       (snd (GameM.new_game Fixture.first_move (fun l => l)
               (Some [0; 1; 2; 3]) false round_settled)) = true.
Proof. vm_compute; repeat split. Qed.

(** C9, as the code has it.  [new_game] sets the first-round flag and
    writes no score.  Called with a non-empty list of players it returns,
    seats exactly those players (in the order given, or shuffled) and
    leaves every score as it was; called without a list it makes
    [num_players] new players, whose scores are 0. *)
Theorem C9_new_game_writes_no_score
        (random_chooser : ActionChooser) (shuffle : list ref -> list ref)
        (g : Game) (supplied : list ref) (shuffle_players : bool) :
  (forall l, Permutation (shuffle l) l) ->
  supplied <> [] ->
  0 < num_players g ->
  let with_list :=
    GameM.new_game random_chooser shuffle (Some supplied) shuffle_players g in
  let without_list :=
    GameM.new_game random_chooser shuffle None shuffle_players g in
  (fst with_list = Return tt
   /\ Permutation (players (snd with_list)) supplied
   /\ (forall r, score (store (snd with_list) r) = score (store g r))
   /\ first_game_round_step (snd with_list) = true)
  /\ (fst without_list = Return tt
      /\ length (players (snd without_list)) = num_players g
      /\ (forall p, In p (players (snd without_list)) ->
                    score (store (snd without_list) p) = 0%Z)
      /\ first_game_round_step (snd without_list) = true).
Proof.
  intros Hshuffle Hne Hnum with_list without_list.
  assert (Hshuffled : forall l : list ref,
             l <> [] -> (if shuffle_players then shuffle l else l) <> []).
  { intros l Hl; destruct shuffle_players; [|exact Hl].
    intros E; specialize (Hshuffle l); rewrite E in Hshuffle.
    apply Permutation_nil in Hshuffle; contradiction. }
  split.
  - destruct (new_game_seats g (Hshuffled supplied Hne))
      as (g' & Hrun & Hp & Hflag & Hscore).
    assert (E : with_list = (Return tt, g')).
    { unfold with_list, GameM.new_game.
      unfold bind at 1; unfold ret at 1; exact Hrun. }
    rewrite E; simpl.
    repeat split; try assumption.
    rewrite Hp; destruct shuffle_players; [apply Hshuffle | reflexivity].
  - destruct (default_players_spec random_chooser (num_players g) 0 g)
      as (g1 & Hmake & Hzero).
    assert (Hseq : seq (next_ref g) (num_players g) <> []).
    { destruct (num_players g); [lia | discriminate]. }
    destruct (new_game_seats g1 (Hshuffled _ Hseq))
      as (g' & Hrun & Hp & Hflag & Hscore).
    assert (E : without_list = (Return tt, g')).
    { unfold without_list, GameM.new_game.
      unfold bind at 1; unfold bind at 1; unfold gets at 1.
      rewrite Hmake; exact Hrun. }
    rewrite E; simpl.
    split; [reflexivity|]; split; [|split; [|exact Hflag]].
    + rewrite Hp; destruct shuffle_players; [|apply length_seq].
      rewrite (Permutation_length (Hshuffle _)); apply length_seq.
    + intros p Hin; rewrite Hscore; apply Hzero.
      rewrite Hp in Hin.
      assert (Hin' : In p (seq (next_ref g) (num_players g))).
      { destruct shuffle_players; [|exact Hin].
        eapply Permutation_in; [apply Hshuffle | exact Hin]. }
      apply in_seq in Hin'; lia.
Qed.

Lemma C9_new_game_writes_no_score_witness :
  fst (GameM.new_game Fixture.first_move (fun l => l)
         (Some [0; 1; 2; 3]) false round_settled) = Return tt
  /\ Permutation
       (players (snd (GameM.new_game Fixture.first_move (fun l => l)
                        (Some [0; 1; 2; 3]) false round_settled)))
       [0; 1; 2; 3]
  /\ (forall r,
        score (store (snd (GameM.new_game Fixture.first_move (fun l => l)
                             (Some [0; 1; 2; 3]) false round_settled)) r)
        = score (store round_settled r))
  /\ first_game_round_step
       (snd (GameM.new_game Fixture.first_move (fun l => l)
               (Some [0; 1; 2; 3]) false round_settled)) = true.
Proof.
  assert (Hshuffle : forall l : list ref, Permutation ((fun l => l) l) l)
    by (intros l; reflexivity).
  assert (Hne : [0; 1; 2; 3] <> []) by discriminate.
  assert (Hnum : 0 < num_players round_settled) by (vm_compute; lia).
  exact (proj1 (C9_new_game_writes_no_score Fixture.first_move (fun l => l)
                  round_settled false Hshuffle Hne Hnum)).
Defined.


(** * Further properties of the engine *)

(** ** A turn that plays an offered move *)

Lemma chain_app_one (played : list Domino) (d d0 : Domino) :
  chain played ->
  (played = [] \/ snd (last played d0) = fst d) ->
  chain (played ++ [d]).
Proof.
  induction played as [|x rest IH]; intros Hc Hfit; [exact I|].
  destruct rest as [|y rest'].
  - destruct Hfit as [H|H]; [discriminate|]; simpl in *; auto.
  - destruct Hc as [Hxy Hc].
    change ((x :: y :: rest') ++ [d]) with (x :: (y :: rest') ++ [d]).
    change (snd x = fst y /\ chain ((y :: rest') ++ [d])).
    split; [exact Hxy|].
    apply IH; [exact Hc|].
    right; destruct Hfit as [H|H]; [discriminate | exact H].
Qed.

Lemma chain_cons (played : list Domino) (d d0 : Domino) :
  chain played ->
  (played = [] \/ snd d = fst (hd d0 played)) ->
  chain (d :: played).
Proof.
  destruct played as [|x rest]; intros Hc Hfit; [exact I|].
  destruct Hfit as [H|H]; [discriminate|]; split; assumption.
Qed.

(** An offered move names a tile of the hand, and on a board that is not
    empty its tile, as placed, matches the end it goes to. *)
Lemma offered_move_fits (self : Player) (played : list Domino) (a : Action) :
  In a (PlayerM.get_legal_moves self played) ->
  In (domino a) (_dominos self)
  /\ forall first rest,
       played = first :: rest ->
       if insert_end a
       then fst (place a) = snd (last played first)
       else snd (place a) = fst first.
Proof.
  destruct played as [|first rest]; intros Hin.
  - simpl in Hin; apply in_map_iff in Hin.
    destruct Hin as (d & <- & Hd); split; [exact Hd|].
    intros first rest H; discriminate.
  - rewrite get_legal_moves_nonempty in Hin.
    apply in_flat_map in Hin; destruct Hin as (d & Hd & Ha).
    apply tile_moves_In in Ha; destruct Ha as [Hdom Hc].
    split; [now rewrite Hdom|].
    intros first' rest' E; inversion E; subst first' rest'.
    unfold place; rewrite Hdom.
    destruct Hc as [(-> & -> & H) | [(-> & -> & H) | [(-> & -> & H) | (-> & -> & H)]]];
      simpl; exact H.
Qed.

Lemma canon_reversed (d : Domino) : canon (reversed d) = canon d.
Proof.
  destruct d as [a b]; unfold canon, reversed; simpl.
  destruct (Z.leb_spec a b), (Z.leb_spec b a); simpl; try reflexivity;
    try lia.
  assert (a = b) by lia; subst; reflexivity.
Qed.

Lemma canon_place (a : Action) : canon (place a) = canon (domino a).
Proof. unfold place; destruct (flip a); [apply canon_reversed | reflexivity]. Qed.

Lemma pips_perm (l l' : list Domino) : Permutation l l' -> pips l = pips l'.
Proof.
  unfold pips; intros H; induction H; simpl; lia.
Qed.

Lemma sum_loop (l : list Z) (a : Z) :
  fold_left Z.add l a = (a + fold_right Z.add 0 l)%Z.
Proof.
  revert a; induction l as [|x l IH]; intros a; simpl; [lia|].
  rewrite IH; lia.
Qed.

Lemma get_points_pips (self : Player) :
  PlayerM.get_points self = pips (_dominos self).
Proof. unfold PlayerM.get_points, pips; now rewrite sum_loop. Qed.

(** What [take_turn] does when the chooser's answer is one of the offered
    moves. *)
Lemma take_turn_offered (self : Player) (played : list Domino) :
  let moves := PlayerM.get_legal_moves self played in
  let move := _action_chooser self played moves in
  moves <> [] ->
  In move moves ->
  exists hand,
    PlayerM.take_turn self played
    = (Return (true, attach move played, Some (place move)),
       (set_dominos self hand, attach move played))
    /\ Permutation (_dominos self) (domino move :: hand).
Proof.
  intros moves move Hne Hin.
  destruct (offered_move_fits self played move Hin) as [Hhand _].
  destruct (take_turn_answer self played Hne) as [Hplay _].
  destruct (Hplay Hhand) as (hand & Hperm & Hrun).
  exists hand; split; [exact Hrun | exact Hperm].
Qed.

Lemma attach_chain (self : Player) (played : list Domino) (a : Action) :
  In a (PlayerM.get_legal_moves self played) ->
  chain played ->
  chain (attach a played).
Proof.
  intros Hin Hc.
  destruct (offered_move_fits self played a Hin) as [_ Hfit].
  unfold attach.
  destruct played as [|first rest].
  - destruct (insert_end a); exact I.
  - specialize (Hfit first rest eq_refl).
    destruct (insert_end a).
    + apply chain_app_one with (d0 := first); [exact Hc|].
      right; symmetry; exact Hfit.
    + apply chain_cons with (d0 := first); [exact Hc|].
      right; exact Hfit.
Qed.

Lemma attach_tiles (a : Action) (played : list Domino) :
  Permutation (map canon (attach a played)) (canon (domino a) :: map canon played).
Proof.
  unfold attach; destruct (insert_end a).
  - rewrite map_app; simpl; rewrite canon_place.
    symmetry; apply Permutation_cons_append.
  - simpl; now rewrite canon_place.
Qed.

(** X1.  When the chooser answers with one of the moves it was offered,
    [take_turn] raises nothing and reports a play: the chosen tile, turned
    as the Action says, is attached at the chosen end, one copy of it
    leaves the hand, the tiles of hand and board together are those of
    before, and the pips in the hand drop by the pips of that tile. *)
Theorem X1_offered_move_is_played (self : Player) (played : list Domino) :
  let moves := PlayerM.get_legal_moves self played in
  let move := _action_chooser self played moves in
  moves <> [] ->
  In move moves ->
  exists hand,
    PlayerM.take_turn self played
    = (Return (true, attach move played, Some (place move)),
       (set_dominos self hand, attach move played))
    /\ Permutation (_dominos self) (domino move :: hand)
    /\ length (attach move played) = S (length played)
    /\ Permutation (map canon (hand ++ attach move played))
                   (map canon (_dominos self ++ played))
    /\ PlayerM.get_points (set_dominos self hand)
       = (PlayerM.get_points self - (fst (domino move) + snd (domino move)))%Z.
Proof.
  intros moves move Hne Hin.
  destruct (take_turn_offered self played Hne Hin) as (hand & Hrun & Hperm).
  exists hand; split; [exact Hrun|]; split; [exact Hperm|]; split; [|split].
  - unfold attach; destruct (insert_end move); simpl; [|reflexivity].
    rewrite length_app; simpl; lia.
  - rewrite !map_app.
    rewrite (Permutation_map canon Hperm); simpl.
    rewrite attach_tiles.
    rewrite <- Permutation_middle; reflexivity.
  - rewrite !get_points_pips; simpl.
    rewrite (pips_perm Hperm); unfold pips, move, moves; simpl; lia.
Qed.

Lemma X1_offered_move_is_played_witness :
  exists hand,
    PlayerM.take_turn fair_player [(3, 4)%Z]
    = (Return (true, [(5, 3); (3, 4)]%Z, Some (5, 3)%Z),
       (set_dominos fair_player hand, [(5, 3); (3, 4)]%Z))
    /\ Permutation (_dominos fair_player) ((3, 5)%Z :: hand)
    /\ length [(5, 3); (3, 4)]%Z = 2
    /\ Permutation (map canon (hand ++ [(5, 3); (3, 4)]%Z))
                   (map canon (_dominos fair_player ++ [(3, 4)%Z]))
    /\ PlayerM.get_points (set_dominos fair_player hand)
       = (PlayerM.get_points fair_player - (3 + 5))%Z.
Proof.
  apply (X1_offered_move_is_played fair_player [(3, 4)%Z]).
  - simpl; discriminate.
  - simpl; auto.
Defined.

(** X2.  A turn keeps the board a chain: when every tile on the board
    continues the one before it and the chooser answers with an offered
    move, the same holds of the board the turn leaves. *)
Theorem X2_turn_keeps_the_chain (self : Player) (played : list Domino) :
  let moves := PlayerM.get_legal_moves self played in
  chain played ->
  (moves <> [] -> In (_action_chooser self played moves) moves) ->
  chain (snd (snd (PlayerM.take_turn self played))).
Proof.
  intros moves Hc Hoffer.
  destruct moves as [|m ms] eqn:E.
  - unfold PlayerM.take_turn; fold moves; rewrite E; exact Hc.
  - assert (Hne : PlayerM.get_legal_moves self played <> [])
      by (fold moves; rewrite E; discriminate).
    assert (Hin : In (_action_chooser self played (PlayerM.get_legal_moves self played))
                     (PlayerM.get_legal_moves self played)).
    { fold moves; rewrite E; apply Hoffer; discriminate. }
    destruct (take_turn_offered self played Hne Hin) as (hand & Hrun & _).
    rewrite Hrun; simpl.
    now apply attach_chain with (self := self).
Qed.

Lemma X2_turn_keeps_the_chain_witness :
  chain (snd (snd (PlayerM.take_turn fair_player [(3, 4)%Z]))).
Proof.
  apply (X2_turn_keeps_the_chain fair_player [(3, 4)%Z]).
  - exact I.
  - intros _; simpl; auto.
Defined.

(** ** The choosers *)

Lemma subscript_In (A : Type) (l : list A) (i : Z) (x : A) :
  Chooser.subscript l i = Return x -> In x l.
Proof.
  unfold Chooser.subscript.
  destruct (_ || _); [discriminate|].
  destruct (nth_error l _) as [y|] eqn:E; [|discriminate].
  intros H; inversion H; subst; eapply nth_error_In; exact E.
Qed.

Lemma random_answers_from_offer (shuffle : list Action -> list Action) :
  (forall l, Permutation (shuffle l) l) ->
  answers_from_offer (Chooser.as_chooser (Chooser.random_choose_action shuffle)).
Proof.
  intros Hs played moves Hne.
  unfold Chooser.as_chooser.
  destruct (Chooser.random_choose_action shuffle played moves) as [a|e] eqn:E.
  - apply subscript_In in E.
    eapply Permutation_in; [apply Hs | exact E].
  - destruct moves; [contradiction | now left].
Qed.

(** X3.  [ActionChooser_Random] answers with one of the offered moves when
    there is one and raises [IndexError] on an empty offer; so the turn of
    a player who chooses at random never raises. *)
Theorem X3_random_chooser_is_safe
        (shuffle : list Action -> list Action) (self : Player) (played : list Domino) :
  (forall l, Permutation (shuffle l) l) ->
  _action_chooser self = Chooser.as_chooser (Chooser.random_choose_action shuffle) ->
  (forall moves,
      moves <> [] ->
      exists a, Chooser.random_choose_action shuffle played moves = Return a
                /\ In a moves)
  /\ Chooser.random_choose_action shuffle played [] = Raise IndexError
  /\ exists result, fst (PlayerM.take_turn self played) = Return result.
Proof.
  intros Hs Hc; split; [|split].
  - intros moves Hne.
    unfold Chooser.random_choose_action, Chooser.subscript.
    destruct (shuffle moves) as [|a l] eqn:E.
    + exfalso; specialize (Hs moves); rewrite E in Hs.
      apply Permutation_nil in Hs; contradiction.
    + simpl length; simpl.
      replace (Z.pos (Pos.of_succ_nat (length l)) <=? 0)%Z with false
        by (symmetry; apply Z.leb_gt; lia).
      simpl; exists a; split; [reflexivity|].
      eapply Permutation_in; [apply Hs | rewrite E; now left].
  - unfold Chooser.random_choose_action, Chooser.subscript.
    specialize (Hs []); apply Permutation_sym, Permutation_nil in Hs.
    rewrite Hs; reflexivity.
  - destruct (PlayerM.get_legal_moves self played) as [|m ms] eqn:E.
    + unfold PlayerM.take_turn; rewrite E; simpl; eauto.
    + assert (Hne : PlayerM.get_legal_moves self played <> [])
        by (rewrite E; discriminate).
      assert (Hin : In (_action_chooser self played (PlayerM.get_legal_moves self played))
                       (PlayerM.get_legal_moves self played)).
      { rewrite Hc; apply random_answers_from_offer; assumption. }
      destruct (take_turn_offered self played Hne Hin) as (hand & Hrun & _).
      rewrite Hrun; simpl; eauto.
Qed.

Lemma X3_random_chooser_is_safe_witness :
  exists result,
    fst (PlayerM.take_turn
           (mkPlayer "P1" [(3, 5); (1, 2)]%Z
              (Chooser.as_chooser (Chooser.random_choose_action (@rev Action))) 0)
           [(3, 4)%Z]) = Return result.
Proof.
  refine (proj2 (proj2 (@X3_random_chooser_is_safe (@rev Action)
                          (mkPlayer "P1" [(3, 5); (1, 2)]%Z
                             (Chooser.as_chooser
                                (Chooser.random_choose_action (@rev Action))) 0)
                          [(3, 4)%Z] _ eq_refl))).
  intros l; symmetry; apply Permutation_rev.
Defined.

(** X4.  [ActionChooser_Player] with the number [index] typed in and [n]
    moves on offer answers exactly when [-n < index <= n], and then with
    move number [(index - 1) mod n] counted from 0: the numbers 1..n pick
    the listed move, 0 picks the last one and negative numbers count
    backwards from it.  Every other number raises [IndexError], and so
    does every number on an empty offer. *)
Theorem X4_typed_index_wraps_around
        (index : Z) (played : list Domino) (moves : list Action) :
  let n := Z.of_nat (length moves) in
  ((- n < index <= n)%Z ->
     exists a,
       Chooser.player_choose_action index played moves = Return a
       /\ nth_error moves (Z.to_nat ((index - 1) mod n)) = Some a
       /\ In a moves)
  /\ (~ (- n < index <= n)%Z ->
        Chooser.player_choose_action index played moves = Raise IndexError).
Proof.
  intros n; unfold Chooser.player_choose_action, Chooser.subscript; fold n.
  cbv zeta.
  assert (Hlen : forall k, (0 <= k < n)%Z ->
            exists a, nth_error moves (Z.to_nat k) = Some a).
  { intros k Hk; destruct (nth_error moves (Z.to_nat k)) as [a|] eqn:E; [eauto|].
    exfalso; apply nth_error_None in E; unfold n in *; lia. }
  destruct (Z.ltb_spec (index - 1) 0) as [Hneg|Hpos]; cbv iota.
  - destruct (Z.ltb_spec (n + (index - 1)) 0) as [H1|H1];
      destruct (Z.leb_spec n (n + (index - 1))) as [H2|H2]; simpl;
      try (split; [intros Hr; exfalso; lia | reflexivity]).
    split; [|intros Hr; exfalso; lia].
    intros Hr.
    assert (Hn : (0 < n)%Z) by lia.
    replace ((index - 1) mod n)%Z with (n + (index - 1))%Z
      by (apply Z.mod_unique with (q := (-1)%Z); lia).
    destruct (Hlen (n + (index - 1))%Z) as [a Ha]; [lia|].
    rewrite Ha; exists a; repeat split.
    eapply nth_error_In; exact Ha.
  - rewrite (proj2 (Z.ltb_ge (index - 1) 0) Hpos).
    destruct (Z.leb_spec n (index - 1)) as [H2|H2]; simpl;
      try (split; [intros Hr; exfalso; lia | reflexivity]).
    split; [|intros Hr; exfalso; lia].
    intros Hr.
    rewrite Z.mod_small by lia.
    destruct (Hlen (index - 1)%Z) as [a Ha]; [lia|].
    rewrite Ha; exists a; repeat split.
    eapply nth_error_In; exact Ha.
Qed.

(** ** Looking a player up by name *)

Lemma filter_first (A : Type) (f : A -> bool) (before after : list A) (x : A) :
  (forall y, In y before -> f y = false) ->
  f x = true ->
  filter f (before ++ x :: after) = x :: filter f after.
Proof.
  intros Hb Hx; induction before as [|y before IH]; simpl.
  - now rewrite Hx.
  - rewrite (Hb y) by now left.
    apply IH; intros z Hz; apply Hb; now right.
Qed.

Lemma filter_none (A : Type) (f : A -> bool) (l : list A) :
  (forall y, In y l -> f y = false) -> filter f l = [].
Proof.
  induction l as [|y l IH]; intros H; simpl; [reflexivity|].
  rewrite (H y) by now left.
  apply IH; intros z Hz; apply H; now right.
Qed.

Lemma get_player_by_name_first (g : Game) (name : string)
      (before after : list ref) (p : ref) :
  players g = before ++ p :: after ->
  _name (store g p) = name ->
  (forall q, In q before -> _name (store g q) <> name) ->
  GameM.get_player_by_name name g = (Return p, g).
Proof.
  intros Hp Hn Hb; unfold GameM.get_player_by_name; rewrite Hp.
  rewrite filter_first; [reflexivity | | now apply String.eqb_eq].
  intros q Hq; apply String.eqb_neq; now apply Hb.
Qed.

(** With distinct names, the name of a seated player leads back to that
    player. *)
Lemma get_player_by_name_own (g : Game) (p : ref) :
  NoDup (map (fun q => _name (store g q)) (players g)) ->
  In p (players g) ->
  GameM.get_player_by_name (_name (store g p)) g = (Return p, g).
Proof.
  intros Hnd Hin.
  apply in_split in Hin; destruct Hin as (before & after & Hp).
  eapply get_player_by_name_first; [exact Hp | reflexivity | ].
  intros q Hq E.
  rewrite Hp, map_app in Hnd; simpl in Hnd.
  apply NoDup_remove_2 in Hnd; apply Hnd.
  apply in_or_app; left.
  rewrite <- E; apply (in_map (fun q => _name (store g q))); exact Hq.
Qed.

(** X5.  [get_player_by_name] returns the first seated player who bears
    the name and changes nothing; when nobody bears it, it raises
    [IndexError]; and when the seated players bear distinct names, the
    name of each of them leads back to that very player. *)
Theorem X5_lookup_by_name (g : Game) (name : string) :
  (forall before after p,
      players g = before ++ p :: after ->
      _name (store g p) = name ->
      (forall q, In q before -> _name (store g q) <> name) ->
      GameM.get_player_by_name name g = (Return p, g))
  /\ ((forall q, In q (players g) -> _name (store g q) <> name) ->
      GameM.get_player_by_name name g = (Raise IndexError, g))
  /\ (NoDup (map (fun q => _name (store g q)) (players g)) ->
      forall p, In p (players g) ->
                GameM.get_player_by_name (_name (store g p)) g = (Return p, g)).
Proof.
  split; [|split].
  - intros before after p; apply get_player_by_name_first.
  - intros Hno; unfold GameM.get_player_by_name.
    rewrite filter_none; [reflexivity|].
    intros q Hq; apply String.eqb_neq; now apply Hno.
  - intros Hnd p; now apply get_player_by_name_own.
Qed.

(** ** The settlement at the end of a round *)

(** The pips held at the four seats. *)
Lemma update_score_total (g : Game) (a b c d : ref) :
  players g = [a; b; c; d] ->
  fold_left Z.add (map (fun p => PlayerM.get_points (store g p)) (players g)) 0%Z
  = (pips (hand_at g 0) + pips (hand_at g 1)
     + pips (hand_at g 2) + pips (hand_at g 3))%Z.
Proof.
  intros Hp; unfold hand_at; rewrite Hp; simpl.
  rewrite !get_points_pips; lia.
Qed.

Lemma seat_of_winner (g : Game) (i j : nat) :
  NoDup (players g) ->
  nth_error (players g) i = Some (winner g) ->
  nth_error (players g) j = Some (winner g) ->
  i = j.
Proof.
  intros Hnd Hi Hj.
  apply (proj1 (NoDup_nth_error (players g)) Hnd); [|congruence].
  apply nth_error_Some; rewrite Hi; discriminate.
Qed.

(** X6.  At a table of four with the round winner at seat [i],
    [update_score] returns and adds the pips left in all four hands to
    the scores of the two seats of the winner's team; the other team's
    scores, the hands, the board and the turn order stay as they are.
    With a winner who holds no seat it raises [ValueError] and changes
    nothing. *)
Theorem X6_settlement_pays_all_pips (g : Game) :
  four_seats g ->
  let total := (pips (hand_at g 0) + pips (hand_at g 1)
                + pips (hand_at g 2) + pips (hand_at g 3))%Z in
  (forall i,
      nth_error (players g) i = Some (winner g) ->
      exists g',
        GameM.update_score g = (Return tt, g')
        /\ only_scores_differ g g'
        /\ forall s, s < 4 ->
             score_at g' s
             = (score_at g s + (if Nat.even (i + s) then total else 0))%Z)
  /\ (~ In (winner g) (players g) ->
      GameM.update_score g = (Raise ValueError, g)).
Proof.
  intros Hfour total.
  destruct (four_seats_inv Hfour) as (a & b & c & d & Hp & _).
  assert (Hrun : GameM.update_score g
                 = GameM.give_points_to_team (winner g) total g).
  { unfold GameM.update_score, bind, gets.
    now rewrite (update_score_total g Hp). }
  rewrite Hrun.
  destruct (give_points_to_team_four (winner g) total Hfour)
    as [[Hn Hraise] | (j & g' & Hj & Hret & Hframe & Hscores)].
  - split; [|intros _; exact Hraise].
    intros i Hi; exfalso; apply Hn; eapply nth_error_In; exact Hi.
  - split.
    + intros i Hi.
      assert (i = j) by (eapply seat_of_winner; [apply Hfour | eassumption..]).
      subst j; exists g'; repeat split; try assumption; apply Hframe.
    + intros Hn; exfalso; apply Hn; eapply nth_error_In; exact Hj.
Qed.

Lemma X6_settlement_pays_all_pips_witness :
  exists g',
    GameM.update_score (Rounds.after Rounds.locking_pool 22) = (Return tt, g')
    /\ only_scores_differ (Rounds.after Rounds.locking_pool 22) g'
    /\ forall s, s < 4 ->
         score_at g' s
         = (score_at (Rounds.after Rounds.locking_pool 22) s
            + (if Nat.even (0 + s)
               then pips (hand_at (Rounds.after Rounds.locking_pool 22) 0)
                    + pips (hand_at (Rounds.after Rounds.locking_pool 22) 1)
                    + pips (hand_at (Rounds.after Rounds.locking_pool 22) 2)
                    + pips (hand_at (Rounds.after Rounds.locking_pool 22) 3)
               else 0))%Z.
Proof.
  assert (Hfour : four_seats (Rounds.after Rounds.locking_pool 22))
    by (split; [vm_compute; reflexivity | exact four_distinct_refs]).
  apply (proj1 (X6_settlement_pays_all_pips Hfour) 0).
  vm_compute; reflexivity.
Defined.

(** ** When the bonus check awards *)

Lemma last_four_of (A : Type) (before : list A) (t0 t1 t2 t3 : A) :
  PyList.last_n 4 (before ++ [t0; t1; t2; t3]) = [t0; t1; t2; t3].
Proof.
  unfold PyList.last_n; rewrite length_app; simpl.
  replace (length before + 4 - 4) with (length before) by lia.
  rewrite skipn_app, skipn_all, Nat.sub_diag; reflexivity.
Qed.

Lemma last_four_inv (A : Type) (l : list A) (t0 t1 t2 t3 : A) :
  PyList.last_n 4 l = [t0; t1; t2; t3] ->
  exists before, l = before ++ [t0; t1; t2; t3].
Proof.
  unfold PyList.last_n; intros H.
  exists (firstn (length l - 4) l).
  now rewrite <- H, firstn_skipn.
Qed.

(** The check on a history that ends in a play and three passes. *)
Lemma check_play_then_three_passes
      (g : Game) (before : list TurnDataPoint) (t0 t1 t2 t3 : TurnDataPoint)
      (passer player : ref) :
  round_history g = before ++ [t0; t1; t2; t3] ->
  did_play t0 = true -> did_play t1 = false ->
  did_play t2 = false -> did_play t3 = false ->
  GameM.get_player_by_name (player_name t3) g = (Return passer, g) ->
  GameM.get_player_by_name (player_name t0) g = (Return player, g) ->
  GameM.check_for_bonus_points g = GameM.give_points_to_team player 25%Z g.
Proof.
  intros Hh H0 H1 H2 H3 Hpasser Hplayer.
  unfold GameM.check_for_bonus_points, bind, gets.
  rewrite Hh, last_four_of, rev_app_distr, length_app.
  change (length [t0; t1; t2; t3]) with 4.
  change (rev [t0; t1; t2; t3]) with [t3; t2; t1; t0]; cbn [app].
  replace (length before + 4 <? 2)%nat with false
    by (symmetry; apply Nat.ltb_ge; lia).
  replace (length before + 4 =? 2)%nat with false
    by (symmetry; apply Nat.eqb_neq; lia).
  replace (length before + 4 <? 4)%nat with false
    by (symmetry; apply Nat.ltb_ge; lia).
  simpl; rewrite H3, Hpasser, H0, H1, H2; simpl.
  rewrite Hplayer; reflexivity.
Qed.

(** X7.  At a table of four, when the last four recorded turns are a play
    followed by three passes and the names of the player and of the last
    passer are borne by seated players, the check makes the team award of
    25 on behalf of the player who played: it returns, both seats of one
    team gain 25 and nothing else changes. *)
Theorem X7_bonus_for_a_round_of_passes
        (g : Game) (before : list TurnDataPoint) (t0 t1 t2 t3 : TurnDataPoint) :
  four_seats g ->
  In (winner g) (players g) ->
  round_history g = before ++ [t0; t1; t2; t3] ->
  did_play t0 = true -> did_play t1 = false ->
  did_play t2 = false -> did_play t3 = false ->
  (exists q, In q (players g) /\ _name (store g q) = player_name t3) ->
  (exists p, In p (players g) /\ _name (store g p) = player_name t0) ->
  exists player g',
    GameM.get_player_by_name (player_name t0) g = (Return player, g)
    /\ GameM.check_for_bonus_points g
       = GameM.give_points_to_team player 25%Z g
    /\ GameM.check_for_bonus_points g = (Return tt, g')
    /\ only_scores_differ g g'
    /\ exists team,
         team < 2
         /\ forall s, s < 4 ->
              score_at g' s
              = (score_at g s + (if (s mod 2 =? team)%nat then 25 else 0))%Z.
Proof.
  intros Hfour Hw Hh H0 H1 H2 H3 Hq Hp.
  destruct (get_player_by_name_found g Hq) as (passer & Hpasser & _).
  destruct (get_player_by_name_found g Hp) as (player & Hplayer & _).
  rewrite (@check_play_then_three_passes g before t0 t1 t2 t3 passer player
             Hh H0 H1 H2 H3 Hpasser Hplayer).
  destruct (give_points_to_team_four player 25%Z Hfour)
    as [[Hn _] | (i & g' & Hi & Hrun & Hframe & Hscores)]; [contradiction|].
  exists player, g'; repeat (split; [assumption || reflexivity|]).
  assert (Hlt : i < 4).
  { destruct Hfour as [Hl _]; rewrite <- Hl.
    apply nth_error_Some; rewrite Hi; discriminate. }
  exists (i mod 2); split; [apply Nat.mod_upper_bound; lia|].
  intros s Hs; rewrite (Hscores s Hs), same_team_parity by assumption.
  reflexivity.
Qed.

Lemma X7_bonus_for_a_round_of_passes_witness :
  exists player g',
    GameM.get_player_by_name "P3" three_passes_recorded
    = (Return player, three_passes_recorded)
    /\ GameM.check_for_bonus_points three_passes_recorded
       = GameM.give_points_to_team player 25%Z three_passes_recorded
    /\ GameM.check_for_bonus_points three_passes_recorded = (Return tt, g')
    /\ only_scores_differ three_passes_recorded g'
    /\ exists team,
         team < 2
         /\ forall s, s < 4 ->
              score_at g' s
              = (score_at three_passes_recorded s
                 + (if (s mod 2 =? team)%nat then 25 else 0))%Z.
Proof.
  refine (@X7_bonus_for_a_round_of_passes three_passes_recorded []
            (Fixture.played "P3" (6, 6)%Z) (Fixture.passed "P4")
            (Fixture.passed "P1") (Fixture.passed "P2")
            _ _ eq_refl eq_refl eq_refl eq_refl eq_refl _ _).
  - split; [reflexivity | exact four_distinct_refs].
  - vm_compute; auto.
  - exists 1; split; [vm_compute; auto | reflexivity].
  - exists 2; split; [vm_compute; auto | reflexivity].
Defined.

(** X8.  A check that returns has either changed nothing or made exactly
    one team award of 25, and it makes the award only after a pass, when
    exactly two turns are recorded or when the last four turns are a play
    followed by three passes. *)
Theorem X8_bonus_only_in_two_patterns (g g' : Game) :
  GameM.check_for_bonus_points g = (Return tt, g') ->
  g' = g
  \/ (exists player,
        GameM.give_points_to_team player 25%Z g = (Return tt, g'))
     /\ (exists before last,
           round_history g = before ++ [last] /\ did_play last = false)
     /\ (length (round_history g) = 2
         \/ play_then_three_passes (round_history g)).
Proof.
  unfold GameM.check_for_bonus_points, bind, gets.
  destruct (length (round_history g) <? 2)%nat;
    [intros H; inversion H; now left|].
  destruct (rev (round_history g)) as [|last rest] eqn:Hrev; [discriminate|].
  assert (Hlast : round_history g = rev rest ++ [last]).
  { rewrite <- (rev_involutive (round_history g)), Hrev; reflexivity. }
  destruct (did_play last) eqn:Hplay; [intros H; inversion H; now left|].
  pose proof (get_player_by_name_pure (player_name last) g) as Hpure.
  destruct (GameM.get_player_by_name (player_name last) g) as [[q|e] g1];
    [|discriminate].
  simpl in Hpure; subst g1.
  destruct (Nat.eqb_spec (length (round_history g)) 2) as [H2|H2].
  { intros H; right; split; [eauto|]; split; [eauto | now left]. }
  destruct (length (round_history g) <? 4)%nat;
    [intros H; inversion H; now left|].
  destruct (PyList.last_n 4 (round_history g)) as [|t0 [|t1 [|t2 [|t3 [|t4 l]]]]] eqn:H4;
    try discriminate.
  destruct (did_play t0 && negb (did_play t1) && negb (did_play t2)
            && negb (did_play t3)) eqn:Hpat.
  - pose proof (get_player_by_name_pure (player_name t0) g) as Hpure0.
    destruct (GameM.get_player_by_name (player_name t0) g) as [[p|e] g1];
      [|discriminate].
    simpl in Hpure0; subst g1.
    intros H; right; split; [eauto|]; split; [eauto|right].
    destruct (last_four_inv _ H4) as [before Hb].
    apply andb_true_iff in Hpat; destruct Hpat as [Hpat H3'].
    apply andb_true_iff in Hpat; destruct Hpat as [Hpat H2'].
    apply andb_true_iff in Hpat; destruct Hpat as [H0' H1'].
    apply negb_true_iff in H1', H2', H3'.
    exists before, t0, t1, t2, t3; auto.
  - destruct (negb (PlayerM.is_hand_empty (store g q)));
      [intros H; inversion H; now left|].
    intros H; exfalso.
    destruct (fit_branch_raises (domino_played last)
                (fun head =>
                   tail <- GameM.last_right None ;;
                   l0 <- GameM.component false (domino_played last) ;;
                   l1 <- GameM.component true (domino_played last) ;;
                   if ((l0 =? head)%Z && (l1 =? tail)%Z)
                      || ((l1 =? head)%Z && (l0 =? tail)%Z)
                   then GameM.give_points_to_team q 25%Z
                   else ret tt) g) as (e & g2 & Hraise).
    unfold bind, GameM.played_dominos_remove in H, Hraise.
    destruct (domino_played last) as [d|]; [|discriminate].
    destruct (PyList.remove Domino_eqb d (played_dominos g)); discriminate.
Qed.

Lemma X8_bonus_only_in_two_patterns_witness :
  snd (GameM.check_for_bonus_points opening_then_pass) = opening_then_pass
  \/ (exists player,
        GameM.give_points_to_team player 25%Z opening_then_pass
        = (Return tt, snd (GameM.check_for_bonus_points opening_then_pass)))
     /\ (exists before last,
           round_history opening_then_pass = before ++ [last]
           /\ did_play last = false)
     /\ (length (round_history opening_then_pass) = 2
         \/ play_then_three_passes (round_history opening_then_pass)).
Proof.
  apply (@X8_bonus_only_in_two_patterns opening_then_pass).
  vm_compute; reflexivity.
Defined.

(** ** What a step returns *)

Lemma only_turn_order_differs_refl (g : Game) : only_turn_order_differs g g.
Proof. unfold only_turn_order_differs; auto. Qed.

Lemma only_turn_order_differs_trans (g1 g2 g3 : Game) :
  only_turn_order_differs g1 g2 -> only_turn_order_differs g2 g3 ->
  only_turn_order_differs g1 g3.
Proof. unfold only_turn_order_differs; intuition congruence. Qed.

Lemma end_of_turn_frame (p : ref) :
  preserves only_turn_order_differs (end_of_turn p).
Proof.
  unfold end_of_turn.
  repeat first
    [ apply (preserves_pure _ only_turn_order_differs_refl); intros;
      apply is_locked_pure
    | apply preserves_modify; intros; unfold only_turn_order_differs; simpl;
      now auto
    | frame_step only_turn_order_differs_refl only_turn_order_differs_trans ].
Qed.

(** The value [end_of_turn] returns, read off the state it finds. *)
Lemma end_of_turn_returns (p : ref) (g g' : Game) (b : bool) :
  end_of_turn p g = (Return b, g') ->
  (b = true <->
   _dominos (store g p) <> []
   /\ locked_outcome (played_dominos g) = Return false)
  /\ (b = true ->
      next_player_index g'
      = (next_player_index g + 1) mod length (players g)
      /\ winner g' = winner g)
  /\ (b = false -> next_player_index g' = next_player_index g).
Proof.
  unfold end_of_turn, bind, gets.
  destruct (PlayerM.is_hand_empty (store g p)) eqn:He.
  - intros H; inversion H; subst; simpl.
    apply is_hand_empty_nil in He.
    split; [split; [discriminate | intros [Hne _]; contradiction]|].
    split; [discriminate | reflexivity].
  - assert (Hne : _dominos (store g p) <> []).
    { intros E; apply is_hand_empty_nil in E; congruence. }
    rewrite is_locked_run.
    destruct (locked_outcome (played_dominos g)) as [[|]|e] eqn:Hl;
      [| |discriminate].
    + unfold GameM.get_next_player_index, players_at.
      destruct (length (players g)) as [|n]; [discriminate|].
      destruct (nth_error _ _); [|discriminate].
      intros H; inversion H; subst; simpl.
      split; [split; [discriminate | intros [_ Hf]; discriminate]|].
      split; [discriminate | reflexivity].
    + unfold GameM.get_next_player_index.
      destruct (length (players g)) as [|n] eqn:Hn; [discriminate|].
      intros H; inversion H; subst; simpl.
      split; [split; [intros _; split; [exact Hne | reflexivity] | reflexivity]|].
      split; [intros _; split; reflexivity | discriminate].
Qed.

(** [end_of_turn] returns whenever there is a seat and the board is not
    empty or the hand is. *)
Lemma end_of_turn_total (p : ref) (g : Game) :
  players g <> [] ->
  played_dominos g <> [] \/ _dominos (store g p) = [] ->
  exists b, fst (end_of_turn p g) = Return b.
Proof.
  intros Hp Hb; unfold end_of_turn, bind, gets.
  destruct (PlayerM.is_hand_empty (store g p)) eqn:He;
    [eexists; reflexivity|].
  destruct Hb as [Hb|Hb];
    [|apply is_hand_empty_nil in Hb; congruence].
  rewrite is_locked_run.
  destruct (played_dominos g) as [|first rest]; [contradiction|].
  rewrite locked_outcome_spec.
  unfold GameM.get_next_player_index, players_at, modify, ret.
  destruct (_ && _); cbv beta iota.
  all: destruct (length (players g)) as [|n] eqn:Hn;
    [destruct (players g); [contradiction | discriminate]|].
  - destruct (nth_error (players g) ((next_player_index g + 1) mod S n))
      eqn:E; [eexists; reflexivity|].
    exfalso; apply nth_error_None in E.
    pose proof (Nat.mod_upper_bound (next_player_index g + 1) (S n)).
    lia.
  - eexists; reflexivity.
Qed.

Lemma order_at_end_of_turn (p : ref) (g g1 g3 : Game) (turn : bool * option Domino) :
  take_the_turn p g = (Return turn, g1) ->
  GameM.check_for_bonus_points (turn_recorded p turn g1) = (Return tt, g3) ->
  players g3 = players g
  /\ next_player_index g3 = next_player_index g
  /\ winner g3 = winner g.
Proof.
  intros Hturn Hcheck.
  pose proof (take_the_turn_effect p g) as Ht; cbv zeta in Ht.
  rewrite Hturn in Ht; simpl in Ht.
  destruct Ht as (Hp & Hw & _ & Hidx & _).
  pose proof (same_hands_check (turn_recorded p turn g1)) as Hsame.
  rewrite Hcheck in Hsame; simpl in Hsame.
  destruct Hsame as (Hp3 & Hw3 & _ & _ & Hidx3 & _).
  simpl in *; repeat split; congruence.
Qed.

(** X9.  When a step returns, it returns [True] exactly when the hand of
    the player who moved is not empty and the board is not locked; the
    turn then passes to the next seat in rotation and the winner stays as
    it was.  When it returns [False] the turn index stays where it was. *)
Theorem X9_step_continues_iff (g g' : Game) (p : ref) (b : bool) :
  nth_error (players g) (next_player_index g) = Some p ->
  GameM.step g = (Return b, g') ->
  (b = true <->
   _dominos (store g' p) <> []
   /\ locked_outcome (played_dominos g') = Return false)
  /\ (b = true ->
      next_player_index g'
      = (next_player_index g + 1) mod length (players g)
      /\ winner g' = winner g)
  /\ (b = false -> next_player_index g' = next_player_index g).
Proof.
  intros Hp Hstep.
  destruct (step_cases g Hp)
    as [e g1 Hturn Hstep' | turn g1 e g3 Hturn Hcheck Hstep'
        | turn g1 g3 Hturn Hcheck Hstep']; try congruence.
  rewrite Hstep in Hstep'; symmetry in Hstep'.
  destruct (order_at_end_of_turn p g Hturn Hcheck) as (Hp3 & Hidx3 & Hw3).
  pose proof (end_of_turn_frame p g3) as Hframe.
  rewrite Hstep' in Hframe; simpl in Hframe.
  destruct Hframe as (_ & Hstore & Hboard & _).
  destruct (end_of_turn_returns p g3 Hstep') as (Hiff & Htrue & Hfalse).
  rewrite Hstore, Hboard, <- Hp3, <- Hidx3, <- Hw3.
  repeat split; try apply Hiff; try apply Htrue; try apply Hfalse; assumption.
Qed.

Lemma X9_step_continues_iff_witness :
  (true = true <->
   _dominos (store (snd (GameM.step opening_played)) 3) <> []
   /\ locked_outcome (played_dominos (snd (GameM.step opening_played)))
      = Return false)
  /\ (true = true ->
      next_player_index (snd (GameM.step opening_played))
      = (next_player_index opening_played + 1) mod length (players opening_played)
      /\ winner (snd (GameM.step opening_played)) = winner opening_played)
  /\ (true = false ->
      next_player_index (snd (GameM.step opening_played))
      = next_player_index opening_played).
Proof.
  apply (@X9_step_continues_iff opening_played
           (snd (GameM.step opening_played)) 3 true);
    vm_compute; reflexivity.
Defined.

(** ** The opening of a game *)

Lemma step_after_turn (g g1 g3 : Game) (p : ref) (turn : bool * option Domino) :
  nth_error (players g) (next_player_index g) = Some p ->
  take_the_turn p g = (Return turn, g1) ->
  GameM.check_for_bonus_points (turn_recorded p turn g1) = (Return tt, g3) ->
  GameM.step g = end_of_turn p g3.
Proof.
  intros Hp Hturn Hcheck.
  destruct (step_cases g Hp)
    as [e g1' Hturn' Hstep | turn' g1' e g3' Hturn' Hcheck' Hstep
        | turn' g1' g3' Hturn' Hcheck' Hstep].
  - congruence.
  - rewrite Hturn in Hturn'; inversion Hturn'; subst; congruence.
  - rewrite Hturn in Hturn'; inversion Hturn'; subst.
    rewrite Hcheck in Hcheck'; inversion Hcheck'; subst; exact Hstep.
Qed.

Lemma step_turn_raises (g g1 : Game) (p : ref) (e : exn) :
  nth_error (players g) (next_player_index g) = Some p ->
  take_the_turn p g = (Raise e, g1) ->
  GameM.step g = (Raise e, g1).
Proof.
  intros Hp Hturn.
  destruct (step_cases g Hp)
    as [e' g1' Hturn' Hstep | turn' g1' e' g3' Hturn' Hcheck' Hstep
        | turn' g1' g3' Hturn' Hcheck' Hstep]; congruence.
Qed.

(** X10.  The first step of a game, taken by player [p].  If [p] holds the
    double six, the step returns: (6,6) goes to the tail of the board and
    out of the hand of [p], the turn is recorded as a play of (6,6), the
    first-round flag is cleared, and no other hand and no score changes.
    If [p] does not hold it, the step raises [ValueError] with (6,6)
    already put on the board, while no hand has lost a tile, nothing is
    recorded and the flag is still set. *)
Theorem X10_opening_with_double_six (g : Game) (p : ref) :
  nth_error (players g) (next_player_index g) = Some p ->
  first_game_round_step g = true ->
  (In (6, 6)%Z (_dominos (store g p)) ->
     exists b g',
       GameM.step g = (Return b, g')
       /\ played_dominos g' = played_dominos g ++ [(6, 6)%Z]
       /\ first_game_round_step g' = false
       /\ round_history g'
          = round_history g
            ++ [mkTurnDataPoint (_name (store g p)) true (Some (6, 6)%Z)]
       /\ Permutation (_dominos (store g p)) ((6, 6)%Z :: _dominos (store g' p))
       /\ (forall r, r <> p -> _dominos (store g' r) = _dominos (store g r))
       /\ (forall r, score (store g' r) = score (store g r)))
  /\ (~ In (6, 6)%Z (_dominos (store g p)) ->
      exists g',
        GameM.step g = (Raise ValueError, g')
        /\ played_dominos g' = played_dominos g ++ [(6, 6)%Z]
        /\ first_game_round_step g' = true
        /\ round_history g' = round_history g
        /\ forall r, _dominos (store g' r) = _dominos (store g r)).
Proof.
  intros Hp Hfirst; split.
  - intros Hin.
    destruct (remove_In Domino_eqb Domino_eqb_eq _ _ Hin) as [hand Hr].
    pose proof (remove_Some_perm Domino_eqb Domino_eqb_eq _ _ Hr) as Hperm.
    set (g1 := with_first_game_round_step false
                 (with_played_dominos (played_dominos g ++ [(6, 6)%Z])
                    (with_store (upd (store g) p (set_dominos (store g p) hand)) g))).
    assert (Hturn : take_the_turn p g = (Return (true, Some (6, 6)%Z), g1)).
    { unfold take_the_turn, bind, gets, GameM.call_on_player,
        PlayerM.play_double_six.
      rewrite Hfirst, Hr; reflexivity. }
    pose proof (check_after_recorded_play p (Some (6, 6)%Z) g1) as Hcheck.
    rewrite (step_after_turn g Hp Hturn Hcheck).
    set (g2 := turn_recorded p (true, Some (6, 6)%Z) g1).
    destruct (end_of_turn_total p g2) as [b Hb].
    { simpl; intros E; rewrite E in Hp; destruct (next_player_index g); discriminate. }
    { left; simpl; destruct (played_dominos g); discriminate. }
    pose proof (end_of_turn_frame p g2) as Hframe.
    destruct (end_of_turn p g2) as [o g'] eqn:Hend; simpl in Hb, Hframe; subst o.
    destruct Hframe as (_ & Hstore & Hboard & Hhist & Hflag).
    exists b, g'; split; [exact Hend|].
    rewrite Hstore, Hboard, Hhist, Hflag; simpl; unfold upd.
    rewrite Nat.eqb_refl; simpl.
    repeat split; try assumption.
    + intros r Hne; now rewrite (proj2 (Nat.eqb_neq r p) Hne).
    + intros r; destruct (Nat.eqb_spec r p) as [ -> | ]; reflexivity.
  - intros Hn.
    apply (remove_None Domino_eqb Domino_eqb_eq) in Hn.
    eexists; split.
    + apply (step_turn_raises g Hp).
      unfold take_the_turn, bind, gets, GameM.call_on_player,
        PlayerM.play_double_six.
      rewrite Hfirst, Hn; reflexivity.
    + simpl; repeat split; try assumption.
      intros r; unfold upd; destruct (Nat.eqb_spec r p) as [ -> | ]; reflexivity.
Qed.

Lemma X10_opening_with_double_six_witness :
  exists b g',
    GameM.step (Rounds.after Rounds.locking_pool 0) = (Return b, g')
    /\ played_dominos g'
       = played_dominos (Rounds.after Rounds.locking_pool 0) ++ [(6, 6)%Z]
    /\ first_game_round_step g' = false
    /\ round_history g'
       = round_history (Rounds.after Rounds.locking_pool 0)
         ++ [mkTurnDataPoint
               (_name (store (Rounds.after Rounds.locking_pool 0) 2))
               true (Some (6, 6)%Z)]
    /\ Permutation (_dominos (store (Rounds.after Rounds.locking_pool 0) 2))
                   ((6, 6)%Z :: _dominos (store g' 2))
    /\ (forall r, r <> 2 ->
          _dominos (store g' r)
          = _dominos (store (Rounds.after Rounds.locking_pool 0) r))
    /\ (forall r, score (store g' r)
                  = score (store (Rounds.after Rounds.locking_pool 0) r)).
Proof.
  apply (proj1 (@X10_opening_with_double_six
                  (Rounds.after Rounds.locking_pool 0) 2
                  ltac:(vm_compute; reflexivity) ltac:(vm_compute; reflexivity))).
  vm_compute; auto 10.
Defined.

(** ** Who moves first in a round *)

Lemma only_hands_differ_refl (g : Game) : only_hands_differ g g.
Proof. unfold only_hands_differ; auto 10. Qed.

Lemma only_hands_differ_trans (g1 g2 g3 : Game) :
  only_hands_differ g1 g2 -> only_hands_differ g2 g3 -> only_hands_differ g1 g3.
Proof.
  unfold only_hands_differ.
  intros (A1 & A2 & A3 & A4 & A5 & A6 & A7) (B1 & B2 & B3 & B4 & B5 & B6 & B7).
  repeat split; try congruence;
    destruct (A7 r) as (? & ? & ?), (B7 r) as (? & ? & ?); congruence.
Qed.

Lemma only_hands_differ_set_dominos (p : ref) (f : Player -> list Domino) :
  preserves only_hands_differ
            (update_player p (fun pl => set_dominos pl (f pl))).
Proof.
  intros g; unfold only_hands_differ; simpl; repeat (split; [reflexivity|]).
  intros r; unfold upd; destruct (Nat.eqb_spec r p) as [ -> | ]; auto.
Qed.

Lemma only_hands_differ_deal (pool : list Domino) :
  preserves only_hands_differ (GameM.deal pool).
Proof.
  unfold GameM.deal.
  repeat first
    [ apply (only_hands_differ_set_dominos _ (fun _ => _))
    | frame_step only_hands_differ_refl only_hands_differ_trans ].
Qed.

(** The table when the hands are dealt, before the first mover is looked
    for. *)
Lemma dealt_table (pool : list Domino) (g : Game) (a b c d : ref) :
  players g = [a; b; c; d] ->
  a <> b -> a <> c -> a <> d -> b <> c -> b <> d -> c <> d ->
  exists g2,
    (GameM._reset ;; GameM.deal pool) g = (Return tt, g2)
    /\ players g2 = [a; b; c; d]
    /\ winner g2 = winner g
    /\ first_game_round_step g2 = first_game_round_step g
    /\ played_dominos g2 = []
    /\ round_history g2 = []
    /\ (forall s, s < 4 -> hand_at g2 s = PyList.slice s 4 pool)
    /\ (forall r, _name (store g2 r) = _name (store g r)
                  /\ _action_chooser (store g2 r) = _action_chooser (store g r)
                  /\ score (store g2 r) = score (store g r)).
Proof.
  intros Hp Hab Hac Had Hbc Hbd Hcd.
  unfold bind at 1; rewrite reset_eq.
  set (g1 := with_store _ _).
  assert (Hp1 : players g1 = [a; b; c; d]) by exact Hp.
  destruct (deal_four pool g1 Hp1 Hab Hac Had Hbc Hbd Hcd)
    as (g2 & Hd & Hp2 & Ha & Hb & Hc & Hdd).
  pose proof (only_hands_differ_deal pool g1) as Hframe.
  rewrite Hd in Hframe; simpl in Hframe.
  destruct Hframe as (_ & Hw & Hboard & Hhist & Hflag & _ & Hobj).
  exists g2; split; [exact Hd|]; split; [exact Hp2|].
  split; [exact Hw|]; split; [exact Hflag|].
  split; [exact Hboard|]; split; [exact Hhist|]; split.
  - intros s Hs; unfold hand_at; rewrite Hp2.
    assert (Hs' : s = 0 \/ s = 1 \/ s = 2 \/ s = 3) by lia.
    destruct Hs' as [ -> | [ -> | [ -> | -> ]]]; simpl; assumption.
  - intros r; destruct (Hobj r) as (Hn & Hch & Hsc).
    rewrite Hn, Hch, Hsc; unfold g1; simpl.
    clear; generalize (store g); induction (players g) as [|q qs IH];
      intros h; simpl; [auto|].
    destruct (IH (upd h q (PlayerM.reset (h q)))) as (-> & -> & ->).
    unfold upd; destruct (Nat.eqb_spec r q) as [ -> | ]; auto.
Qed.

Lemma stride_NoDup (A : Type) (k s : nat) (l : list A) :
  NoDup l -> NoDup (PyList.stride k s l).
Proof.
  intros Hnd; apply NoDup_nth_error; intros i j Hi E.
  rewrite !nth_error_stride in E.
  assert (Hlt : s + i * S k < length l).
  { apply nth_error_Some; rewrite <- nth_error_stride.
    apply nth_error_Some; exact Hi. }
  apply (proj1 (NoDup_nth_error l) Hnd) in E; [|exact Hlt].
  nia.
Qed.

Lemma slice_owner (A : Type) (pool : list A) (s s' : nat) (t : A) :
  NoDup pool -> s < 4 -> s' < 4 ->
  In t (PyList.slice s 4 pool) -> In t (PyList.slice s' 4 pool) -> s = s'.
Proof.
  unfold PyList.slice; simpl pred; intros Hnd Hs Hs' Hin Hin'.
  apply In_nth_error in Hin; destruct Hin as [j Hj].
  apply In_nth_error in Hin'; destruct Hin' as [j' Hj'].
  rewrite nth_error_stride in Hj, Hj'.
  assert (Hlt : s + j * 4 < length pool)
    by (apply nth_error_Some; rewrite Hj; discriminate).
  assert (E : s + j * 4 = s' + j' * 4).
  { apply (proj1 (NoDup_nth_error pool) Hnd); [exact Hlt | congruence]. }
  lia.
Qed.

Lemma slice_holder (A : Type) (pool : list A) (t : A) :
  In t pool -> exists s, s < 4 /\ In t (PyList.slice s 4 pool).
Proof.
  intros Hin.
  apply (Permutation_in t (Permutation_sym (four_slices_perm pool))) in Hin.
  repeat (apply in_app_or in Hin; destruct Hin as [Hin|Hin]);
    [exists 0 | exists 1 | exists 2 | exists 3]; split; (lia || assumption).
Qed.

Lemma count_In (l : list Domino) (t : Domino) :
  NoDup l -> In t l -> PyList.count Domino_eqb t l = 1.
Proof.
  induction l as [|d l IH]; intros Hnd Hin; [contradiction|].
  inversion_clear Hnd as [|? ? Hd Hl]; simpl.
  destruct (Domino_eqb d t) eqn:E.
  - apply Domino_eqb_eq in E; subst d; f_equal.
    clear IH Hin; induction l as [|e l IH]; [reflexivity|]; simpl.
    destruct (Domino_eqb e t) eqn:E'.
    + apply Domino_eqb_eq in E'; subst e; exfalso; apply Hd; now left.
    + apply IH; [intros H; apply Hd; now right | now inversion Hl].
  - destruct Hin as [ -> | Hin].
    + rewrite (proj2 (Domino_eqb_eq t t) eq_refl) in E; discriminate.
    + now apply IH.
Qed.

Lemma count_not_In (l : list Domino) (t : Domino) :
  ~ In t l -> PyList.count Domino_eqb t l = 0.
Proof.
  induction l as [|d l IH]; intros Hn; [reflexivity|]; simpl.
  destruct (Domino_eqb d t) eqn:E.
  - apply Domino_eqb_eq in E; subst d; exfalso; apply Hn; now left.
  - apply IH; intros H; apply Hn; now right.
Qed.

Lemma find_double_six_run (g : Game) (before after : list ref) (p : ref) :
  (forall q, In q before -> PlayerM.has_double_six (store g q) = false) ->
  PlayerM.has_double_six (store g p) = true ->
  GameM.find_double_six (before ++ p :: after) g = (Return tt, with_winner p g).
Proof.
  intros Hb Hp; induction before as [|q before IH]; simpl.
  - unfold bind, gets; now rewrite Hp.
  - unfold bind, gets; rewrite (Hb q) by now left.
    apply IH; intros r Hr; apply Hb; now right.
Qed.

Lemma index_nth (l : list ref) (s : nat) (p : ref) :
  NoDup l -> nth_error l s = Some p -> PyList.index Nat.eqb p l = Some s.
Proof.
  revert s; induction l as [|q l IH]; intros s Hnd Hs; [destruct s; discriminate|].
  inversion_clear Hnd as [|? ? Hq Hl]; simpl.
  destruct s as [|s]; simpl in Hs.
  - inversion Hs; subst; now rewrite Nat.eqb_refl.
  - destruct (Nat.eqb_spec q p) as [ -> | Hne].
    + exfalso; apply Hq; eapply nth_error_In; exact Hs.
    + now rewrite (IH s Hl Hs).
Qed.

Lemma double_six_in_pool (pool : list Domino) :
  Permutation pool GameM.DOMINOS -> In (6, 6)%Z pool /\ NoDup pool.
Proof.
  intros Hperm; split.
  - apply (Permutation_in _ (Permutation_sym Hperm)).
    unfold GameM.DOMINOS; simpl; auto 30.
  - apply Permutation_NoDup with (l := GameM.DOMINOS);
      [now symmetry | exact DOMINOS_distinct].
Qed.

(** At the dealt table exactly the seat that was dealt (6,6) reports it. *)
Lemma has_double_six_at (pool : list Domino) (g2 : Game) (s s' : nat) (q : ref) :
  NoDup pool ->
  (forall k, k < 4 -> hand_at g2 k = PyList.slice k 4 pool) ->
  s < 4 -> s' < 4 ->
  In (6, 6)%Z (PyList.slice s 4 pool) ->
  nth_error (players g2) s' = Some q ->
  PlayerM.has_double_six (store g2 q) = (s' =? s)%nat.
Proof.
  intros Hnd Hhands Hs Hs' Hin Hq.
  assert (Hhand : _dominos (store g2 q) = PyList.slice s' 4 pool).
  { rewrite <- (Hhands s' Hs'); unfold hand_at; now rewrite Hq. }
  unfold PlayerM.has_double_six; rewrite Hhand.
  destruct (Nat.eqb_spec s' s) as [ -> | Hne].
  - rewrite count_In; [reflexivity | now apply stride_NoDup | exact Hin].
  - rewrite count_not_In; [reflexivity|].
    intros Hin'; apply Hne; eapply slice_owner; eassumption.
Qed.

(** The first mover of the first round of a game. *)
Lemma new_round_first_round (shuffle : list Domino -> list Domino) (g : Game) :
  Permutation (shuffle GameM.DOMINOS) GameM.DOMINOS ->
  four_seats g ->
  first_game_round_step g = true ->
  exists s p g2,
    s < 4
    /\ nth_error (players g) s = Some p
    /\ In (6, 6)%Z (PyList.slice s 4 (shuffle GameM.DOMINOS))
    /\ (GameM._reset ;; GameM.deal (shuffle GameM.DOMINOS)) g = (Return tt, g2)
    /\ GameM.new_round shuffle g
       = (Return tt, with_next_player_index s (with_winner p g2)).
Proof.
  intros Hperm Hfour Hfirst.
  destruct (four_seats_inv Hfour)
    as (a & b & c & d & Hp & Hab & Hac & Had & Hbc & Hbd & Hcd).
  destruct (dealt_table (shuffle GameM.DOMINOS) g Hp Hab Hac Had Hbc Hbd Hcd)
    as (g2 & Hdeal & Hp2 & Hw2 & Hflag2 & _ & _ & Hhands & _).
  destruct (double_six_in_pool Hperm) as [Hsix Hnd].
  destruct (slice_holder _ _ Hsix) as (s & Hs & Hin).
  assert (Hnd2 : NoDup (players g2)).
  { rewrite Hp2, <- Hp; apply Hfour. }
  assert (Hlen : s < length (players g2)) by (rewrite Hp2; simpl; lia).
  destruct (nth_error (players g2) s) as [p|] eqn:Hnth;
    [|apply nth_error_None in Hnth; lia].
  destruct (nth_error_split _ _ Hnth) as (before & after & Hsplit & Hbefore).
  exists s, p, g2; split; [exact Hs|].
  split; [rewrite Hp, <- Hp2; exact Hnth|].
  split; [exact Hin|]; split; [exact Hdeal|].
  rewrite new_round_parts.
  assert (Hrun : (GameM._reset ;; GameM.deal (shuffle GameM.DOMINOS) ;; first_mover) g
                 = first_mover g2).
  { unfold bind in Hdeal |- *.
    destruct (GameM._reset g) as [[[]|e] g1]; [|discriminate].
    now rewrite Hdeal. }
  rewrite Hrun; unfold first_mover, bind, gets.
  rewrite Hflag2, Hfirst, Hsplit.
  rewrite find_double_six_run.
  - unfold GameM.winner_index; cbn [winner players with_winner].
    rewrite (@index_nth (players g2) s p Hnd2 Hnth); reflexivity.
  - intros q Hq.
    apply In_nth_error in Hq; destruct Hq as [s' Hs'].
    assert (Hlt : s' < length before).
    { apply nth_error_Some; rewrite Hs'; discriminate. }
    assert (Hq' : nth_error (players g2) s' = Some q)
      by (rewrite Hsplit, nth_error_app1 by exact Hlt; exact Hs').
    rewrite (@has_double_six_at (shuffle GameM.DOMINOS) g2 s s' q
               Hnd Hhands Hs ltac:(lia) Hin Hq').
    apply Nat.eqb_neq; lia.
  - rewrite (@has_double_six_at (shuffle GameM.DOMINOS) g2 s s p
               Hnd Hhands Hs Hs Hin Hnth).
    apply Nat.eqb_refl.
Qed.

(** X11.  In the first round of a game, for every shuffle of the 28 tiles
    and four distinct players, [new_round] returns with an empty board and
    an empty history, and the player it puts on the move is the one who
    was dealt the double six: that seat, and no other, holds (6,6). *)
Theorem X11_double_six_holder_opens
        (shuffle : list Domino -> list Domino) (g : Game) :
  Permutation (shuffle GameM.DOMINOS) GameM.DOMINOS ->
  four_seats g ->
  first_game_round_step g = true ->
  exists s p g',
    s < 4
    /\ GameM.new_round shuffle g = (Return tt, g')
    /\ nth_error (players g') s = Some p
    /\ next_player_index g' = s
    /\ winner g' = p
    /\ In (6, 6)%Z (hand_at g' s)
    /\ (forall s', s' < 4 -> In (6, 6)%Z (hand_at g' s') -> s' = s)
    /\ played_dominos g' = []
    /\ round_history g' = []
    /\ first_game_round_step g' = true.
Proof.
  intros Hperm Hfour Hfirst.
  destruct (new_round_first_round shuffle Hperm Hfour Hfirst)
    as (s & p & g2 & Hs & Hnth & Hin & Hdeal & Hrun).
  destruct (four_seats_inv Hfour)
    as (a & b & c & d & Hp & Hab & Hac & Had & Hbc & Hbd & Hcd).
  destruct (dealt_table (shuffle GameM.DOMINOS) g Hp Hab Hac Had Hbc Hbd Hcd)
    as (g2' & Hdeal' & Hp2 & _ & Hflag2 & Hboard & Hhist & Hhands & _).
  rewrite Hdeal in Hdeal'; inversion Hdeal'; subst g2'.
  destruct (double_six_in_pool Hperm) as [_ Hnd].
  exists s, p, (with_next_player_index s (with_winner p g2)).
  split; [exact Hs|]; split; [exact Hrun|]; simpl.
  split; [rewrite Hp2, <- Hp; exact Hnth|].
  split; [reflexivity|]; split; [reflexivity|].
  change (hand_at (with_next_player_index s (with_winner p g2)) s)
    with (hand_at g2 s).
  split; [rewrite (Hhands s Hs); exact Hin|].
  split; [|split; [exact Hboard|split; [exact Hhist | congruence]]].
  intros s' Hs' Hin'.
  change (hand_at (with_next_player_index s (with_winner p g2)) s')
    with (hand_at g2 s') in Hin'.
  rewrite (Hhands s' Hs') in Hin'.
  eapply slice_owner; eassumption.
Qed.

Lemma X11_double_six_holder_opens_witness :
  exists s p g',
    s < 4
    /\ GameM.new_round (fun _ => Rounds.locking_pool)
         (with_first_game_round_step true round_settled) = (Return tt, g')
    /\ nth_error (players g') s = Some p
    /\ next_player_index g' = s
    /\ winner g' = p
    /\ In (6, 6)%Z (hand_at g' s)
    /\ (forall s', s' < 4 -> In (6, 6)%Z (hand_at g' s') -> s' = s)
    /\ played_dominos g' = []
    /\ round_history g' = []
    /\ first_game_round_step g' = true.
Proof.
  apply (@X11_double_six_holder_opens (fun _ => Rounds.locking_pool)
           (with_first_game_round_step true round_settled)).
  - exact locking_pool_shuffled.
  - split; [vm_compute; reflexivity | exact four_distinct_refs].
  - reflexivity.
Defined.

(** X12.  In a later round (the first-round flag is clear), for four
    distinct players: if the winner of the previous round sits at seat
    [s], [new_round] returns with an empty board and history, the same
    winner, and seat [s] on the move; if the winner holds no seat it
    raises [ValueError]. *)
Theorem X12_previous_winner_opens
        (shuffle : list Domino -> list Domino) (g : Game) :
  four_seats g ->
  first_game_round_step g = false ->
  (forall s,
      nth_error (players g) s = Some (winner g) ->
      exists g',
        GameM.new_round shuffle g = (Return tt, g')
        /\ next_player_index g' = s
        /\ winner g' = winner g
        /\ players g' = players g
        /\ played_dominos g' = []
        /\ round_history g' = []
        /\ first_game_round_step g' = false)
  /\ (~ In (winner g) (players g) ->
      fst (GameM.new_round shuffle g) = Raise ValueError).
Proof.
  intros Hfour Hfirst.
  destruct (four_seats_inv Hfour)
    as (a & b & c & d & Hp & Hab & Hac & Had & Hbc & Hbd & Hcd).
  destruct (dealt_table (shuffle GameM.DOMINOS) g Hp Hab Hac Had Hbc Hbd Hcd)
    as (g2 & Hdeal & Hp2 & Hw2 & Hflag2 & Hboard & Hhist & _).
  assert (Hrun : GameM.new_round shuffle g = first_mover g2).
  { rewrite new_round_parts; unfold bind in Hdeal |- *.
    destruct (GameM._reset g) as [[[]|e] g1]; [|discriminate].
    now rewrite Hdeal. }
  rewrite Hrun; unfold first_mover, bind, gets, GameM.winner_index.
  rewrite Hflag2, Hfirst; unfold ret; cbv beta iota.
  rewrite Hw2, Hp2, <- Hp.
  split.
  - intros s Hs.
    rewrite (@index_nth (players g) s (winner g) (proj2 Hfour) Hs).
    eexists; split; [reflexivity|]; simpl.
    repeat split; congruence.
  - intros Hn; apply index_None in Hn; now rewrite Hn.
Qed.

Lemma X12_previous_winner_opens_witness :
  exists g',
    GameM.new_round (fun _ => Rounds.closing_pool) round_settled = (Return tt, g')
    /\ next_player_index g' = 0
    /\ winner g' = winner round_settled
    /\ players g' = players round_settled
    /\ played_dominos g' = []
    /\ round_history g' = []
    /\ first_game_round_step g' = false.
Proof.
  assert (Hfour : four_seats round_settled)
    by (split; [vm_compute; reflexivity | exact four_distinct_refs]).
  apply (proj1 (@X12_previous_winner_opens (fun _ => Rounds.closing_pool)
                  round_settled Hfour ltac:(vm_compute; reflexivity)) 0).
  vm_compute; reflexivity.
Defined.

(** ** A locked board is a blocked round *)

Unset Implicit Arguments.

Lemma get_legal_moves_of_hand (self : Player) (played : list Domino) :
  PlayerM.get_legal_moves self played = moves_of (_dominos self) played.
Proof. reflexivity. Qed.

Lemma occurrences_app (v : Z) (l l' : list Domino) :
  occurrences v (l ++ l') = occurrences v l + occurrences v l'.
Proof. unfold occurrences; now rewrite flat_map_app, count_occ_app. Qed.

Lemma occurrences_cons (v : Z) (d : Domino) (l : list Domino) :
  occurrences v (d :: l)
  = Nat.b2n (fst d =? v)%Z + Nat.b2n (snd d =? v)%Z + occurrences v l.
Proof.
  unfold occurrences; simpl.
  destruct (Z.eq_dec (fst d) v), (Z.eqb_spec (fst d) v),
           (Z.eq_dec (snd d) v), (Z.eqb_spec (snd d) v);
    try contradiction; simpl; lia.
Qed.

Lemma occurrences_canon (v : Z) (l : list Domino) :
  occurrences v (map canon l) = occurrences v l.
Proof.
  induction l as [|d l IH]; [reflexivity|]; simpl map.
  rewrite !occurrences_cons, IH; unfold canon, reversed.
  destruct (fst d <=? snd d)%Z; simpl; lia.
Qed.

Lemma occurrences_perm (v : Z) (l l' : list Domino) :
  Permutation l l' -> occurrences v l = occurrences v l'.
Proof.
  intros H; induction H; rewrite ?occurrences_cons in *; lia.
Qed.

(** Every value of the double-six set shows on eight sides. *)
Lemma occurrences_DOMINOS (v : Z) :
  occurrences v GameM.DOMINOS = if ((0 <=? v) && (v <=? 6))%Z then 8 else 0.
Proof.
  destruct (Z.leb_spec 0 v) as [H0|H0]; destruct (Z.leb_spec v 6) as [H6|H6];
    simpl.
  - assert (Hv : (v = 0 \/ v = 1 \/ v = 2 \/ v = 3 \/ v = 4 \/ v = 5 \/ v = 6)%Z)
      by lia.
    destruct Hv as [ -> | [ -> | [ -> | [ -> | [ -> | [ -> | -> ]]]]]];
      reflexivity.
  - apply count_occ_not_In; simpl; intros H; repeat destruct H as [H|H]; lia.
  - apply count_occ_not_In; simpl; intros H; repeat destruct H as [H|H]; lia.
  - lia.
Qed.

Lemma last_of_nonempty (A : Type) (e : A) (rest : list A) (d d' : A) :
  last (e :: rest) d = last (e :: rest) d'.
Proof.
  revert e; induction rest as [|x rest IH]; intros e; [reflexivity|].
  change (last (x :: rest) d = last (x :: rest) d'); apply IH.
Qed.

(** On a chain the number of sides showing [v] is odd exactly when [v] is
    at one end and not at the other. *)
Lemma chain_parity (v : Z) (first : Domino) (rest : list Domino) :
  chain (first :: rest) ->
  Nat.even (occurrences v (first :: rest))
  = Bool.eqb (fst first =? v)%Z (snd (last (first :: rest) first) =? v)%Z.
Proof.
  revert first; induction rest as [|e rest IH]; intros first Hc.
  - rewrite occurrences_cons; simpl.
    destruct (fst first =? v)%Z, (snd first =? v)%Z; reflexivity.
  - destruct Hc as [Hfit Hc].
    rewrite occurrences_cons, !Nat.even_add, (IH e Hc), Hfit.
    change (last (first :: e :: rest) first) with (last (e :: rest) first).
    rewrite (last_of_nonempty _ e rest first e).
    destruct (fst first =? v)%Z, (fst e =? v)%Z,
             (snd (last (e :: rest) e) =? v)%Z; reflexivity.
Qed.

(** A hand has no move on a board exactly when none of its tiles shows the
    value at either end. *)
Lemma moves_of_nil_iff (hand : list Domino) (first : Domino) (rest : list Domino) :
  moves_of hand (first :: rest) = [] <->
  occurrences (fst first) hand = 0
  /\ occurrences (snd (last (first :: rest) first)) hand = 0.
Proof.
  unfold moves_of; rewrite get_legal_moves_nonempty; cbn [_dominos].
  set (h := fst first); set (t := snd (last (first :: rest) first)).
  induction hand as [|d hand IH]; [simpl; tauto|].
  cbn [flat_map]; rewrite !occurrences_cons.
  split.
  - intros H; apply app_eq_nil in H; destruct H as [Hd Hl].
    apply IH in Hl; destruct Hl as [Hh Ht].
    unfold tile_moves in Hd.
    destruct (fst d =? t)%Z, (snd d =? t)%Z, (fst d =? h)%Z, (snd d =? h)%Z;
      try discriminate; simpl; lia.
  - intros [Hh Ht].
    assert (Hl : flat_map (tile_moves h t) hand = []) by (apply IH; lia).
    rewrite Hl, app_nil_r; unfold tile_moves.
    destruct (fst d =? t)%Z, (snd d =? t)%Z, (fst d =? h)%Z, (snd d =? h)%Z;
      simpl in *; try lia; reflexivity.
Qed.

Lemma occurrences_in_play (g : Game) (v : Z) :
  full_set g ->
  occurrences v (played_dominos g)
  + (occurrences v (hand_at g 0) + occurrences v (hand_at g 1)
     + occurrences v (hand_at g 2) + occurrences v (hand_at g 3))
  = if ((0 <=? v) && (v <=? 6))%Z then 8 else 0.
Proof.
  intros Hfull.
  rewrite <- occurrences_DOMINOS, <- (occurrences_perm v _ _ Hfull).
  rewrite occurrences_canon; unfold tiles_in_play.
  rewrite !occurrences_app; lia.
Qed.

Lemma can_move_false (g : Game) (s : nat) (first : Domino) (rest : list Domino) :
  s < 4 ->
  played_dominos g = first :: rest ->
  can_move g s = false <->
  occurrences (fst first) (hand_at g s) = 0
  /\ occurrences (snd (last (first :: rest) first)) (hand_at g s) = 0.
Proof.
  intros Hs Hb; unfold can_move.
  rewrite Nat.mod_small by exact Hs.
  rewrite Hb, <- moves_of_nil_iff, negb_false_iff, Nat.eqb_eq.
  destruct (moves_of (hand_at g s) (first :: rest)); simpl; split;
    intros; congruence.
Qed.

(** The lock test and the state of the hands. *)
Lemma locked_iff_blocked (g : Game) (first : Domino) (rest : list Domino) :
  chain (played_dominos g) ->
  full_set g ->
  played_dominos g = first :: rest ->
  locked_outcome (played_dominos g) = Return true <-> blocked g.
Proof.
  intros Hchain Hfull Hb.
  set (h := fst first); set (t := snd (last (first :: rest) first)).
  pose proof (occurrences_in_play g h Hfull) as Hh.
  assert (Hpos : 1 <= occurrences h (played_dominos g)).
  { rewrite Hb, occurrences_cons; unfold h; rewrite Z.eqb_refl; simpl; lia. }
  assert (Hbound : (if ((0 <=? h) && (h <=? 6))%Z then 8 else 0) = 8).
  { destruct ((0 <=? h) && (h <=? 6))%Z; [reflexivity | lia]. }
  rewrite Hbound in Hh.
  rewrite Hb at 1; rewrite locked_outcome_spec; fold h t.
  split.
  - intros Hl; inversion Hl as [Hl'].
    apply andb_true_iff in Hl'; destruct Hl' as [Hht H8].
    apply Z.eqb_eq in Hht; apply Nat.eqb_eq in H8.
    rewrite <- Hb in H8.
    intros s Hs; apply (can_move_false g s first rest Hs Hb); fold h t.
    rewrite <- Hht.
    assert (Hs' : s = 0 \/ s = 1 \/ s = 2 \/ s = 3) by lia.
    destruct Hs' as [ -> | [ -> | [ -> | -> ]]]; lia.
  - intros Hblocked.
    assert (H0 : forall s, s < 4 -> occurrences h (hand_at g s) = 0).
    { intros s Hs; apply (can_move_false g s first rest Hs Hb); apply Hblocked; exact Hs. }
    assert (H8 : occurrences h (played_dominos g) = 8).
    { rewrite (H0 0), (H0 1), (H0 2), (H0 3) in Hh by lia; lia. }
    pose proof (chain_parity h first rest) as Hpar.
    rewrite Hb in Hchain, H8; rewrite H8 in Hpar.
    specialize (Hpar Hchain); fold h t in Hpar.
    rewrite Z.eqb_refl in Hpar; simpl in Hpar.
    assert (Hht : (h =? t)%Z = true).
    { destruct (Z.eqb_spec t h) as [ -> | ]; [apply Z.eqb_refl | discriminate]. }
    rewrite Hht, H8; reflexivity.
Qed.

(** X13.  When the board is a chain and board and hands together hold the
    double-six set, the lock test answers for the whole table: the board
    is locked (equal ends whose value shows on 8 sides) exactly when none
    of the four seats has a legal move.  So a round in which nobody can
    move is always ended by the lock test, and on a board that is not
    locked somebody can move. *)
Theorem X13_locked_iff_nobody_can_move
        (g : Game) (first : Domino) (rest : list Domino) :
  chain (played_dominos g) ->
  full_set g ->
  played_dominos g = first :: rest ->
  (locked_outcome (played_dominos g) = Return true <-> blocked g)
  /\ (locked_outcome (played_dominos g) = Return false ->
      exists s, s < 4 /\ can_move g s = true)
  /\ GameM.is_locked g = (locked_outcome (played_dominos g), g).
Proof.
  intros Hchain Hfull Hb.
  pose proof (locked_iff_blocked g first rest Hchain Hfull Hb) as Hiff.
  split; [exact Hiff|]; split; [|apply is_locked_run].
  intros Hnot.
  destruct (can_move g 0) eqn:E0; [exists 0; split; [lia | exact E0]|].
  destruct (can_move g 1) eqn:E1; [exists 1; split; [lia | exact E1]|].
  destruct (can_move g 2) eqn:E2; [exists 2; split; [lia | exact E2]|].
  destruct (can_move g 3) eqn:E3; [exists 3; split; [lia | exact E3]|].
  exfalso.
  assert (Hblocked : blocked g).
  { intros s Hs.
    assert (Hs' : s = 0 \/ s = 1 \/ s = 2 \/ s = 3) by lia.
    destruct Hs' as [ -> | [ -> | [ -> | -> ]]]; assumption. }
  apply Hiff in Hblocked; congruence.
Qed.

Lemma chain_checked (played : list Domino) :
  chain_check played = true -> chain played.
Proof.
  induction played as [|d rest IH]; [intros; exact I|].
  destruct rest as [|e rest']; [intros; exact I|].
  intros H; apply andb_true_iff in H; destruct H as [Hfit H].
  split; [now apply Z.eqb_eq | now apply IH].
Qed.

Lemma X13_locked_iff_nobody_can_move_witness :
  (locked_outcome (played_dominos locked_table) = Return true
   <-> blocked locked_table)
  /\ (locked_outcome (played_dominos locked_table) = Return false ->
      exists s, s < 4 /\ can_move locked_table s = true)
  /\ GameM.is_locked locked_table
     = (locked_outcome (played_dominos locked_table), locked_table).
Proof.
  apply (X13_locked_iff_nobody_can_move locked_table (5, 0)%Z locked_rest).
  - apply chain_checked; vm_compute; reflexivity.
  - apply shuffle_of_sound; vm_compute; reflexivity.
  - vm_compute; reflexivity.
Defined.

(** ** A round in play *)

Ltac upd_cases r p :=
  unfold upd; destruct (Nat.eqb_spec r p) as [ -> | ]; auto.

(** The turn of the player to move, in a round in play: a pass when
    nothing is offered, and otherwise the play of an offered move (the
    opening double six being the move offered on the empty board). *)
Lemma turn_of_mover (g : Game) (p : ref) :
  nth_error (players g) (next_player_index g) = Some p ->
  (first_game_round_step g = true ->
   played_dominos g = [] /\ In (6, 6)%Z (_dominos (store g p))) ->
  answers_from_offer (_action_chooser (store g p)) ->
  exists turn g1,
    take_the_turn p g = (Return turn, g1)
    /\ players g1 = players g
    /\ winner g1 = winner g
    /\ round_history g1 = round_history g
    /\ next_player_index g1 = next_player_index g
    /\ first_game_round_step g1 = false
    /\ (forall r, _name (store g1 r) = _name (store g r)
                  /\ _action_chooser (store g1 r) = _action_chooser (store g r)
                  /\ score (store g1 r) = score (store g r))
    /\ (forall r, r <> p -> _dominos (store g1 r) = _dominos (store g r))
    /\ ((turn = (false, None)
         /\ moves_of (_dominos (store g p)) (played_dominos g) = []
         /\ _dominos (store g1 p) = _dominos (store g p)
         /\ played_dominos g1 = played_dominos g)
        \/ (exists a,
              turn = (true, Some (place a))
              /\ In a (moves_of (_dominos (store g p)) (played_dominos g))
              /\ Permutation (_dominos (store g p))
                             (domino a :: _dominos (store g1 p))
              /\ played_dominos g1 = attach a (played_dominos g))).
Proof.
  intros Hp Hopen Hfair.
  destruct (first_game_round_step g) eqn:Hfirst.
  - destruct (Hopen eq_refl) as [Hboard Hsix].
    destruct (remove_In Domino_eqb Domino_eqb_eq _ _ Hsix) as [hand Hr].
    pose proof (remove_Some_perm Domino_eqb Domino_eqb_eq _ _ Hr) as Hperm.
    exists (true, Some (6, 6)%Z).
    eexists; split.
    { unfold take_the_turn, bind, gets, GameM.call_on_player,
        PlayerM.play_double_six.
      rewrite Hfirst, Hr; reflexivity. }
    simpl; repeat (split; [reflexivity|]).
    split; [intros r; upd_cases r p|].
    split; [intros r Hne; unfold upd; now rewrite (proj2 (Nat.eqb_neq r p) Hne)|].
    right; exists (mkAction true (6, 6)%Z false).
    split; [reflexivity|]; split; [|split].
    + rewrite Hboard; unfold moves_of; simpl.
      apply (in_map (fun d => mkAction true d false)); exact Hsix.
    + unfold upd; rewrite Nat.eqb_refl; exact Hperm.
    + rewrite Hboard; reflexivity.
  - clear Hopen.
    destruct (PlayerM.get_legal_moves (store g p) (played_dominos g))
      as [|m ms] eqn:Hmoves.
    + exists (false, None).
      eexists; split.
      { unfold take_the_turn, bind, gets, GameM.call_on_player,
          PlayerM.take_turn.
        rewrite Hfirst, Hmoves; reflexivity. }
      simpl; repeat (split; [reflexivity || assumption|]).
      split; [intros r; upd_cases r p|].
      split; [intros r Hne; unfold upd; now rewrite (proj2 (Nat.eqb_neq r p) Hne)|].
      left; split; [reflexivity|]; split; [exact Hmoves|].
      split; [unfold upd; now rewrite Nat.eqb_refl | reflexivity].
    + assert (Hne : PlayerM.get_legal_moves (store g p) (played_dominos g) <> [])
        by (rewrite Hmoves; discriminate).
      pose proof (Hfair (played_dominos g) _ Hne) as Hin.
      destruct (@take_turn_offered (store g p) (played_dominos g) Hne Hin)
        as (hand & Hrun & Hperm).
      eexists; eexists; split.
      { unfold take_the_turn, bind, gets, GameM.call_on_player.
        rewrite Hfirst, Hrun; reflexivity. }
      simpl; repeat (split; [reflexivity || assumption|]).
      split; [intros r; upd_cases r p|].
      split; [intros r Hne'; unfold upd; now rewrite (proj2 (Nat.eqb_neq r p) Hne')|].
      right; eexists; split; [reflexivity|]; split; [exact Hin|].
      split; [unfold upd; rewrite Nat.eqb_refl; exact Hperm | reflexivity].
Qed.

Lemma same_choosers_refl (g : Game) : same_choosers g g.
Proof. intros r; reflexivity. Qed.

Lemma same_choosers_trans (g1 g2 g3 : Game) :
  same_choosers g1 g2 -> same_choosers g2 g3 -> same_choosers g1 g3.
Proof. intros H12 H23 r; now rewrite H23, H12. Qed.

Lemma same_choosers_check : preserves same_choosers GameM.check_for_bonus_points.
Proof.
  unfold GameM.check_for_bonus_points, GameM.first_left, GameM.last_right,
    GameM.component, GameM.give_points_to_team.
  repeat first
    [ apply preserves_modify; intros g r; simpl; upd_cases r p
    | match goal with
      | |- preserves _ (update_player ?p _) =>
          intros g r; simpl; upd_cases r p
      | |- preserves _ (GameM.played_dominos_remove ?x) =>
          intros g r; unfold GameM.played_dominos_remove;
          destruct x as [d|]; [|reflexivity];
          destruct (PyList.remove Domino_eqb d (played_dominos g)); reflexivity
      end
    | frame_step same_choosers_refl same_choosers_trans ].
Qed.

Lemma only_scores_differ_refl (g : Game) : only_scores_differ g g.
Proof. unfold only_scores_differ; auto 10. Qed.

Lemma last_four_exists (A : Type) (l : list A) :
  4 <= length l ->
  exists before t0 t1 t2 t3, l = before ++ [t0; t1; t2; t3].
Proof.
  intros Hlen.
  pose proof (firstn_skipn (length l - 4) l) as Hsplit.
  assert (H4 : length (skipn (length l - 4) l) = 4)
    by (rewrite length_skipn; lia).
  destruct (skipn (length l - 4) l) as [|t0 [|t1 [|t2 [|t3 [|t4 r]]]]];
    try discriminate.
  exists (firstn (length l - 4) l), t0, t1, t2, t3; now symmetry.
Qed.

(** In a round in play the bonus check returns, and changes scores
    only. *)
Lemma check_returns (g : Game) (before : list TurnDataPoint)
      (last : TurnDataPoint) (p : ref) :
  four_seats g ->
  In (winner g) (players g) ->
  names_known g ->
  round_history g = before ++ [last] ->
  In p (players g) ->
  player_name last = _name (store g p) ->
  (did_play last = false -> _dominos (store g p) <> []) ->
  exists g',
    GameM.check_for_bonus_points g = (Return tt, g')
    /\ only_scores_differ g g'.
Proof.
  intros Hfour Hw [Hnames Hknown] Hh Hp Hname Hhand.
  destruct (did_play last) eqn:Hplay.
  { exists g; split; [|apply only_scores_differ_refl].
    eapply check_after_play; eassumption. }
  specialize (Hhand eq_refl).
  assert (Hlookup : GameM.get_player_by_name (player_name last) g = (Return p, g)).
  { rewrite Hname; now apply get_player_by_name_own. }
  assert (Haward : forall q, exists g',
             GameM.give_points_to_team q 25%Z g = (Return tt, g')
             /\ only_scores_differ g g').
  { intros q.
    destruct (@give_points_to_team_four q 25%Z g Hfour)
      as [[Hn _] | (i & g' & _ & Hrun & Hframe & _)]; [contradiction|].
    exists g'; split; assumption. }
  assert (Hempty : PlayerM.is_hand_empty (store g p) = false).
  { destruct (PlayerM.is_hand_empty (store g p)) eqn:E; [|reflexivity].
    apply is_hand_empty_nil in E; contradiction. }
  unfold GameM.check_for_bonus_points, bind, gets; cbv beta iota.
  destruct (Nat.ltb_spec (length (round_history g)) 2) as [H2|H2].
  { exists g; split; [reflexivity | apply only_scores_differ_refl]. }
  replace (rev (round_history g)) with (last :: rev before)
    by (rewrite Hh, rev_unit; reflexivity).
  rewrite Hplay, Hlookup.
  destruct (Nat.eqb_spec (length (round_history g)) 2) as [E2|E2].
  { apply Haward. }
  destruct (Nat.ltb_spec (length (round_history g)) 4) as [H4|H4].
  { exists g; split; [reflexivity | apply only_scores_differ_refl]. }
  destruct (last_four_exists _ (round_history g) H4)
    as (before' & t0 & t1 & t2 & t3 & Hfourturns).
  replace (PyList.last_n 4 (round_history g)) with [t0; t1; t2; t3]
    by (rewrite Hfourturns, last_four_of; reflexivity).
  destruct (did_play t0 && negb (did_play t1) && negb (did_play t2)
            && negb (did_play t3)).
  - assert (Hin0 : In t0 (round_history g)).
    { rewrite Hfourturns; apply in_or_app; right; now left. }
    destruct (@get_player_by_name_found g (player_name t0) (Hknown t0 Hin0))
      as (q & Hq & _).
    rewrite Hq; apply Haward.
  - rewrite Hempty; simpl.
    exists g; split; [reflexivity | apply only_scores_differ_refl].
Qed.

(** ** A step of a round in play *)

Lemma scores_grow_refl (g : Game) : scores_grow g g.
Proof. intros r; lia. Qed.

Lemma scores_grow_trans (g1 g2 g3 : Game) :
  scores_grow g1 g2 -> scores_grow g2 g3 -> scores_grow g1 g3.
Proof. intros H12 H23 r; specialize (H12 r); specialize (H23 r); lia. Qed.

Lemma scores_grow_check : preserves scores_grow GameM.check_for_bonus_points.
Proof.
  unfold GameM.check_for_bonus_points, GameM.first_left, GameM.last_right,
    GameM.component, GameM.give_points_to_team.
  repeat first
    [ apply preserves_modify; intros g r; simpl; upd_cases r p; lia
    | match goal with
      | |- preserves _ (update_player ?p _) =>
          intros g r; simpl; upd_cases r p; simpl; lia
      | |- preserves _ (GameM.played_dominos_remove ?x) =>
          intros g r; unfold GameM.played_dominos_remove;
          destruct x as [d|]; [|simpl; lia];
          destruct (PyList.remove Domino_eqb d (played_dominos g)); simpl; lia
      end
    | frame_step scores_grow_refl scores_grow_trans ].
Qed.

Lemma seat_holder (g : Game) (s : nat) :
  four_seats g -> s < 4 ->
  exists p, nth_error (players g) s = Some p /\ In p (players g).
Proof.
  intros [Hlen _] Hs.
  destruct (nth_error (players g) s) as [p|] eqn:E.
  - exists p; split; [reflexivity | eapply nth_error_In; eassumption].
  - apply nth_error_None in E; lia.
Qed.

Lemma hand_at_holder (g : Game) (s : nat) (p : ref) :
  nth_error (players g) s = Some p -> hand_at g s = _dominos (store g p).
Proof. intros H; unfold hand_at; now rewrite H. Qed.

Lemma other_hands (g g' : Game) (i : nat) (p : ref) :
  NoDup (players g) ->
  players g' = players g ->
  nth_error (players g) i = Some p ->
  (forall r, r <> p -> _dominos (store g' r) = _dominos (store g r)) ->
  forall s, s <> i -> hand_at g' s = hand_at g s.
Proof.
  intros Hnd Hp Hi Hother s Hs; unfold hand_at; rewrite Hp.
  destruct (nth_error (players g) s) as [q|] eqn:E; [|reflexivity].
  apply Hother; intros ->; apply Hs.
  apply (proj1 (NoDup_nth_error (players g)) Hnd); [|congruence].
  apply nth_error_Some; congruence.
Qed.

(** In a round in play the turn is taken and the bonus check returns: the
    step is then what [end_of_turn] makes of the state they leave. *)
Lemma turn_and_check (g : Game) (p : ref) :
  in_play g ->
  nth_error (players g) (next_player_index g) = Some p ->
  exists turn g3,
    after_turn p turn g g3 /\ GameM.step g = end_of_turn p g3.
Proof.
  intros ((Hfour & Hidx & Hw & [Hnames Hknown] & Hfair & Hchain & Hfull)
          & Hhands & Hopen) Hp.
  assert (Hin : In p (players g)) by (eapply nth_error_In; eassumption).
  assert (Hhand : _dominos (store g p) <> []).
  { rewrite <- (hand_at_holder g _ p Hp); apply Hhands; exact Hidx. }
  destruct (turn_of_mover g p Hp)
    as (turn & g1 & Hturn & Hp1 & Hw1 & Hh1 & Hi1 & Hf1 & Hkeep1 & Hother1
        & Hcases).
  { intros Hfirst; rewrite Hfirst in Hopen.
    rewrite <- (hand_at_holder g _ p Hp); exact Hopen. }
  { apply Hfair; exact Hin. }
  set (g2 := turn_recorded p turn g1).
  destruct (check_returns g2 (round_history g1)
              (mkTurnDataPoint (_name (store g1 p)) (fst turn) (snd turn)) p)
    as (g3 & Hcheck & Hsd).
  - split; simpl; rewrite Hp1; apply Hfour.
  - simpl; rewrite Hw1, Hp1; exact Hw.
  - split.
    + simpl; rewrite Hp1.
      erewrite map_ext; [exact Hnames|].
      intros q; simpl; apply Hkeep1.
    + simpl; intros t Ht.
      apply in_app_or in Ht; destruct Ht as [Ht|[<-|[]]].
      * rewrite Hh1 in Ht; destruct (Hknown t Ht) as (q & Hq & Hn).
        exists q; split; [now rewrite Hp1|].
        rewrite <- Hn; apply Hkeep1.
      * exists p; split; [now rewrite Hp1 | reflexivity].
  - reflexivity.
  - simpl; now rewrite Hp1.
  - reflexivity.
  - simpl; intros Hpass.
    destruct Hcases as [(_ & _ & Hsame & _) | (a & -> & _)];
      [now rewrite Hsame | discriminate].
  - exists turn, g3; split; [|eapply step_after_turn; eassumption].
    pose proof (same_choosers_check g2) as Hch.
    pose proof (scores_grow_check g2) as Hsg.
    fold g2 in Hcheck; rewrite Hcheck in Hch, Hsg; simpl in Hch, Hsg.
    destruct Hsd as (Hp3 & Hw3 & Hb3 & Hh3 & Hf3 & Hi3 & Hnd3 & _).
    simpl in Hp3, Hw3, Hb3, Hh3, Hf3, Hi3, Hnd3.
    unfold after_turn.
    split; [congruence|]. split; [congruence|]. split; [congruence|].
    split; [congruence|].
    split.
    { rewrite Hh3, Hh1, (proj1 (Hkeep1 p)); reflexivity. }
    split.
    { intros r; split; [|split].
      - rewrite (proj1 (Hnd3 r)); apply Hkeep1.
      - rewrite (Hch r); apply Hkeep1.
      - specialize (Hsg r); unfold g2 in Hsg; simpl in Hsg.
        rewrite (proj2 (proj2 (Hkeep1 r))) in Hsg; exact Hsg. }
    split.
    { intros r Hr; rewrite (proj2 (Hnd3 r)); now apply Hother1. }
    rewrite (proj2 (Hnd3 p)), Hb3; exact Hcases.
Qed.

Lemma mover_is_seated (g : Game) (p : ref) (a b c d : ref) :
  players g = [a; b; c; d] ->
  nth_error (players g) (next_player_index g) = Some p ->
  p = a \/ p = b \/ p = c \/ p = d.
Proof.
  intros Hpl Hp; apply nth_error_In in Hp; rewrite Hpl in Hp; simpl in Hp.
  intuition congruence.
Qed.

(** The tiles of the table after a turn are the tiles of before. *)
Lemma tiles_after_turn (g g3 : Game) (p : ref) (turn : bool * option Domino) :
  four_seats g ->
  nth_error (players g) (next_player_index g) = Some p ->
  after_turn p turn g g3 ->
  Permutation (map canon (tiles_in_play g3)) (map canon (tiles_in_play g)).
Proof.
  intros Hfour Hp (Hp3 & _ & _ & _ & _ & _ & Hother & Hturn).
  destruct (four_seats_inv Hfour)
    as (a & b & c & d & Hpl & Hab & Hac & Had & Hbc & Hbd & Hcd).
  pose proof (mover_is_seated g p a b c d Hpl Hp) as Hseat.
  unfold tiles_in_play, hand_at; rewrite Hp3, Hpl; cbn [nth_error].
  destruct Hturn as [(_ & _ & Hhand & Hboard) | (mv & _ & _ & Hperm & Hboard)].
  - assert (Hall : forall r, _dominos (store g3 r) = _dominos (store g r)).
    { intros r; destruct (Nat.eq_dec r p) as [->|Hr]; auto. }
    rewrite Hboard, !Hall; reflexivity.
  - rewrite Hboard, !map_app, attach_tiles.
    apply (Permutation_map canon) in Hperm; cbn [map] in Hperm.
    destruct Hseat as [ -> | [ -> | [ -> | -> ] ] ].
    + rewrite (Hother b), (Hother c), (Hother d) by congruence.
      rewrite Hperm; apply Permutation_middle.
    + rewrite (Hother a), (Hother c), (Hother d) by congruence.
      rewrite Hperm; cbn [app].
      rewrite !(app_assoc (map canon (played_dominos g))
                  (map canon (_dominos (store g a)))).
      apply Permutation_middle.
    + rewrite (Hother a), (Hother b), (Hother d) by congruence.
      rewrite Hperm; cbn [app].
      rewrite !(app_assoc (map canon (_dominos (store g a)))
                  (map canon (_dominos (store g b)))).
      rewrite !(app_assoc (map canon (played_dominos g))).
      apply Permutation_middle.
    + rewrite (Hother a), (Hother b), (Hother c) by congruence.
      rewrite Hperm; cbn [app].
      rewrite !(app_assoc (map canon (_dominos (store g b)))
                  (map canon (_dominos (store g c)))).
      rewrite !(app_assoc (map canon (_dominos (store g a)))).
      rewrite !(app_assoc (map canon (played_dominos g))).
      apply Permutation_middle.
Qed.

(** The table is in order after the turn and the bonus check. *)
Lemma table_after_turn (g g3 : Game) (p : ref) (turn : bool * option Domino) :
  table_in_order g ->
  nth_error (players g) (next_player_index g) = Some p ->
  after_turn p turn g g3 ->
  table_in_order g3.
Proof.
  intros (Hfour & Hidx & Hw & [Hnames Hknown] & Hfair & Hchain & Hfull) Hp Hafter.
  pose proof (tiles_after_turn g g3 p turn Hfour Hp Hafter) as Htiles.
  destruct Hafter as (Hp3 & Hw3 & Hi3 & Hf3 & Hh3 & Hkeep & Hother & Hturn).
  assert (Hin : In p (players g)) by (eapply nth_error_In; eassumption).
  split; [unfold four_seats; rewrite Hp3; exact Hfour|].
  split; [rewrite Hi3; exact Hidx|].
  split; [rewrite Hw3, Hp3; exact Hw|].
  split.
  { split.
    - rewrite Hp3; erewrite map_ext; [exact Hnames|].
      intros q; simpl; apply Hkeep.
    - intros t Ht; rewrite Hh3 in Ht.
      apply in_app_or in Ht; destruct Ht as [Ht|[<-|[]]].
      + destruct (Hknown t Ht) as (q & Hq & Hn).
        exists q; split; [now rewrite Hp3|].
        rewrite <- Hn; apply Hkeep.
      + exists p; split; [now rewrite Hp3 | apply Hkeep]. }
  split.
  { intros q Hq; rewrite Hp3 in Hq.
    rewrite (proj1 (proj2 (Hkeep q))); now apply Hfair. }
  split.
  { destruct Hturn as [(_ & _ & _ & ->) | (mv & _ & Hin' & _ & ->)];
      [exact Hchain|].
    apply (attach_chain (store g p)); [|exact Hchain].
    rewrite get_legal_moves_of_hand; exact Hin'. }
  unfold full_set; rewrite Htiles; exact Hfull.
Qed.

Lemma table_with_winner (g : Game) (w : ref) :
  table_in_order g -> In w (players g) -> table_in_order (with_winner w g).
Proof.
  intros (Hfour & Hidx & Hw & Hnames & Hfair & Hchain & Hfull) Hin.
  split; [exact Hfour|]; split; [exact Hidx|]; split; [exact Hin|].
  split; [exact Hnames|]; split; [exact Hfair|]; split; assumption.
Qed.

Lemma table_with_next_player_index (g : Game) (j : nat) :
  table_in_order g -> j < 4 -> table_in_order (with_next_player_index j g).
Proof.
  intros (Hfour & Hidx & Hw & Hnames & Hfair & Hchain & Hfull) Hj.
  split; [exact Hfour|]; split; [exact Hj|]; split; [exact Hw|].
  split; [exact Hnames|]; split; [exact Hfair|]; split; assumption.
Qed.

(** The open end of a turn: hand not empty, board not locked. *)
Lemma end_of_turn_open (p : ref) (g : Game) :
  _dominos (store g p) <> [] ->
  locked_outcome (played_dominos g) = Return false ->
  players g <> [] ->
  end_of_turn p g
  = (Return true,
     with_next_player_index
       ((next_player_index g + 1) mod length (players g)) g).
Proof.
  intros Hne Hl Hp; unfold end_of_turn, bind, gets.
  destruct (PlayerM.is_hand_empty (store g p)) eqn:He;
    [apply is_hand_empty_nil in He; contradiction|].
  rewrite is_locked_run, Hl; unfold GameM.get_next_player_index, gets.
  destruct (length (players g)) eqn:Hn;
    [destruct (players g); [contradiction | discriminate]|].
  reflexivity.
Qed.

Lemma moves_on_empty_board (hand : list Domino) :
  moves_of hand [] = map (fun d => mkAction true d false) hand.
Proof. reflexivity. Qed.

Lemma passes_ahead_le (g : Game) :
  next_player_index g < 4 ->
  (exists s, s < 4 /\ can_move g s = true) ->
  passes_ahead g <= 3.
Proof.
  intros Hi (s & Hs & Hc); unfold passes_ahead.
  destruct (next_player_index g) as [|[|[|[|i]]]]; [| | | |lia];
    cbn [Nat.add];
    change (can_move g 4) with (can_move g 0);
    change (can_move g 5) with (can_move g 1);
    change (can_move g 6) with (can_move g 2);
    destruct s as [|[|[|[|s]]]]; try lia;
    destruct (can_move g 0), (can_move g 1), (can_move g 2), (can_move g 3);
    simpl; try lia; discriminate.
Qed.

Lemma passes_ahead_pass (g g' : Game) :
  next_player_index g < 4 ->
  next_player_index g' = (next_player_index g + 1) mod 4 ->
  (forall s, can_move g' s = can_move g s) ->
  can_move g (next_player_index g) = false ->
  (exists s, s < 4 /\ can_move g s = true) ->
  S (passes_ahead g') = passes_ahead g.
Proof.
  intros Hi Hi' Hsame Hpass (s & Hs & Hc); unfold passes_ahead.
  rewrite Hi', !Hsame.
  destruct (next_player_index g) as [|[|[|[|i]]]]; [| | | |lia];
    cbn [Nat.add] in *;
    change (1 mod 4) with 1; change (2 mod 4) with 2;
    change (3 mod 4) with 3; change (4 mod 4) with 0;
    cbn [Nat.add];
    change (can_move g 4) with (can_move g 0);
    change (can_move g 5) with (can_move g 1);
    change (can_move g 6) with (can_move g 2);
    destruct s as [|[|[|[|s]]]]; try lia;
    destruct (can_move g 0), (can_move g 1), (can_move g 2), (can_move g 3);
    simpl; try lia; discriminate.
Qed.

Lemma tiles_in_hands_play (g g3 : Game) (i : nat) :
  i < 4 ->
  (forall s, s <> i -> hand_at g3 s = hand_at g s) ->
  length (hand_at g i) = S (length (hand_at g3 i)) ->
  tiles_in_hands g = S (tiles_in_hands g3).
Proof.
  intros Hi Hsame Hlen; unfold tiles_in_hands.
  destruct i as [|[|[|[|i]]]]; [| | | |lia].
  - rewrite (Hsame 1), (Hsame 2), (Hsame 3) by lia; lia.
  - rewrite (Hsame 0), (Hsame 2), (Hsame 3) by lia; lia.
  - rewrite (Hsame 0), (Hsame 1), (Hsame 3) by lia; lia.
  - rewrite (Hsame 0), (Hsame 1), (Hsame 2) by lia; lia.
Qed.

Lemma someone_can_move (g : Game) :
  ~ blocked g -> exists s, s < 4 /\ can_move g s = true.
Proof.
  intros Hnb.
  destruct (can_move g 0) eqn:E0; [exists 0; split; [lia | exact E0]|].
  destruct (can_move g 1) eqn:E1; [exists 1; split; [lia | exact E1]|].
  destruct (can_move g 2) eqn:E2; [exists 2; split; [lia | exact E2]|].
  destruct (can_move g 3) eqn:E3; [exists 3; split; [lia | exact E3]|].
  exfalso; apply Hnb; intros s Hs.
  destruct s as [|[|[|[|s]]]]; [assumption..|lia].
Qed.

(** A step of a round in play returns.  When it returns [True] the round
    is still in play and the bound on the steps to come has gone down;
    when it returns [False] the round is over.  No name, chooser or seat
    changes and no score goes down. *)
Lemma step_in_play (g : Game) :
  in_play g ->
  exists b g',
    GameM.step g = (Return b, g')
    /\ players g' = players g
    /\ (forall r, _name (store g' r) = _name (store g r)
                  /\ _action_chooser (store g' r) = _action_chooser (store g r)
                  /\ (score (store g r) <= score (store g' r))%Z)
    /\ (if b then in_play g' /\ steps_left g' < steps_left g
        else round_over g').
Proof.
  intros Hplay.
  pose proof Hplay as (Htable & Hhands & Hopen).
  pose proof Htable as (Hfour & Hidx & Hw & Hnames & Hfair & Hchain & Hfull).
  destruct (seat_holder g _ Hfour Hidx) as (p & Hp & Hin).
  destruct (turn_and_check g p Hplay Hp) as (turn & g3 & Hafter & Hstep).
  pose proof (table_after_turn g g3 p turn Htable Hp Hafter) as Htable3.
  pose proof Htable3
    as (Hfour3 & Hidx3 & Hw3 & Hnames3 & Hfair3 & Hchain3 & Hfull3).
  pose proof Hafter as (Hp3 & Hwin3 & Hi3 & Hf3 & Hh3 & Hkeep & Hother & Hturn).
  assert (Hsame : forall s, s <> next_player_index g ->
                            hand_at g3 s = hand_at g s).
  { apply (other_hands g g3 _ p (proj2 Hfour) Hp3 Hp Hother). }
  assert (Hhand3 : hand_at g3 (next_player_index g) = _dominos (store g3 p)).
  { apply hand_at_holder; rewrite Hp3; exact Hp. }
  assert (Hhandp : hand_at g (next_player_index g) = _dominos (store g p))
    by apply (hand_at_holder g _ p Hp).
  assert (Hboard3 : played_dominos g3 <> []).
  { destruct Hturn as [(_ & Hnone & _ & Hb) | (mv & _ & _ & _ & Hb)];
      rewrite Hb.
    - intros E; rewrite E, moves_on_empty_board in Hnone.
      apply map_eq_nil in Hnone.
      apply (Hhands _ Hidx); now rewrite Hhandp.
    - unfold attach; destruct (insert_end mv); [|discriminate].
      intros E; apply app_eq_nil in E; destruct E; discriminate. }
  assert (Hlen4 : length (players g3) = 4) by apply Hfour3.
  destruct (PlayerM.is_hand_empty (store g3 p)) eqn:He.
  - exists false, (with_winner p g3).
    split; [rewrite Hstep; apply end_of_turn_hand_empty; exact He|].
    split; [exact Hp3|]; split; [exact Hkeep|].
    split; [apply table_with_winner; [exact Htable3 | rewrite Hp3; exact Hin]|].
    split; [exact Hf3|]; split; [exact Hboard3|].
    split.
    { intros s Hs Hd; change (hand_at g3 s <> []).
      change (s <> next_player_index g3) in Hd; rewrite Hi3 in Hd.
      rewrite (Hsame s Hd); now apply Hhands. }
    left; split.
    + change (hand_at g3 (next_player_index g3) = []).
      rewrite Hi3, Hhand3; now apply is_hand_empty_nil.
    + change (nth_error (players g3) (next_player_index g3) = Some p).
      rewrite Hi3, Hp3; exact Hp.
  - assert (Hne : _dominos (store g3 p) <> []).
    { intros E; apply is_hand_empty_nil in E; congruence. }
    assert (Hall3 : forall s, s < 4 -> hand_at g3 s <> []).
    { intros s Hs; destruct (Nat.eq_dec s (next_player_index g)) as [->|Hd];
        [now rewrite Hhand3 | rewrite (Hsame s Hd); now apply Hhands]. }
    assert (Hex : exists first rest, played_dominos g3 = first :: rest).
    { destruct (played_dominos g3) as [|first rest];
        [contradiction | now exists first, rest]. }
    destruct Hex as (first & rest & Hb3).
    pose proof (locked_iff_blocked g3 first rest Hchain3 Hfull3 Hb3) as Hlock.
    destruct (locked_outcome (played_dominos g3)) as [[|]|e] eqn:Hl.
    + destruct (seat_holder g3
                  ((next_player_index g3 + 1) mod length (players g3)) Hfour3)
        as (q & Hq & Hinq).
      { rewrite Hlen4; apply Nat.mod_upper_bound; lia. }
      exists false; eexists; split.
      { rewrite Hstep; eapply end_of_turn_locked; eassumption. }
      split; [exact Hp3|]; split; [exact Hkeep|].
      split.
      { apply table_with_winner; [exact Htable3|].
        destruct (_ <? _)%Z; [rewrite Hp3; exact Hin | exact Hinq]. }
      split; [exact Hf3|]; split; [exact Hboard3|].
      split; [intros s Hs _; now apply Hall3|].
      right; split; [|apply Hlock; reflexivity].
      apply Hall3; exact Hidx3.
    + assert (Hsome : exists s, s < 4 /\ can_move g3 s = true).
      { apply someone_can_move; intros Hb; apply Hlock in Hb; congruence. }
      exists true; eexists; split.
      { rewrite Hstep; apply end_of_turn_open;
          [exact Hne | exact Hl | intros E; rewrite E in Hlen4; discriminate]. }
      rewrite Hlen4, Hi3.
      set (g' := with_next_player_index ((next_player_index g + 1) mod 4) g3).
      assert (Hj : (next_player_index g + 1) mod 4 < 4)
        by (apply Nat.mod_upper_bound; lia).
      split; [exact Hp3|]; split; [exact Hkeep|].
      split.
      * split; [apply table_with_next_player_index; assumption|].
        split; [exact Hall3|].
        change (first_game_round_step g') with (first_game_round_step g3).
        rewrite Hf3; right; exact Hl.
      * unfold steps_left.
        destruct Hturn as [(_ & Hnone & Hsameh & Hb)
                          | (mv & _ & _ & Hperm & Hb)].
        -- assert (Hhands_same : forall s, hand_at g3 s = hand_at g s).
           { intros s; destruct (Nat.eq_dec s (next_player_index g)) as [->|Hd];
               [rewrite Hhand3, Hhandp; exact Hsameh | now apply Hsame]. }
           assert (Hcm : forall s, can_move g' s = can_move g s).
           { intros s; unfold can_move.
             change (hand_at g' (s mod 4)) with (hand_at g3 (s mod 4)).
             change (played_dominos g') with (played_dominos g3).
             now rewrite Hhands_same, Hb. }
           assert (Htiles : tiles_in_hands g' = tiles_in_hands g).
           { unfold tiles_in_hands.
             change (hand_at g' 0) with (hand_at g3 0).
             change (hand_at g' 1) with (hand_at g3 1).
             change (hand_at g' 2) with (hand_at g3 2).
             change (hand_at g' 3) with (hand_at g3 3).
             now rewrite !Hhands_same. }
           assert (Hpass : can_move g (next_player_index g) = false).
           { unfold can_move; rewrite Nat.mod_small by exact Hidx.
             now rewrite Hhandp, Hnone. }
           assert (Hsome' : exists s, s < 4 /\ can_move g s = true).
           { destruct Hsome as (s & Hs & Hc); exists s; split; [exact Hs|].
             rewrite <- Hcm; exact Hc. }
           pose proof (passes_ahead_pass g g' Hidx eq_refl Hcm Hpass Hsome').
           lia.
        -- assert (Htiles : tiles_in_hands g = S (tiles_in_hands g3)).
           { apply (tiles_in_hands_play g g3 (next_player_index g) Hidx Hsame).
             rewrite Hhand3, Hhandp.
             apply Permutation_length in Hperm; exact Hperm. }
           assert (Hle : passes_ahead g' <= 3)
             by (apply passes_ahead_le; [exact Hj | exact Hsome]).
           change (tiles_in_hands g') with (tiles_in_hands g3).
           lia.
    + rewrite Hb3, locked_outcome_spec in Hl; discriminate.
Qed.

(** ** The round loop *)

(** A round in play is over after at most [steps_left] further steps. *)
Lemma while_step_ends (fuel : nat) :
  forall g,
    in_play g ->
    steps_left g < fuel ->
    exists g',
      Loop.while_step fuel g = (Return true, g')
      /\ round_over g'
      /\ players g' = players g
      /\ (forall r, _name (store g' r) = _name (store g r)
                    /\ _action_chooser (store g' r) = _action_chooser (store g r)
                    /\ (score (store g r) <= score (store g' r))%Z).
Proof.
  induction fuel as [|fuel IH]; intros g Hplay Hlt; [lia|].
  destruct (step_in_play g Hplay) as (b & g1 & Hstep & Hp1 & Hkeep1 & Hb).
  simpl; unfold bind; rewrite Hstep.
  destruct b.
  - destruct Hb as [Hplay1 Hdec].
    destruct (IH g1 Hplay1 ltac:(lia)) as (g' & Hrun & Hover & Hp' & Hkeep').
    exists g'; split; [exact Hrun|]; split; [exact Hover|].
    split; [congruence|].
    intros r; destruct (Hkeep1 r) as (Hn1 & Hc1 & Hs1).
    destruct (Hkeep' r) as (Hn' & Hc' & Hs').
    repeat split; try congruence; lia.
  - exists g1; split; [reflexivity|]; split; [exact Hb|].
    split; [exact Hp1 | exact Hkeep1].
Qed.

Lemma passes_ahead_max (g : Game) : passes_ahead g <= 4.
Proof.
  unfold passes_ahead.
  repeat match goal with |- context [if ?b then _ else _] => destruct b end;
    lia.
Qed.

(** No round in play has more than 116 steps to go. *)
Lemma steps_left_bound (g : Game) : full_set g -> steps_left g <= 116.
Proof.
  intros Hfull; apply Permutation_length in Hfull.
  rewrite length_map in Hfull; unfold tiles_in_play in Hfull.
  rewrite !length_app in Hfull.
  change (length GameM.DOMINOS) with 28 in Hfull.
  pose proof (passes_ahead_max g).
  unfold steps_left, tiles_in_hands; lia.
Qed.

Lemma slice_nonempty (A : Type) (pool : list A) (s : nat) :
  s < 4 -> 4 <= length pool -> PyList.slice s 4 pool <> [].
Proof.
  intros Hs Hlen.
  destruct pool as [|x0 [|x1 [|x2 [|x3 pool]]]]; simpl in Hlen; try lia.
  destruct s as [|[|[|[|s]]]]; [discriminate..|lia].
Qed.

(** [new_round] sets up a round in play. *)
Lemma new_round_in_play (shuffle : list Domino -> list Domino) (g : Game) :
  Permutation (shuffle GameM.DOMINOS) GameM.DOMINOS ->
  four_seats g ->
  NoDup (map (fun p => _name (store g p)) (players g)) ->
  fair_choosers g ->
  (first_game_round_step g = false -> In (winner g) (players g)) ->
  exists g',
    GameM.new_round shuffle g = (Return tt, g')
    /\ in_play g'
    /\ players g' = players g
    /\ first_game_round_step g' = first_game_round_step g
    /\ (forall r, _name (store g' r) = _name (store g r)
                  /\ _action_chooser (store g' r) = _action_chooser (store g r)
                  /\ score (store g' r) = score (store g r)).
Proof.
  intros Hshuffle Hfour Hnames Hfair Hwin.
  destruct (four_seats_inv Hfour)
    as (a & b & c & d & Hp & Hab & Hac & Had & Hbc & Hbd & Hcd).
  destruct (dealt_table (shuffle GameM.DOMINOS) g Hp Hab Hac Had Hbc Hbd Hcd)
    as (g2 & Hdeal & Hp2 & Hw2 & Hflag2 & Hboard & Hhist & Hhands & Hkeep).
  rewrite <- Hp in Hp2.
  assert (Hlen : length (shuffle GameM.DOMINOS) = 28)
    by (apply Permutation_length in Hshuffle; exact Hshuffle).
  assert (Hnonempty : forall s, s < 4 -> hand_at g2 s <> []).
  { intros s Hs; rewrite (Hhands s Hs); apply slice_nonempty; lia. }
  assert (Hfull : full_set g2).
  { unfold full_set, tiles_in_play.
    rewrite Hboard, !Hhands by lia; cbn [app].
    rewrite (four_slices_perm (shuffle GameM.DOMINOS)), Hshuffle.
    reflexivity. }
  assert (Htable : forall s w,
             s < 4 -> In w (players g) ->
             table_in_order (with_next_player_index s (with_winner w g2))).
  { intros s w Hs Hw.
    split; [unfold four_seats; simpl; rewrite Hp2; exact Hfour|].
    split; [exact Hs|].
    split; [simpl; rewrite Hp2; exact Hw|].
    split.
    { split; simpl.
      - rewrite Hp2; erewrite map_ext; [exact Hnames|].
        intros q; simpl; apply Hkeep.
      - rewrite Hhist; intros t []. }
    split.
    { intros q Hq; simpl in Hq |- *; rewrite Hp2 in Hq.
      rewrite (proj1 (proj2 (Hkeep q))); now apply Hfair. }
    split; [simpl; rewrite Hboard; exact I | exact Hfull]. }
  destruct (first_game_round_step g) eqn:Hfirst.
  - destruct (@new_round_first_round shuffle g Hshuffle Hfour Hfirst)
      as (s & p & g2' & Hs & Hps & Hsix & Hdeal' & Hrun).
    assert (g2' = g2) by congruence; subst g2'.
    eexists; split; [exact Hrun|].
    split.
    { split; [apply Htable; [exact Hs | eapply nth_error_In; exact Hps]|].
      split; [exact Hnonempty|].
      change (if first_game_round_step g2
              then played_dominos g2 = [] /\ In (6, 6)%Z (hand_at g2 s)
              else played_dominos g2 = []
                   \/ locked_outcome (played_dominos g2) = Return false).
      rewrite Hflag2; split; [exact Hboard | now rewrite Hhands]. }
    split; [exact Hp2|]; split; [exact Hflag2 | exact Hkeep].
  - specialize (Hwin eq_refl).
    destruct (In_nth_error _ _ Hwin) as [s Hs].
    assert (Hs4 : s < 4).
    { destruct Hfour as [H4 _]; rewrite <- H4.
      apply nth_error_Some; rewrite Hs; discriminate. }
    assert (Hrun : GameM.new_round shuffle g = first_mover g2).
    { rewrite new_round_parts; unfold bind in Hdeal |- *.
      destruct (GameM._reset g) as [[[]|e] g1]; [|discriminate].
      now rewrite Hdeal. }
    rewrite Hrun; unfold first_mover, bind, gets, GameM.winner_index.
    rewrite Hflag2; unfold ret; cbv beta iota.
    rewrite Hw2, Hp2.
    rewrite (@index_nth (players g) s (winner g) (proj2 Hfour) Hs).
    eexists; split; [reflexivity|].
    split.
    { split.
      - specialize (Htable s (winner g) Hs4 Hwin).
        destruct Htable as (H1 & H2 & H3 & H4 & H5 & H6 & H7).
        split; [exact H1|]; split; [exact H2|].
        split; [simpl; rewrite Hw2, Hp2; exact Hwin|].
        split; [exact H4|]; split; [exact H5|]; split; assumption.
      - split; [exact Hnonempty|].
        simpl; rewrite Hflag2; left; exact Hboard. }
    split; [exact Hp2|]; split; [exact Hflag2 | exact Hkeep].
Qed.

(** ** Settling a round that is over *)

Lemma pips_app (l l' : list Domino) : pips (l ++ l') = (pips l + pips l')%Z.
Proof. unfold pips; induction l as [|d l IH]; simpl; [reflexivity | lia]. Qed.

Lemma pips_canon (l : list Domino) : pips (map canon l) = pips l.
Proof.
  unfold pips; induction l as [|d l IH]; simpl; [reflexivity|].
  rewrite IH; unfold canon, reversed.
  destruct (fst d <=? snd d)%Z; simpl; lia.
Qed.

Lemma domino_pips (d : Domino) :
  In d GameM.DOMINOS ->
  (0 <= fst d + snd d)%Z /\ ((fst d + snd d = 0)%Z -> d = (0, 0)%Z).
Proof.
  intros Hin; simpl in Hin.
  repeat (destruct Hin as [<-|Hin]; [simpl; split; [lia | intros; try lia; reflexivity]|]).
  contradiction.
Qed.

Lemma pips_nonneg (l : list Domino) :
  (forall d, In d l -> In d GameM.DOMINOS) -> (0 <= pips l)%Z.
Proof.
  induction l as [|d l IH]; intros Hin; unfold pips in *; simpl; [lia|].
  pose proof (proj1 (domino_pips d (Hin d (or_introl eq_refl)))).
  specialize (IH (fun e He => Hin e (or_intror He))); lia.
Qed.

(** Two different tiles of the set carry at least one pip. *)
Lemma two_tiles_pips (l : list Domino) :
  NoDup l ->
  (forall d, In d l -> In d GameM.DOMINOS) ->
  2 <= length l ->
  (1 <= pips l)%Z.
Proof.
  intros Hnd Hin Hlen.
  destruct l as [|x [|y l]]; simpl in Hlen; try lia.
  destruct (domino_pips x (Hin x (or_introl eq_refl))) as [Hx Hx0].
  destruct (domino_pips y (Hin y (or_intror (or_introl eq_refl)))) as [Hy Hy0].
  pose proof (pips_nonneg l (fun e He => Hin e (or_intror (or_intror He)))) as Hl.
  assert (Hxy : x <> y).
  { inversion Hnd as [|? ? Hnot _]; subst; intros ->; apply Hnot; now left. }
  unfold pips in *; simpl.
  destruct (Z.eq_dec (fst x + snd x) 0) as [Ex|Ex];
    destruct (Z.eq_dec (fst y + snd y) 0) as [Ey|Ey]; try lia.
  exfalso; apply Hxy; rewrite (Hx0 Ex), (Hy0 Ey); reflexivity.
Qed.

(** When a round is over there are pips left in the hands. *)
Lemma pips_left_positive (g : Game) :
  round_over g ->
  (1 <= pips (hand_at g 0) + pips (hand_at g 1)
        + pips (hand_at g 2) + pips (hand_at g 3))%Z.
Proof.
  intros ((_ & Hidx & _ & _ & _ & _ & Hfull) & _ & _ & Hothers & _).
  set (hands := hand_at g 0 ++ hand_at g 1 ++ hand_at g 2 ++ hand_at g 3).
  assert (Hp : pips hands
               = (pips (hand_at g 0) + pips (hand_at g 1)
                  + pips (hand_at g 2) + pips (hand_at g 3))%Z)
    by (unfold hands; rewrite !pips_app; lia).
  rewrite <- Hp, <- pips_canon.
  unfold full_set, tiles_in_play in Hfull; fold hands in Hfull.
  rewrite map_app in Hfull.
  apply two_tiles_pips.
  - apply Permutation_sym in Hfull.
    pose proof (Permutation_NoDup Hfull DOMINOS_distinct) as Hnd.
    eapply NoDup_app_remove_l; exact Hnd.
  - intros d Hd; eapply Permutation_in; [exact Hfull|].
    apply in_or_app; now right.
  - rewrite length_map; unfold hands; rewrite !length_app.
    assert (Hone : forall s, s < 4 -> s <> next_player_index g ->
                             1 <= length (hand_at g s)).
    { intros s Hs Hd; specialize (Hothers s Hs Hd).
      destruct (hand_at g s); [contradiction | simpl; lia]. }
    destruct (next_player_index g) as [|[|[|[|i]]]]; [| | | |lia].
    + pose proof (Hone 1 ltac:(lia) ltac:(lia));
        pose proof (Hone 2 ltac:(lia) ltac:(lia)); lia.
    + pose proof (Hone 0 ltac:(lia) ltac:(lia));
        pose proof (Hone 2 ltac:(lia) ltac:(lia)); lia.
    + pose proof (Hone 0 ltac:(lia) ltac:(lia));
        pose proof (Hone 1 ltac:(lia) ltac:(lia)); lia.
    + pose proof (Hone 0 ltac:(lia) ltac:(lia));
        pose proof (Hone 1 ltac:(lia) ltac:(lia)); lia.
Qed.

Lemma same_choosers_give_points (player : ref) (points : Z) :
  preserves same_choosers (GameM.give_points_to_team player points).
Proof.
  unfold GameM.give_points_to_team.
  repeat first
    [ match goal with
      | |- preserves _ (update_player ?p _) =>
          intros g r; simpl; upd_cases r p
      end
    | frame_step same_choosers_refl same_choosers_trans ].
Qed.

Lemma same_choosers_update_score : preserves same_choosers GameM.update_score.
Proof.
  unfold GameM.update_score.
  frame_step same_choosers_refl same_choosers_trans;
    [frame_step same_choosers_refl same_choosers_trans|].
  frame_step same_choosers_refl same_choosers_trans;
    [frame_step same_choosers_refl same_choosers_trans|].
  apply same_choosers_give_points.
Qed.

Lemma seated_score (g : Game) (r : ref) :
  four_seats g ->
  In r (players g) ->
  exists s, s < 4 /\ nth_error (players g) s = Some r
            /\ score_at g s = score (store g r).
Proof.
  intros [H4 _] Hin; destruct (In_nth_error _ _ Hin) as [s Hs].
  exists s; split; [|split; [exact Hs|]].
  - rewrite <- H4; apply nth_error_Some; rewrite Hs; discriminate.
  - unfold score_at; now rewrite Hs.
Qed.

(** [update_score] settles a round that is over: it returns, the round is
    still over, no score goes down and the winner's score goes up. *)
Lemma update_score_round_over (g : Game) :
  round_over g ->
  exists g',
    GameM.update_score g = (Return tt, g')
    /\ round_over g'
    /\ players g' = players g
    /\ winner g' = winner g
    /\ (forall r, _name (store g' r) = _name (store g r)
                  /\ _action_chooser (store g' r) = _action_chooser (store g r)
                  /\ (score (store g r) <= score (store g' r))%Z)
    /\ (score (store g (winner g)) < score (store g' (winner g)))%Z.
Proof.
  intros Hover.
  pose proof (pips_left_positive g Hover) as Hpos.
  pose proof Hover as (Htable & Hflag & Hboard & Hothers & Hend).
  pose proof Htable as (Hfour & Hidx & Hw & Hnames & Hfair & Hchain & Hfull).
  destruct (four_seats_inv Hfour) as (a & b & c & d & Hp & _).
  set (total := (pips (hand_at g 0) + pips (hand_at g 1)
                 + pips (hand_at g 2) + pips (hand_at g 3))%Z) in *.
  assert (Hrun : GameM.update_score g
                 = GameM.give_points_to_team (winner g) total g).
  { unfold GameM.update_score, bind, gets.
    now rewrite (@update_score_total g a b c d Hp). }
  pose proof (same_choosers_update_score g) as Hch.
  destruct (@give_points_to_team_four (winner g) total g Hfour)
    as [[Hn _] | (i & g' & Hi & Hret & Hframe & Hscores)];
    [contradiction|].
  rewrite Hrun, Hret in Hch; simpl in Hch.
  destruct Hframe as (Hp' & Hw' & Hb' & Hh' & Hf' & Hi' & Hnd' & Hout).
  assert (Hhand' : forall s, hand_at g' s = hand_at g s).
  { intros s; unfold hand_at; rewrite Hp'.
    destruct (nth_error (players g) s); [apply Hnd' | reflexivity]. }
  assert (Hgrow : forall r, (score (store g r) <= score (store g' r))%Z).
  { intros r; destruct (in_dec Nat.eq_dec r (players g)) as [Hin|Hnin];
      [|rewrite (Hout r Hnin); lia].
    destruct (seated_score g r Hfour Hin) as (s & Hs & Hr & Hsc).
    specialize (Hscores s Hs).
    unfold score_at in Hscores, Hsc; rewrite Hp', Hr in Hscores.
    destruct (Nat.even (i + s)); lia. }
  exists g'; split; [rewrite Hrun; exact Hret|].
  split.
  { split.
    { split; [unfold four_seats; rewrite Hp'; exact Hfour|].
      split; [rewrite Hi'; exact Hidx|].
      split; [rewrite Hw', Hp'; exact Hw|].
      split.
      { destruct Hnames as [Hnodup Hknown]; split.
        - rewrite Hp'; erewrite map_ext; [exact Hnodup|].
          intros q; simpl; apply Hnd'.
        - rewrite Hh'; intros t Ht.
          destruct (Hknown t Ht) as (q & Hq & Hn).
          exists q; split; [now rewrite Hp'|].
          rewrite <- Hn; apply Hnd'. }
      split.
      { intros q Hq; rewrite Hp' in Hq; rewrite (Hch q); now apply Hfair. }
      split; [rewrite Hb'; exact Hchain|].
      unfold full_set, tiles_in_play; rewrite Hb', !Hhand'; exact Hfull. }
    split; [congruence|].
    split; [rewrite Hb'; exact Hboard|].
    split; [intros s Hs Hd; rewrite Hhand'; rewrite Hi' in Hd; now apply Hothers|].
    rewrite Hi', Hhand', Hp', Hw'.
    destruct Hend as [Hend|[Hne Hblocked]]; [left; exact Hend|].
    right; split; [exact Hne|].
    intros s Hs; specialize (Hblocked s Hs); unfold can_move in *.
    now rewrite Hhand', Hb'. }
  split; [exact Hp'|]; split; [exact Hw'|].
  split.
  { intros r; split; [apply Hnd'|]; split; [apply Hch | apply Hgrow]. }
  specialize (Hscores i ltac:(destruct Hfour as [H4 _]; rewrite <- H4;
                                apply nth_error_Some; rewrite Hi; discriminate)).
  unfold score_at in Hscores; rewrite Hp', Hi in Hscores.
  replace (Nat.even (i + i)) with true in Hscores; [lia|].
  symmetry; apply Nat.even_spec; exists i; lia.
Qed.

(** ** A whole round *)

Lemma same_people_trans (g1 g2 g3 : Game) :
  same_people g1 g2 -> same_people g2 g3 -> same_people g1 g3.
Proof.
  intros [Hp12 H12] [Hp23 H23]; split; [congruence|].
  intros r; destruct (H12 r) as (? & ? & ?); destruct (H23 r) as (? & ? & ?).
  repeat split; try congruence; lia.
Qed.

(** A round is played to its end and settled: [play_round] returns for
    every shuffle and all fair choosers, within 117 steps. *)
Lemma play_round_finishes
      (shuffle : list Domino -> list Domino) (fuel : nat) (g : Game) :
  Permutation (shuffle GameM.DOMINOS) GameM.DOMINOS ->
  ready_for_round g ->
  116 < fuel ->
  exists g',
    Loop.play_round shuffle fuel g = (Return true, g')
    /\ round_over g'
    /\ same_people g g'
    /\ (score (store g (winner g')) < score (store g' (winner g')))%Z.
Proof.
  intros Hshuffle (Hfour & Hnames & Hfair & Hwin) Hfuel.
  destruct (new_round_in_play shuffle g Hshuffle Hfour Hnames Hfair Hwin)
    as (g1 & Hnew & Hplay1 & Hp1 & _ & Hkeep1).
  assert (Hsteps : steps_left g1 < fuel).
  { pose proof (steps_left_bound g1) as Hb.
    destruct Hplay1 as ((_ & _ & _ & _ & _ & _ & Hfull) & _).
    specialize (Hb Hfull); lia. }
  destruct (while_step_ends fuel g1 Hplay1 Hsteps)
    as (g2 & Hloop & Hover2 & Hp2 & Hkeep2).
  destruct (update_score_round_over g2 Hover2)
    as (g3 & Hupd & Hover3 & Hp3 & Hw3 & Hkeep3 & Hup).
  exists g3; split.
  { unfold Loop.play_round, bind; rewrite Hnew, Hloop, Hupd; reflexivity. }
  split; [exact Hover3|].
  assert (H12 : same_people g g2).
  { split; [congruence|].
    intros r; destruct (Hkeep1 r) as (? & ? & ?);
      destruct (Hkeep2 r) as (? & ? & ?).
    repeat split; try congruence; lia. }
  split.
  { apply (same_people_trans g g2 g3 H12); split; assumption. }
  rewrite Hw3.
  destruct H12 as [_ H12]; destruct (H12 (winner g2)) as (_ & _ & Hle); lia.
Qed.

(** ** A whole game *)

Lemma same_people_refl (g : Game) : same_people g g.
Proof. split; [reflexivity|]; intros r; repeat split; lia. Qed.

Lemma round_over_ready (g : Game) :
  round_over g -> ready_for_round g /\ In (winner g) (players g).
Proof.
  intros ((Hfour & _ & Hw & [Hnames _] & Hfair & _) & _).
  split; [|exact Hw].
  split; [exact Hfour|]; split; [exact Hnames|]; split; [exact Hfair|].
  intros _; exact Hw.
Qed.

Lemma points_short_winner (round_score : Z) (g : Game) :
  four_seats g ->
  In (winner g) (players g) ->
  (score (store g (winner g)) < round_score)%Z ->
  (1 <= points_short round_score g)%Z.
Proof.
  intros Hfour Hw Hlt.
  destruct (seated_score g (winner g) Hfour Hw) as (s & Hs & _ & Hsc).
  unfold points_short.
  destruct s as [|[|[|[|s]]]]; [| | | |lia]; lia.
Qed.

Lemma points_short_after_round (round_score : Z) (g g1 : Game) (w : ref) :
  four_seats g ->
  same_people g g1 ->
  In w (players g) ->
  (score (store g w) < score (store g1 w) < round_score)%Z ->
  (points_short round_score g1 + 1 <= points_short round_score g)%Z.
Proof.
  intros Hfour [Hp Hkeep] Hw Hlt.
  destruct (seated_score g w Hfour Hw) as (s & Hs & Hws & Hsc).
  assert (Hle : forall k, (score_at g k <= score_at g1 k)%Z).
  { intros k; unfold score_at; rewrite Hp.
    destruct (nth_error (players g) k); [apply Hkeep | lia]. }
  assert (Hsc1 : score_at g1 s = score (store g1 w))
    by (unfold score_at; now rewrite Hp, Hws).
  pose proof (Hle 0); pose proof (Hle 1); pose proof (Hle 2); pose proof (Hle 3).
  unfold points_short.
  destruct s as [|[|[|[|s]]]]; [| | | |lia]; lia.
Qed.

(** The loop of [play_game] ends: one shuffle for every point the four
    seats are short of [round_score] is enough. *)
Lemma while_below_ends (round_score : Z) (fuel : nat) :
  116 < fuel ->
  forall shuffles g,
    Forall (fun shuffle => Permutation (shuffle GameM.DOMINOS) GameM.DOMINOS)
           shuffles ->
    ready_for_round g ->
    In (winner g) (players g) ->
    ((score (store g (winner g)) < round_score)%Z ->
     (points_short round_score g <= Z.of_nat (length shuffles))%Z) ->
    exists g',
      Loop.while_below round_score shuffles fuel g = (Return true, g')
      /\ (round_score <= score (store g' (winner g')))%Z
      /\ same_people g g'
      /\ (g' = g \/ round_over g').
Proof.
  intros Hfuel shuffles.
  induction shuffles as [|shuffle rest IH]; intros g Hperm Hready Hw Hshort;
    cbn [Loop.while_below]; unfold bind, gets; cbv beta iota;
    destruct (Z.ltb_spec (score (store g (winner g))) round_score) as [Hlt|Hge];
    try (exists g; split; [reflexivity|]; split; [exact Hge|];
         split; [apply same_people_refl | now left]).
  - pose proof (points_short_winner round_score g (proj1 Hready) Hw Hlt).
    specialize (Hshort Hlt); simpl in Hshort; lia.
  - inversion Hperm as [|? ? Hshuffle Hrest]; subst.
    destruct (play_round_finishes shuffle fuel g Hshuffle Hready Hfuel)
      as (g1 & Hround & Hover1 & Hsame1 & Hup).
    destruct (round_over_ready g1 Hover1) as [Hready1 Hw1].
    rewrite Hround.
    destruct (IH g1 Hrest Hready1 Hw1) as (g' & Hrun & Hend & Hsame' & Hlast).
    { intros Hlt1.
      assert (Hwg : In (winner g1) (players g))
        by (rewrite <- (proj1 Hsame1); exact Hw1).
      pose proof (points_short_after_round round_score g g1 (winner g1)
                    (proj1 Hready) Hsame1 Hwg ltac:(lia)).
      specialize (Hshort Hlt); simpl length in Hshort; lia. }
    exists g'; split; [exact Hrun|]; split; [exact Hend|].
    split; [apply (same_people_trans g g1 g'); assumption|].
    right; destruct Hlast as [->|Hover']; assumption.
Qed.

Lemma reset_keeps (ps : list ref) (h : Store) (r : ref) :
  _name (fold_left (fun h p => upd h p (PlayerM.reset (h p))) ps h r)
  = _name (h r)
  /\ _action_chooser (fold_left (fun h p => upd h p (PlayerM.reset (h p))) ps h r)
     = _action_chooser (h r)
  /\ score (fold_left (fun h p => upd h p (PlayerM.reset (h p))) ps h r)
     = score (h r).
Proof.
  revert h; induction ps as [|p ps IH]; intros h; simpl; [auto|].
  destruct (IH (upd h p (PlayerM.reset (h p)))) as (Hn & Hc & Hs).
  rewrite Hn, Hc, Hs; unfold upd.
  destruct (Nat.eqb_spec r p) as [ -> | ]; auto.
Qed.

(** Lines 150-153 of [new_game]: the players are seated, the first of
    them is the winner, the first-round flag is set. *)
Lemma new_game_seated (p0 : ref) (ps : list ref) (g : Game) :
  exists g',
    (modify (with_players (p0 :: ps)) ;;
     GameM._reset ;;
     p0 <- players_at 0 ;;
     modify (with_winner p0) ;;
     modify (with_first_game_round_step true)) g = (Return tt, g')
    /\ players g' = p0 :: ps
    /\ winner g' = p0
    /\ first_game_round_step g' = true
    /\ (forall r, _name (store g' r) = _name (store g r)
                  /\ _action_chooser (store g' r) = _action_chooser (store g r)
                  /\ score (store g' r) = score (store g r))
    /\ store g'
       = fold_left (fun h p => upd h p (PlayerM.reset (h p))) (p0 :: ps) (store g)
    /\ played_dominos g' = []
    /\ round_history g' = []
    /\ next_player_index g' = next_player_index g.
Proof.
  unfold bind at 1; unfold modify at 1.
  unfold bind at 1; rewrite reset_eq.
  unfold bind, players_at, modify; simpl.
  eexists; split; [reflexivity|]; simpl.
  repeat (split; [reflexivity|]).
  split; [|repeat split].
  intros r; apply (reset_keeps (p0 :: ps)).
Qed.

Lemma reset_outside (ps : list ref) (h : Store) (r : ref) :
  ~ In r ps ->
  fold_left (fun h p => upd h p (PlayerM.reset (h p))) ps h r = h r.
Proof.
  revert h; induction ps as [|p ps IH]; intros h Hn; simpl; [reflexivity|].
  rewrite IH by (intros Hin; apply Hn; now right).
  unfold upd; destruct (Nat.eqb_spec r p) as [ -> | ]; [|reflexivity].
  exfalso; apply Hn; now left.
Qed.

Lemma reset_hands (ps : list ref) (h : Store) (r : ref) :
  In r ps \/ _dominos (h r) = [] ->
  _dominos (fold_left (fun h p => upd h p (PlayerM.reset (h p))) ps h r) = [].
Proof.
  revert h; induction ps as [|p ps IH]; intros h Hr; simpl.
  - destruct Hr as [[]|Hr]; exact Hr.
  - apply IH; unfold upd.
    destruct (Nat.eqb_spec r p) as [ -> | Hne]; [now right|].
    destruct Hr as [[Hr|Hr]|Hr]; [congruence | now left | now right].
Qed.

Lemma default_players_keeps (chooser : ActionChooser) (n : nat) :
  forall i g g' l q,
    GameM.default_players chooser i n g = (Return l, g') ->
    q < next_ref g -> store g' q = store g q.
Proof.
  induction n as [|n IH]; intros i g g' l q; simpl.
  - intros H _; inversion H; reflexivity.
  - unfold bind, GameM.new_Player.
    destruct (GameM.default_players chooser (S i) n _) as [[l'|e] g3] eqn:E;
      [|discriminate].
    intros H Hq; inversion H; subst.
    rewrite (IH _ _ _ _ q E) by (simpl; lia).
    simpl; unfold upd.
    destruct (Nat.eqb_spec q (next_ref g)); [lia | reflexivity].
Qed.

(** The default players are new objects named P1, P2, ... with the given
    chooser, an empty hand and score 0. *)
Lemma default_players_made (chooser : ActionChooser) (n : nat) :
  forall i g,
  exists g',
    GameM.default_players chooser i n g = (Return (seq (next_ref g) n), g')
    /\ forall k, k < n ->
         store g' (next_ref g + k)
         = PlayerM.init (GameM.default_name (i + k)) chooser.
Proof.
  induction n as [|n IH]; intros i g; simpl.
  - exists g; split; [reflexivity | intros k Hk; lia].
  - unfold bind, GameM.new_Player.
    destruct (IH (S i)
                (with_next_ref (S (next_ref g))
                   (with_store
                      (upd (store g) (next_ref g)
                         (PlayerM.init (GameM.default_name i) chooser)) g)))
      as (g' & Hrun & Hmade).
    rewrite Hrun; simpl in *.
    exists g'; split; [reflexivity|].
    intros [|k] Hk.
    + rewrite (default_players_keeps chooser n _ _ _ _ (next_ref g + 0) Hrun)
        by (simpl; lia).
      simpl; unfold upd; rewrite !Nat.add_0_r, Nat.eqb_refl; reflexivity.
    + replace (next_ref g + S k) with (S (next_ref g + k)) by lia.
      replace (i + S k) with (S (i + k)) by lia.
      apply Hmade; lia.
Qed.

(** [new_game()] with the default players sets the table for a round:
    four new players P1..P4, all with the given chooser and score 0, the
    first of them the winner. *)
Lemma new_game_default
      (random_chooser : ActionChooser) (shuffle_seats : list ref -> list ref)
      (shuffle_players : bool) (g : Game) :
  num_players g = 4 ->
  (shuffle_players = true -> forall l, Permutation (shuffle_seats l) l) ->
  exists g',
    GameM.new_game random_chooser shuffle_seats None shuffle_players g
    = (Return tt, g')
    /\ four_seats g'
    /\ (answers_from_offer random_chooser -> ready_for_round g')
    /\ In (winner g') (players g')
    /\ first_game_round_step g' = true
    /\ (forall s, s < 4 -> score_at g' s = 0%Z).
Proof.
  intros Hnum Hshuffle.
  destruct (default_players_made random_chooser 4 0 g) as (g1 & Hrun & Hmade).
  set (l := seq (next_ref g) 4) in *.
  set (ps := if shuffle_players then shuffle_seats l else l).
  assert (Hperm : Permutation ps l).
  { unfold ps; destruct shuffle_players; [now apply Hshuffle | reflexivity]. }
  assert (Hlen : length ps = 4)
    by (rewrite (Permutation_length Hperm); reflexivity).
  destruct ps as [|p0 rest] eqn:Hps; [discriminate|].
  destruct (new_game_seated p0 rest g1)
    as (g' & Htail & Hp' & Hw' & Hf' & Hkeep & _).
  assert (Hstore : forall p, In p (p0 :: rest) ->
             exists k, k < 4
                       /\ store g' p
                          = set_dominos
                              (PlayerM.init (GameM.default_name k) random_chooser)
                              (_dominos (store g' p))).
  { intros p Hin.
    apply (Permutation_in _ Hperm) in Hin; unfold l in Hin.
    apply in_seq in Hin.
    exists (p - next_ref g); split; [lia|].
    destruct (Hkeep p) as (Hn & Hc & Hs).
    specialize (Hmade (p - next_ref g) ltac:(lia)).
    replace (next_ref g + (p - next_ref g)) with p in Hmade by lia.
    rewrite Hmade in Hn, Hc, Hs; simpl in Hn, Hc, Hs.
    destruct (store g' p) as [n h c s]; simpl in *; subst; reflexivity. }
  exists g'; split.
  { unfold GameM.new_game.
    unfold bind at 1; unfold bind at 1; unfold gets.
    rewrite Hnum, Hrun; fold l; cbv zeta.
    unfold ps in Hps; rewrite Hps; exact Htail. }
  assert (Hfour : four_seats g').
  { split; rewrite Hp'; [exact Hlen|].
    apply (Permutation_NoDup (Permutation_sym Hperm)); apply seq_NoDup. }
  split; [exact Hfour|].
  split.
  { intros Hfair; split; [exact Hfour|].
    split.
    { rewrite Hp'.
      apply (Permutation_NoDup
               (l := map (fun p => _name (store g' p)) l)).
      - apply Permutation_map; now symmetry.
      - assert (Hnames : map (fun p => _name (store g' p)) l
                         = map (fun p => _name (store g1 p)) l)
          by (apply map_ext; intros p; apply Hkeep).
        rewrite Hnames; unfold l; cbn [seq map].
        rewrite <- (Nat.add_0_r (next_ref g)) at 1.
        replace (S (next_ref g)) with (next_ref g + 1) by lia.
        replace (S (next_ref g + 1)) with (next_ref g + 2) by lia.
        replace (S (next_ref g + 2)) with (next_ref g + 3) by lia.
        rewrite !Hmade by lia.
        cbn [PlayerM.init _name]; vm_compute.
        repeat constructor; simpl; intuition discriminate. }
    split.
    { intros p Hin; rewrite Hp' in Hin.
      destruct (Hstore p Hin) as (k & _ & ->); exact Hfair. }
    rewrite Hf'; discriminate. }
  split; [rewrite Hp', Hw'; now left|].
  split; [exact Hf'|].
  intros s Hs; unfold score_at; rewrite Hp'.
  destruct (nth_error (p0 :: rest) s) as [p|] eqn:E; [|reflexivity].
  destruct (Hstore p (nth_error_In _ _ E)) as (k & _ & ->); reflexivity.
Qed.

Lemma first_move_fair : answers_from_offer Fixture.first_move.
Proof.
  intros played [|m moves] Hne; [contradiction | now left].
Qed.

(** After the opening tile of P3, the round of [Rounds.locking_pool] is
    in play. *)
Lemma opening_played_in_play : in_play opening_played.
Proof.
  assert (Hp : players opening_played = [0; 1; 2; 3])
    by (vm_compute; reflexivity).
  assert (Hh : round_history opening_played = [Fixture.played "P3" (6, 6)%Z])
    by (vm_compute; reflexivity).
  assert (Hc : forall p, In p [0; 1; 2; 3] ->
                         _action_chooser (store opening_played p)
                         = Fixture.first_move).
  { intros p [<-|[<-|[<-|[<-|[]]]]]; vm_compute; reflexivity. }
  split; [split; [|split; [|split; [|split; [|split; [|split]]]]]|split].
  - split; rewrite Hp; [reflexivity | exact four_distinct_refs].
  - vm_compute; lia.
  - rewrite Hp; vm_compute; auto.
  - split.
    + rewrite Hp; vm_compute; repeat constructor; simpl; intuition discriminate.
    + rewrite Hh, Hp; intros t [<-|[]].
      exists 2; split; [simpl; auto | vm_compute; reflexivity].
  - intros p Hin; rewrite Hp in Hin; rewrite (Hc p Hin); exact first_move_fair.
  - apply chain_checked; vm_compute; reflexivity.
  - apply shuffle_of_sound; vm_compute; reflexivity.
  - intros s Hs; destruct s as [|[|[|[|s]]]]; [..|lia]; vm_compute; discriminate.
  - vm_compute; right; reflexivity.
Qed.

(** X14.  A step of a round in play never raises.  When it returns [True]
    the round is still in play and the bound [steps_left] on the steps to
    come has gone down; when it returns [False] the round is over: the
    player who moved has emptied the hand and is the winner, or no seat
    has a move.  Seats, names and choosers stay as they are and no score
    goes down. *)
Theorem X14_step_in_a_round_in_play (g : Game) :
  in_play g ->
  exists b g',
    GameM.step g = (Return b, g')
    /\ same_people g g'
    /\ (b = true -> in_play g' /\ steps_left g' < steps_left g)
    /\ (b = false -> round_over g').
Proof.
  intros Hplay.
  destruct (step_in_play g Hplay) as (b & g' & Hstep & Hp & Hkeep & Hb).
  exists b, g'; split; [exact Hstep|].
  split; [split; assumption|].
  destruct b; split; intros E; try discriminate; exact Hb.
Qed.

Lemma X14_step_in_a_round_in_play_witness :
  exists b g',
    GameM.step opening_played = (Return b, g')
    /\ same_people opening_played g'
    /\ (b = true -> in_play g' /\ steps_left g' < steps_left opening_played)
    /\ (b = false -> round_over g').
Proof.
  apply (X14_step_in_a_round_in_play opening_played).
  exact opening_played_in_play.
Defined.

(** X15.  The loop [while self.step()] of a round in play ends: [fuel]
    calls of [step] are enough as soon as [fuel] is more than
    [steps_left g], which is never more than 116; the loop raises nothing
    and leaves a round that is over, with the seats, names and choosers
    of before and no score lower. *)
Theorem X15_round_loop_ends (fuel : nat) (g : Game) :
  in_play g ->
  steps_left g < fuel ->
  steps_left g <= 116
  /\ exists g',
       Loop.while_step fuel g = (Return true, g')
       /\ round_over g'
       /\ same_people g g'.
Proof.
  intros Hplay Hfuel.
  split.
  - apply steps_left_bound.
    destruct Hplay as ((_ & _ & _ & _ & _ & _ & Hfull) & _); exact Hfull.
  - destruct (while_step_ends fuel g Hplay Hfuel)
      as (g' & Hrun & Hover & Hp & Hkeep).
    exists g'; split; [exact Hrun|]; split; [exact Hover|]; split; assumption.
Qed.

Lemma X15_round_loop_ends_witness :
  steps_left opening_played <= 116
  /\ exists g',
       Loop.while_step 117 opening_played = (Return true, g')
       /\ round_over g'
       /\ same_people opening_played g'.
Proof.
  apply (X15_round_loop_ends 117 opening_played).
  - exact opening_played_in_play.
  - vm_compute; lia.
Defined.

Lemma fresh_table_ready : ready_for_round fresh_table.
Proof.
  assert (Hp : players fresh_table = [0; 1; 2; 3])
    by (vm_compute; reflexivity).
  assert (Hc : forall p, In p [0; 1; 2; 3] ->
                         _action_chooser (store fresh_table p)
                         = Fixture.first_move).
  { intros p [<-|[<-|[<-|[<-|[]]]]]; vm_compute; reflexivity. }
  split; [split; rewrite Hp; [reflexivity | exact four_distinct_refs]|].
  split; [rewrite Hp; vm_compute; repeat constructor; simpl;
          intuition discriminate|].
  split; [|vm_compute; discriminate].
  intros p Hin; rewrite Hp in Hin; rewrite (Hc p Hin); exact first_move_fair.
Qed.

(** X16.  [play_round] at a table of four distinct players with distinct
    names and choosers that answer from the offer (and, after the first
    round of a game, a seated winner): for every shuffle of the 28 tiles
    the round is dealt, played to its end within 117 steps and settled
    without an exception.  The round it leaves is over; seats, names and
    choosers are those of before, no score has gone down and the score of
    the round's winner has gone up. *)
Theorem X16_play_round_finishes
        (shuffle : list Domino -> list Domino) (fuel : nat) (g : Game) :
  Permutation (shuffle GameM.DOMINOS) GameM.DOMINOS ->
  ready_for_round g ->
  116 < fuel ->
  exists g',
    Loop.play_round shuffle fuel g = (Return true, g')
    /\ round_over g'
    /\ same_people g g'
    /\ (score (store g (winner g')) < score (store g' (winner g')))%Z.
Proof.
  intros Hshuffle Hready Hfuel.
  exact (play_round_finishes shuffle fuel g Hshuffle Hready Hfuel).
Qed.

Lemma X16_play_round_finishes_witness :
  exists g',
    Loop.play_round (fun _ => Rounds.locking_pool) 117 fresh_table
    = (Return true, g')
    /\ round_over g'
    /\ same_people fresh_table g'
    /\ (score (store fresh_table (winner g')) < score (store g' (winner g')))%Z.
Proof.
  apply (X16_play_round_finishes (fun _ => Rounds.locking_pool) 117 fresh_table).
  - exact locking_pool_shuffled.
  - exact fresh_table_ready.
  - lia.
Defined.

(** X17.  [play_game()] with the default players ends.  Whatever the
    shuffles of the tiles (and of the seats) and whatever offered moves
    the chooser picks, [new_game] returns and the loop
    [while self.winner.score < self.round_score] stops after at most
    [4 * max 0 round_score] rounds, none of which raises or needs more
    than 117 steps.  At the end the winner is seated and holds at least
    [round_score] points, no seat holds a negative score, and, when
    [round_score] is positive, the last round is over and settled. *)
Theorem X17_play_game_ends
        (random_chooser : ActionChooser) (shuffle_seats : list ref -> list ref)
        (round_score : Z) (shuffles : list (list Domino -> list Domino))
        (fuel : nat) (shuffle_players : bool) (g : Game) :
  num_players g = 4 ->
  answers_from_offer random_chooser ->
  (shuffle_players = true -> forall l, Permutation (shuffle_seats l) l) ->
  Forall (fun shuffle => Permutation (shuffle GameM.DOMINOS) GameM.DOMINOS)
         shuffles ->
  116 < fuel ->
  (4 * Z.max 0 round_score <= Z.of_nat (length shuffles))%Z ->
  exists g0 g',
    GameM.new_game random_chooser shuffle_seats None shuffle_players g
    = (Return tt, g0)
    /\ Loop.play_game random_chooser shuffle_seats round_score shuffles fuel
                      None shuffle_players g
       = (Return true, g')
    /\ (round_score <= score (store g' (winner g')))%Z
    /\ same_people g0 g'
    /\ four_seats g'
    /\ In (winner g') (players g')
    /\ (forall s, s < 4 -> (0 <= score_at g' s)%Z)
    /\ ((0 < round_score)%Z -> round_over g').
Proof.
  intros Hnum Hfair Hseats Hshuffles Hfuel Hlen.
  destruct (new_game_default random_chooser shuffle_seats shuffle_players g
              Hnum Hseats)
    as (g0 & Hnew & _ & Hready & Hw & Hflag & Hzero).
  specialize (Hready Hfair).
  destruct (while_below_ends round_score fuel Hfuel shuffles g0
              Hshuffles Hready Hw)
    as (g' & Hrun & Hend & Hsame & Hlast).
  { intros _; unfold points_short; rewrite !Hzero by lia.
    rewrite Z.sub_0_r; lia. }
  exists g0, g'; split; [exact Hnew|].
  split; [unfold Loop.play_game, bind; rewrite Hnew; exact Hrun|].
  split; [exact Hend|]; split; [exact Hsame|].
  assert (Hscores : forall s, s < 4 -> (0 <= score_at g' s)%Z).
  { intros s Hs; rewrite <- (Hzero s Hs); unfold score_at.
    rewrite (proj1 Hsame).
    destruct (nth_error (players g0) s); [apply Hsame | lia]. }
  destruct Hlast as [->|Hover].
  - split; [apply Hready|]; split; [exact Hw|]; split; [exact Hscores|].
    intros Hpos; exfalso.
    destruct (seated_score g0 (winner g0) (proj1 Hready) Hw)
      as (s & Hs & _ & Hsc).
    rewrite <- Hsc, (Hzero s Hs) in Hend; lia.
  - destruct (round_over_ready g' Hover) as [Hready' Hw'].
    split; [apply Hready'|]; split; [exact Hw'|]; split; [exact Hscores|].
    intros _; exact Hover.
Qed.

Lemma X17_play_game_ends_witness :
  exists g0 g',
    GameM.new_game Fixture.first_move (fun l => l) None false
                   (GameM.init nobody 0)
    = (Return tt, g0)
    /\ Loop.play_game Fixture.first_move (fun l => l) 100
                      (repeat (fun _ => Rounds.locking_pool) 400) 117
                      None false (GameM.init nobody 0)
       = (Return true, g')
    /\ (100 <= score (store g' (winner g')))%Z
    /\ same_people g0 g'
    /\ four_seats g'
    /\ In (winner g') (players g')
    /\ (forall s, s < 4 -> (0 <= score_at g' s)%Z)
    /\ ((0 < 100)%Z -> round_over g').
Proof.
  apply (X17_play_game_ends Fixture.first_move (fun l => l) 100
           (repeat (fun _ => Rounds.locking_pool) 400) 117 false
           (GameM.init nobody 0)).
  - reflexivity.
  - exact first_move_fair.
  - discriminate.
  - apply Forall_forall; intros shuffle Hin.
    apply repeat_spec in Hin; subst; exact locking_pool_shuffled.
  - lia.
  - rewrite repeat_length; lia.
Defined.

(** X18.  [new_game()] called without players makes four new [Player]
    objects named P1, P2, P3, P4, each with the given chooser, an empty
    hand and score 0, and seats them in that order, or in the order the
    shuffle gives when [shuffle_players] is set.  The player at seat 0 is
    the winner, board and history are empty, the first-round flag is set,
    and no object that existed before is touched. *)
Theorem X18_new_game_makes_four_players
        (random_chooser : ActionChooser) (shuffle_seats : list ref -> list ref)
        (shuffle_players : bool) (g : Game) :
  num_players g = 4 ->
  (shuffle_players = true -> forall l, Permutation (shuffle_seats l) l) ->
  exists g',
    GameM.new_game random_chooser shuffle_seats None shuffle_players g
    = (Return tt, g')
    /\ players g'
       = (if shuffle_players then shuffle_seats (seq (next_ref g) 4)
          else seq (next_ref g) 4)
    /\ map (store g') (seq (next_ref g) 4)
       = map (fun name => PlayerM.init name random_chooser)
             ["P1"; "P2"; "P3"; "P4"]%string
    /\ (forall q, q < next_ref g -> store g' q = store g q)
    /\ hd_error (players g') = Some (winner g')
    /\ played_dominos g' = []
    /\ round_history g' = []
    /\ first_game_round_step g' = true.
Proof.
  intros Hnum Hshuffle.
  destruct (default_players_made random_chooser 4 0 g) as (g1 & Hrun & Hmade).
  set (l := seq (next_ref g) 4) in *.
  set (ps := if shuffle_players then shuffle_seats l else l).
  assert (Hperm : Permutation ps l).
  { unfold ps; destruct shuffle_players; [now apply Hshuffle | reflexivity]. }
  assert (Hlen : length ps = 4)
    by (rewrite (Permutation_length Hperm); reflexivity).
  destruct ps as [|p0 rest] eqn:Hps; [discriminate|].
  destruct (new_game_seated p0 rest g1)
    as (g' & Htail & Hp' & Hw' & Hf' & Hkeep & Hstore & Hb & Hh & _).
  assert (Hnew : forall k, k < 4 ->
             store g' (next_ref g + k)
             = PlayerM.init (GameM.default_name (0 + k)) random_chooser).
  { intros k Hk.
    assert (Hin : In (next_ref g + k) (p0 :: rest)).
    { apply (Permutation_in _ (Permutation_sym Hperm)).
      unfold l; apply in_seq; lia. }
    pose proof (reset_hands (p0 :: rest) (store g1) _ (or_introl Hin)) as Hd.
    rewrite <- Hstore in Hd.
    destruct (Hkeep (next_ref g + k)) as (Hn & Hc & Hs).
    rewrite (Hmade k Hk) in Hn, Hc, Hs; simpl in Hn, Hc, Hs.
    destruct (store g' (next_ref g + k)) as [n h c s]; simpl in *; subst.
    reflexivity. }
  exists g'; split.
  { unfold GameM.new_game.
    unfold bind at 1; unfold bind at 1; unfold gets.
    rewrite Hnum, Hrun; fold l; cbv zeta.
    unfold ps in Hps; rewrite Hps; exact Htail. }
  split; [exact Hp'|].
  split.
  { unfold l; cbn [seq map].
    rewrite <- (Nat.add_0_r (next_ref g)) at 1.
    replace (S (next_ref g)) with (next_ref g + 1) by lia.
    replace (S (next_ref g + 1)) with (next_ref g + 2) by lia.
    replace (S (next_ref g + 2)) with (next_ref g + 3) by lia.
    rewrite !Hnew by lia; reflexivity. }
  split.
  { intros q Hq; rewrite Hstore, reset_outside.
    - apply (default_players_keeps random_chooser 4 0 g g1 l q Hrun Hq).
    - intros Hin; apply (Permutation_in _ Hperm) in Hin.
      unfold l in Hin; apply in_seq in Hin; lia. }
  split; [rewrite Hp', Hw'; reflexivity|].
  split; [exact Hb|]; split; [exact Hh | exact Hf'].
Qed.

Lemma X18_new_game_makes_four_players_witness :
  exists g',
    GameM.new_game Fixture.first_move (fun l => l) None false
                   (GameM.init nobody 0)
    = (Return tt, g')
    /\ players g' = seq (next_ref (GameM.init nobody 0)) 4
    /\ map (store g') (seq (next_ref (GameM.init nobody 0)) 4)
       = map (fun name => PlayerM.init name Fixture.first_move)
             ["P1"; "P2"; "P3"; "P4"]%string
    /\ (forall q, q < next_ref (GameM.init nobody 0) ->
                  store g' q = store (GameM.init nobody 0) q)
    /\ hd_error (players g') = Some (winner g')
    /\ played_dominos g' = []
    /\ round_history g' = []
    /\ first_game_round_step g' = true.
Proof.
  apply (X18_new_game_makes_four_players Fixture.first_move (fun l => l) false
           (GameM.init nobody 0)).
  - reflexivity.
  - discriminate.
Defined.

(** X19.  What one step of a round in play does at the table.  The step
    of the player [p] to move returns and records exactly one turn under
    the name of [p]; the first-round flag is clear afterwards and no hand
    but that of [p] changes.  The turn is a pass only when [p] was offered
    no move, and then hand and board are untouched; otherwise it is the
    play of one of the offered (legal) moves: its tile leaves the hand of
    [p] and is attached to the board as the move says, and the turn is
    recorded with the tile as it was laid. *)
Theorem X19_pass_or_legal_play (g : Game) (p : ref) :
  in_play g ->
  nth_error (players g) (next_player_index g) = Some p ->
  exists b g' did_play domino_played,
    GameM.step g = (Return b, g')
    /\ round_history g'
       = round_history g
         ++ [mkTurnDataPoint (_name (store g p)) did_play domino_played]
    /\ first_game_round_step g' = false
    /\ (forall r, r <> p -> _dominos (store g' r) = _dominos (store g r))
    /\ ((did_play = false /\ domino_played = None
         /\ moves_of (_dominos (store g p)) (played_dominos g) = []
         /\ _dominos (store g' p) = _dominos (store g p)
         /\ played_dominos g' = played_dominos g)
        \/ (exists a,
              did_play = true /\ domino_played = Some (place a)
              /\ In a (moves_of (_dominos (store g p)) (played_dominos g))
              /\ Permutation (_dominos (store g p))
                             (domino a :: _dominos (store g' p))
              /\ played_dominos g' = attach a (played_dominos g))).
Proof.
  intros Hplay Hp.
  destruct (step_in_play g Hplay) as (b & g' & Hstep & _).
  destruct (turn_and_check g p Hplay Hp) as (turn & g3 & Hafter & Hend).
  pose proof (end_of_turn_frame p g3) as Hframe.
  rewrite <- Hend, Hstep in Hframe; simpl in Hframe.
  destruct Hframe as (_ & Hstore & Hboard & Hhist & Hflag).
  destruct Hafter as (_ & _ & _ & Hf3 & Hh3 & _ & Hother & Hturn).
  exists b, g', (fst turn), (snd turn); split; [exact Hstep|].
  split; [congruence|]; split; [congruence|].
  rewrite Hstore, Hboard.
  split; [exact Hother|].
  destruct Hturn as [(-> & Hnone & Hhand & Hb) | (a & -> & Hin & Hperm & Hb)].
  - left; repeat split; assumption.
  - right; exists a; repeat split; assumption.
Qed.

Lemma X19_pass_or_legal_play_witness :
  exists b g' did_play domino_played,
    GameM.step opening_played = (Return b, g')
    /\ round_history g'
       = round_history opening_played
         ++ [mkTurnDataPoint (_name (store opening_played 3))
                             did_play domino_played]
    /\ first_game_round_step g' = false
    /\ (forall r, r <> 3 ->
                  _dominos (store g' r) = _dominos (store opening_played r))
    /\ ((did_play = false /\ domino_played = None
         /\ moves_of (_dominos (store opening_played 3))
                     (played_dominos opening_played) = []
         /\ _dominos (store g' 3) = _dominos (store opening_played 3)
         /\ played_dominos g' = played_dominos opening_played)
        \/ (exists a,
              did_play = true /\ domino_played = Some (place a)
              /\ In a (moves_of (_dominos (store opening_played 3))
                                (played_dominos opening_played))
              /\ Permutation (_dominos (store opening_played 3))
                             (domino a :: _dominos (store g' 3))
              /\ played_dominos g' = attach a (played_dominos opening_played))).
Proof.
  apply (X19_pass_or_legal_play opening_played 3).
  - exact opening_played_in_play.
  - vm_compute; reflexivity.
Defined.

(** X20.  [new_game(players)] with a list of players handed in.  A list
    that is not empty is seated as it is, or as the shuffle leaves it when
    [shuffle_players] is set: the hands of the seated players are emptied
    while their names, choosers and scores stay, players who are not
    seated are not touched, the player at seat 0 becomes the winner, board
    and history are emptied and the first-round flag is set.  With an
    empty list the call raises [IndexError] at [self.players[0]], with
    the empty list already installed and board and history emptied. *)
Theorem X20_new_game_seats_the_players
        (random_chooser : ActionChooser) (shuffle_seats : list ref -> list ref)
        (shuffle_players : bool) (l : list ref) (g : Game) :
  let seats := if shuffle_players then shuffle_seats l else l in
  (seats <> [] ->
   exists g',
     GameM.new_game random_chooser shuffle_seats (Some l) shuffle_players g
     = (Return tt, g')
     /\ players g' = seats
     /\ hd_error seats = Some (winner g')
     /\ played_dominos g' = []
     /\ round_history g' = []
     /\ first_game_round_step g' = true
     /\ (forall r, In r seats ->
           store g' r = set_dominos (store g r) [])
     /\ (forall r, ~ In r seats -> store g' r = store g r))
  /\ (seats = [] ->
      exists g',
        GameM.new_game random_chooser shuffle_seats (Some l) shuffle_players g
        = (Raise IndexError, g')
        /\ players g' = []
        /\ played_dominos g' = []
        /\ round_history g' = []
        /\ store g' = store g
        /\ winner g' = winner g
        /\ first_game_round_step g' = first_game_round_step g).
Proof.
  intros seats; split.
  - intros Hne; destruct seats as [|p0 rest] eqn:Hseats; [contradiction|].
    destruct (new_game_seated p0 rest g)
      as (g' & Htail & Hp' & Hw' & Hf' & Hkeep & Hstore & Hb & Hh & _).
    exists g'; split.
    { unfold GameM.new_game; unfold bind at 1; unfold ret; cbv beta iota zeta.
      unfold seats in Hseats; rewrite Hseats; exact Htail. }
    split; [exact Hp'|]; split; [now rewrite Hw'|].
    split; [exact Hb|]; split; [exact Hh|]; split; [exact Hf'|].
    split.
    + intros r Hin.
      pose proof (reset_hands (p0 :: rest) (store g) r (or_introl Hin)) as Hd.
      rewrite <- Hstore in Hd.
      destruct (Hkeep r) as (Hn & Hc & Hs).
      destruct (store g' r) as [n h c s], (store g r) as [n0 h0 c0 s0].
      simpl in *; subst; reflexivity.
    + intros r Hn; rewrite Hstore; now apply reset_outside.
  - intros Hnil.
    eexists; split.
    { unfold GameM.new_game; unfold bind at 1; unfold ret; cbv beta iota zeta.
      fold seats; rewrite Hnil.
      unfold bind at 1; unfold modify at 1.
      unfold bind at 1; rewrite reset_eq.
      unfold bind, players_at; simpl; reflexivity. }
    simpl; repeat split.
Qed.

Lemma X20_new_game_seats_the_players_witness :
  exists g',
    GameM.new_game Fixture.first_move (@rev ref) (Some [0; 1; 2; 3]) true
                   round_settled
    = (Return tt, g')
    /\ players g' = [3; 2; 1; 0]
    /\ hd_error [3; 2; 1; 0] = Some (winner g')
    /\ played_dominos g' = []
    /\ round_history g' = []
    /\ first_game_round_step g' = true
    /\ (forall r, In r [3; 2; 1; 0] ->
          store g' r = set_dominos (store round_settled r) [])
    /\ (forall r, ~ In r [3; 2; 1; 0] -> store g' r = store round_settled r).
Proof.
  apply (proj1 (X20_new_game_seats_the_players Fixture.first_move (@rev ref)
                  true [0; 1; 2; 3] round_settled)).
  discriminate.
Defined.

(** ** Teams stay level *)

Lemma scores_kept_refl (g : Game) : scores_kept g g.
Proof. split; reflexivity. Qed.

Lemma scores_kept_trans (g1 g2 g3 : Game) :
  scores_kept g1 g2 -> scores_kept g2 g3 -> scores_kept g1 g3.
Proof.
  intros [Hp12 H12] [Hp23 H23]; split; [congruence|].
  intros r; now rewrite H23, H12.
Qed.

Lemma scores_kept_set_dominos (p : ref) (f : Player -> list Domino) :
  preserves scores_kept (update_player p (fun pl => set_dominos pl (f pl))).
Proof.
  intros g; split; [reflexivity|].
  intros r; simpl; upd_cases r p.
Qed.

Lemma scores_kept_find_double_six (ps : list ref) :
  preserves scores_kept (GameM.find_double_six ps).
Proof.
  induction ps as [|p ps IH]; simpl.
  - apply (preserves_ret _ scores_kept_refl).
  - apply (preserves_bind scores_kept_trans);
      [apply (preserves_gets _ scores_kept_refl)|].
    intros [|]; [|exact IH].
    apply preserves_modify; intros g; split; reflexivity.
Qed.

(** [new_round] writes no score. *)
Lemma scores_kept_new_round (shuffle : list Domino -> list Domino) :
  preserves scores_kept (GameM.new_round shuffle).
Proof.
  unfold GameM.new_round, GameM._reset, GameM.deal.
  repeat first
    [ apply scores_kept_find_double_six
    | apply (scores_kept_set_dominos _ (fun _ => _))
    | apply preserves_modify; intros g; split; reflexivity
    | frame_step scores_kept_refl scores_kept_trans ].
Qed.

Lemma team_awards_while_step (fuel : nat) :
  preserves team_awards (Loop.while_step fuel).
Proof.
  induction fuel as [|fuel IH]; simpl.
  - apply (preserves_ret _ team_awards_refl).
  - apply (preserves_bind team_awards_trans); [apply team_awards_step|].
    intros [|]; [exact IH | apply (preserves_ret _ team_awards_refl)].
Qed.

Lemma team_awards_play_round (shuffle : list Domino -> list Domino) (fuel : nat) :
  preserves team_awards (Loop.play_round shuffle fuel).
Proof.
  unfold Loop.play_round.
  apply (preserves_bind team_awards_trans).
  { intros g; apply scores_kept_team_awards, scores_kept_new_round. }
  intros _.
  apply (preserves_bind team_awards_trans); [apply team_awards_while_step|].
  intros [|]; [|apply (preserves_ret _ team_awards_refl)].
  apply (preserves_bind team_awards_trans); [apply team_awards_update_score|].
  intros _; apply (preserves_ret _ team_awards_refl).
Qed.

Lemma team_awards_while_below
      (round_score : Z) (shuffles : list (list Domino -> list Domino))
      (fuel : nat) :
  preserves team_awards (Loop.while_below round_score shuffles fuel).
Proof.
  induction shuffles as [|shuffle rest IH]; cbn [Loop.while_below];
    (apply (preserves_bind team_awards_trans);
     [apply (preserves_gets _ team_awards_refl)|]; intros w;
     apply (preserves_bind team_awards_trans);
     [apply (preserves_gets _ team_awards_refl)|]; intros s;
     destruct (s <? round_score)%Z;
     [|apply (preserves_ret _ team_awards_refl)]).
  - apply (preserves_ret _ team_awards_refl).
  - apply (preserves_bind team_awards_trans); [apply team_awards_play_round|].
    intros [|]; [exact IH | apply (preserves_ret _ team_awards_refl)].
Qed.

(** X21.  Rounds keep the teams level.  At a table of four distinct
    players whose teammates hold equal scores, [play_round] leaves the
    same seats and has added one amount to both even seats and one amount
    to both odd seats, so teammates hold equal scores again; and so they
    do after the loop of [play_game] - for every shuffle, every chooser
    and every bound on the steps, whether the calls return or raise. *)
Theorem X21_rounds_keep_teams_level
        (round_score : Z) (shuffle : list Domino -> list Domino)
        (shuffles : list (list Domino -> list Domino)) (fuel : nat) (g : Game) :
  four_seats g ->
  teams_equal g ->
  team_awards g (snd (Loop.play_round shuffle fuel g))
  /\ teams_equal (snd (Loop.play_round shuffle fuel g))
  /\ teams_equal (snd (Loop.while_below round_score shuffles fuel g)).
Proof.
  intros Hfour Heq.
  split; [apply team_awards_play_round|].
  split.
  - exact (teams_equal_after Hfour Heq (team_awards_play_round shuffle fuel g)).
  - exact (teams_equal_after Hfour Heq
             (team_awards_while_below round_score shuffles fuel g)).
Qed.

Lemma X21_rounds_keep_teams_level_witness :
  team_awards fresh_table
              (snd (Loop.play_round (fun _ => Rounds.closing_pool) 117 fresh_table))
  /\ teams_equal
       (snd (Loop.play_round (fun _ => Rounds.closing_pool) 117 fresh_table))
  /\ teams_equal
       (snd (Loop.while_below 100 [fun _ => Rounds.closing_pool] 117
                              fresh_table)).
Proof.
  apply (X21_rounds_keep_teams_level 100 (fun _ => Rounds.closing_pool)
           [fun _ => Rounds.closing_pool] 117 fresh_table).
  - split; [vm_compute; reflexivity | vm_compute; exact four_distinct_refs].
  - split; vm_compute; reflexivity.
Defined.

(** X22.  In the game of [play_game()] with the default players the two
    members of a team hold the same score when the call is over, however
    it ends: four players are seated, seats 0 and 2 hold one score and
    seats 1 and 3 hold one score.  (The terminal display prints the score
    of seat 0 and of seat 1 as the scores of the teams.) *)
Theorem X22_default_game_keeps_teams_level
        (random_chooser : ActionChooser) (shuffle_seats : list ref -> list ref)
        (round_score : Z) (shuffles : list (list Domino -> list Domino))
        (fuel : nat) (shuffle_players : bool) (g : Game) :
  num_players g = 4 ->
  (shuffle_players = true -> forall l, Permutation (shuffle_seats l) l) ->
  four_seats (snd (Loop.play_game random_chooser shuffle_seats round_score
                                  shuffles fuel None shuffle_players g))
  /\ teams_equal (snd (Loop.play_game random_chooser shuffle_seats round_score
                                      shuffles fuel None shuffle_players g)).
Proof.
  intros Hnum Hseats.
  destruct (new_game_default random_chooser shuffle_seats shuffle_players g
              Hnum Hseats)
    as (g0 & Hnew & Hfour & _ & _ & _ & Hzero).
  assert (Heq : teams_equal g0)
    by (split; rewrite !Hzero by lia; reflexivity).
  pose proof (team_awards_while_below round_score shuffles fuel g0) as Hteam.
  unfold Loop.play_game, bind; rewrite Hnew.
  split.
  - destruct (Hteam Hfour) as [Hp _].
    unfold four_seats; rewrite Hp; exact Hfour.
  - exact (teams_equal_after Hfour Heq Hteam).
Qed.

Lemma X22_default_game_keeps_teams_level_witness :
  four_seats (snd (Loop.play_game Fixture.first_move (fun l => l) 100
                                  [fun _ => Rounds.locking_pool] 117 None false
                                  (GameM.init nobody 0)))
  /\ teams_equal (snd (Loop.play_game Fixture.first_move (fun l => l) 100
                                      [fun _ => Rounds.locking_pool] 117
                                      None false (GameM.init nobody 0))).
Proof.
  apply (X22_default_game_keeps_teams_level Fixture.first_move (fun l => l) 100
           [fun _ => Rounds.locking_pool] 117 false (GameM.init nobody 0)).
  - reflexivity.
  - discriminate.
Defined.
